(** * Transformer-XL (Chinese): bucket planning, permutation encoding,
      memory caching, relative shift, causal mask and the adaptive softmax loss.

    A shallow embedding of [tf/data_utils_chinese.py] and [tf/model.py].

    Conventions.
    - Python integers are [Z]; [x % 8] is Python's floor modulo, [Z.modulo].
    - Sizes of arrays (lengths, [qlen], [mlen], [batch_size], ...) are [nat].
    - A tensor is a list along its first axis; trailing axes that an
      operation carries along untouched are an abstract element type.
    - Floating-point tensors that only ever hold 0.0 and 1.0 (the attention
      mask) are integers; the loss computations are over the reals [R]:
      rounding is outside this model. *)

From Stdlib Require Import ZArith List Bool Lia Arith.
From Stdlib Require Import Reals Lra.
Import ListNotations.

Open Scope Z_scope.

(* ================================================================== *)
(** * Part I: the embedding *)
(* ================================================================== *)

(** ** Python and NumPy helpers *)

Module Py.

(** [x[b:]]: a negative start counts from the end; the start is clamped
    to the bounds of the sequence. *)
Definition slice_from {A} (b : Z) (l : list A) : list A :=
  let n := Z.of_nat (length l) in
  let b' := if b <? 0 then Z.max 0 (b + n) else Z.min b n in
  skipn (Z.to_nat b') l.

(** [x[:e]] for a non-negative [e]. *)
Definition slice_to {A} (e : nat) (l : list A) : list A := firstn e l.

(** [x[b:e]] for non-negative [b] and [e]. *)
Definition slice {A} (b e : nat) (l : list A) : list A :=
  firstn (e - b) (skipn b l).

(** [range(n)] *)
Definition range (n : nat) : list nat := seq 0 n.

(** [zip] through a function: stops at the shorter argument. *)
Fixpoint map2 {A B C} (f : A -> B -> C) (l1 : list A) (l2 : list B) : list C :=
  match l1, l2 with
  | a :: l1', b :: l2' => f a b :: map2 f l1' l2'
  | _, _ => []
  end.

(** [enumerate] through a function, counting from [k]. *)
Fixpoint imap_from {A B} (k : nat) (f : nat -> A -> B) (l : list A) : list B :=
  match l with
  | [] => []
  | a :: l' => f k a :: imap_from (S k) f l'
  end.

Definition imap {A B} (f : nat -> A -> B) (l : list A) : list B :=
  imap_from 0 f l.

(** Row-major [reshape] of a flat sequence to [[rows, cols]]: the sequence
    is cut into [rows] rows of [cols] entries. *)
Fixpoint chunk {A} (rows cols : nat) (flat : list A) : list (list A) :=
  match rows with
  | O => []
  | S r => firstn cols flat :: chunk r cols (skipn cols flat)
  end.

(** [l[i] = v] on a list.  Python raises IndexError out of range; here the
    list is left as it is, and the callers' indices are in range. *)
Fixpoint set_nth {A} (i : nat) (v : A) (l : list A) : list A :=
  match l, i with
  | [], _ => []
  | _ :: l', O => v :: l'
  | a :: l', S i' => a :: set_nth i' v l'
  end.

(** [np.where(mask)[0]]: the positions at which [mask] holds, in order. *)
Fixpoint where_from (k : nat) (mask : list bool) : list nat :=
  match mask with
  | [] => []
  | m :: mask' => if m then k :: where_from (S k) mask' else where_from (S k) mask'
  end.

Definition np_where (mask : list bool) : list nat := where_from 0 mask.

(** [range(0, stop, step)] for [step > 0]. *)
Definition range_step (stop step : nat) : list nat :=
  map (fun k => k * step)%nat (seq 0 ((stop + step - 1) / step)).

End Py.

(** ** [data_utils_chinese.get_bin_sizes]: nearest-to-eight rounding *)

(** [def _nearest_to_eight(x): y = x - x % 8;
     return y + 8 if x % 8 >= 4 else max(8, y)] *)
Definition _nearest_to_eight (x : Z) : Z :=
  let y := x - x mod 8 in
  if x mod 8 >=? 4 then y + 8 else Z.max 8 y.

(** ** [data_utils_chinese.batchify] and [create_ordered_tfrecords] *)

(** The exceptions the modelled code can raise. *)
Inductive error : Type :=
| ZeroDivisionError
| ValueError
| AssertionError.

(** [(x >= left) * (x < right)] on one token. *)
Definition in_bucket (left right x : Z) : bool := (left <=? x) && (x <? right).

(** [enumerate(zip(cutoffs[1:-1], cutoffs[2:]))]: the tail buckets. *)
Definition tail_buckets (cutoffs : list Z) : list (Z * Z) :=
  combine (removelast (skipn 1 cutoffs)) (skipn 2 cutoffs).

(** [head_labels[tgt_pos] = v] for an index array [tgt_pos]. *)
Definition np_put (l : list Z) (pos : list nat) (v : Z) : list Z :=
  fold_left (fun acc p => Py.set_nth p v acc) pos l.

(** The loop that builds [head_labels] (and [tgt_pos_per_bin]):
    [head_labels = np.copy(labels)], then for each tail bucket [b],
    [tgt_pos = np.where((labels >= left) * (labels < right))[0]] and
    [head_labels[tgt_pos] = cutoffs[1] + b]. *)
Fixpoint head_labels_from (b : nat) (buckets : list (Z * Z)) (c1 : Z)
         (labels head_labels : list Z) : list Z :=
  match buckets with
  | [] => head_labels
  | lr :: rest =>
      let left := fst lr in
      let right := snd lr in
      let tgt_pos := Py.np_where (map (in_bucket left right) labels) in
      head_labels_from (S b) rest c1 labels
                       (np_put head_labels tgt_pos (c1 + Z.of_nat b))
  end.

Definition make_head_labels (cutoffs : list Z) (labels : list Z) : list Z :=
  head_labels_from 0 (tail_buckets cutoffs) (nth 1 cutoffs 0) labels labels.

(** [inp_pos_per_bin] / [tgt_pos_per_bin] *)
Definition pos_per_bin (cutoffs : list Z) (tokens : list Z) : list (list nat) :=
  map (fun lr => Py.np_where (map (in_bucket (fst lr) (snd lr)) tokens))
      (tail_buckets cutoffs).

(** The features [{prefix}_cnt_{b}] and [{prefix}_tup_{b}] of one bucket:
    [n_tup] and the flattened [(position, slot)] pairs. *)
Record PermFeature : Type := mkPerm { n_tup : Z; tup : list Z }.

(** [np.array(idx_tuple).reshape(n_tup * 2)] *)
Definition flatten_tuples (idx_tuple : list (Z * Z)) : list Z :=
  flat_map (fun ps => [fst ps; snd ps]) idx_tuple.

(** The inner loop of [_add_perm_feature] for bucket [b]:
    [for p in pos: if cnts[b] < bin_sizes[b]:
       idx_tuple.append([p, cnts[b]]); cnts[b] += 1
     else: break].
    [cnts] is the list the caller passes in and is updated in place; the
    assertion of the caller makes [b] a valid index of [cnts] and
    [bin_sizes]. *)
Fixpoint fill_bin (b : nat) (pos : list nat) (bin_sizes cnts : list Z)
  : list (Z * Z) * list Z :=
  match pos with
  | [] => ([], cnts)
  | p :: rest =>
      if nth b cnts 0 <? nth b bin_sizes 0 then
        let r := fill_bin b rest bin_sizes
                          (Py.set_nth b (nth b cnts 0 + 1) cnts) in
        ((Z.of_nat p, nth b cnts 0) :: fst r, snd r)
      else ([], cnts)
  end.

(** [def _add_perm_feature(feature, pos_per_bin, cnts, prefix)]: the
    features added, in bucket order, and [cnts] afterwards. *)
Fixpoint add_perm_from (b : nat) (pos_per_bin : list (list nat))
         (bin_sizes cnts : list Z) : list PermFeature * list Z :=
  match pos_per_bin with
  | [] => ([], cnts)
  | pos :: rest =>
      let r := fill_bin b pos bin_sizes cnts in
      let idx_tuple := fst r in
      let n := Z.of_nat (length idx_tuple) in
      let r' := add_perm_from (S b) rest bin_sizes (snd r) in
      (mkPerm n (flatten_tuples idx_tuple) :: fst r', snd r')
  end.

Definition _add_perm_feature (pos_per_bin : list (list nat))
           (bin_sizes cnts : list Z) : list PermFeature * list Z :=
  add_perm_from 0 pos_per_bin bin_sizes cnts.

(** The features present only with [len(cutoffs) > 0 and use_tpu]; the
    float masks hold 0.0 and 1.0, written 0 and 1. *)
Record PermFeatures : Type := mkPermFeatures {
  inp_mask : list Z;
  tgt_mask : list Z;
  head_labels : list Z;
  inp_perm : list PermFeature;
  tgt_perm : list PermFeature
}.

(** A serialized example: the [feature] dict. *)
Record Example : Type := mkExample {
  inputs : list Z;
  labels : list Z;
  perm_features : option PermFeatures
}.

(** The state the two loops of [create_ordered_tfrecords] share: the
    records handed to [record_writer.write] so far (oldest first) and the
    slot counters [inp_cnts] and [tgt_cnts]. *)
Record St : Type := mkSt {
  written : list Example;
  inp_cnts : list Z;
  tgt_cnts : list Z
}.

(** A state-and-exception monad: the state survives a raised exception,
    as the written records do. *)
Definition M (A : Type) : Type := St -> (error + A) * St.

Definition ret {A} (a : A) : M A := fun s => (inr a, s).
Definition raise {A} (e : error) : M A := fun s => (inl e, s).
Definition bind {A B} (m : M A) (k : A -> M B) : M B :=
  fun s => match m s with
           | (inl e, s') => (inl e, s')
           | (inr a, s') => k a s'
           end.
Definition get : M St := fun s => (inr s, s).
Definition put (s : St) : M unit := fun _ => (inr tt, s).

Notation "x <- m ;; k" := (bind m (fun x => k))
  (at level 61, m at next level, right associativity).
Notation "m ;;; k" := (bind m (fun _ => k))
  (at level 61, right associativity).

Definition py_assert (c : bool) : M unit :=
  if c then ret tt else raise AssertionError.

(** [record_writer.write(example.SerializeToString())] *)
Definition write_record (e : Example) : M unit :=
  s <- get ;; put (mkSt (written s ++ [e]) (inp_cnts s) (tgt_cnts s)).

Definition float_mask (left right : Z) (tokens : list Z) : list Z :=
  map (fun x => if in_bucket left right x then 1 else 0) tokens.

Section CreateOrderedTfrecords.

Variables (batch_size tgt_len num_core_per_host : nat).
Variables (cutoffs bin_sizes : list Z).
Variable use_tpu : bool.

(** The body of the [if len(cutoffs) > 0 and use_tpu:] block for example
    [idx]. *)
Definition add_tpu_features (idx : nat) (inputs labels : list Z)
  : M PermFeatures :=
  py_assert (Z.of_nat (length cutoffs) - Z.of_nat (length bin_sizes) =? 2) ;;;
  let left := nth 0 cutoffs 0 in
  let right := nth 1 cutoffs 0 in
  let inp_mask := float_mask left right inputs in
  let tgt_mask := float_mask left right labels in
  (* [idx % (batch_size // num_core_per_host) == 0] *)
  (if (num_core_per_host =? 0)%nat then raise ZeroDivisionError
   else if (batch_size / num_core_per_host =? 0)%nat then raise ZeroDivisionError
   else if (idx mod (batch_size / num_core_per_host) =? 0)%nat then
     s <- get ;;
     put (mkSt (written s) (repeat 0 (length bin_sizes))
               (repeat 0 (length bin_sizes)))
   else ret tt) ;;;
  let head_labels := make_head_labels cutoffs labels in
  let inp_pos_per_bin := pos_per_bin cutoffs inputs in
  let tgt_pos_per_bin := pos_per_bin cutoffs labels in
  s <- get ;;
  let ri := _add_perm_feature inp_pos_per_bin bin_sizes (inp_cnts s) in
  let rt := _add_perm_feature tgt_pos_per_bin bin_sizes (tgt_cnts s) in
  put (mkSt (written s) (snd ri) (snd rt)) ;;;
  ret (mkPermFeatures inp_mask tgt_mask head_labels (fst ri) (fst rt)).

(** The body of [for idx in range(batch_size)] at window start [t]. *)
Definition encode_example (batched_data : list (list Z)) (t cur_tgt_len idx : nat)
  : M unit :=
  let row := nth idx batched_data [] in
  let inputs := Py.slice t (t + cur_tgt_len) row in
  let labels := Py.slice (t + 1) (t + cur_tgt_len + 1) row in
  pf <- (if (0 <? length cutoffs)%nat && use_tpu
         then (f <- add_tpu_features idx inputs labels ;; ret (Some f))
         else ret None) ;;
  write_record (mkExample inputs labels pf).

Fixpoint for_each {A} (l : list A) (body : A -> M unit) : M unit :=
  match l with
  | [] => ret tt
  | a :: l' => body a ;;; for_each l' body
  end.

(** [for t in range(0, batched_data.shape[1] - 1, tgt_len)], with the
    [break] on a short last window under [use_tpu], counting [num_batch]. *)
Fixpoint batches_loop (batched_data : list (list Z)) (ncols : nat)
         (ts : list nat) (num_batch : nat) : M nat :=
  match ts with
  | [] => ret num_batch
  | t :: ts' =>
      let cur_tgt_len := Nat.min (ncols - 1 - t) tgt_len in
      if use_tpu && (cur_tgt_len <? tgt_len)%nat then ret num_batch
      else
        for_each (Py.range batch_size)
                 (encode_example batched_data t cur_tgt_len) ;;;
        batches_loop batched_data ncols ts' (S num_batch)
  end.

(** [def batchify(data, batch_size, num_passes)].  [starts] holds the values
    [np.random.randint(0, data_len)] returns, one per pass. *)
Definition batchify (data : list Z) (num_passes : nat) (starts : list nat)
  : error + list (list Z) :=
  let data_len := length data in
  let shifted :=
    if (1 <? num_passes)%nat then
      if (data_len =? 0)%nat then inl ValueError
      else
        let double_data := data ++ data in
        inr (concat (map (fun i =>
                            let start := nth i starts 0%nat in
                            Py.slice start (start + data_len) double_data)
                         (Py.range num_passes)))
    else inr data in
  match shifted with
  | inl e => inl e
  | inr data' =>
      if (batch_size =? 0)%nat then inl ZeroDivisionError
      else
        let num_step := (length data' / batch_size)%nat in
        inr (Py.chunk batch_size num_step
                      (Py.slice_to (batch_size * num_step) data'))
  end.

(** [def create_ordered_tfrecords(save_dir, basename, data, batch_size,
    tgt_len, num_core_per_host, cutoffs, bin_sizes, num_passes, use_tpu)]:
    the records written and either the exception raised or [num_batch].
    The file name it also returns is a format string of its arguments. *)
Definition create_ordered_tfrecords (data : list Z) (num_passes : nat)
           (starts : list nat) : M nat :=
  match batchify data num_passes starts with
  | inl e => raise e
  | inr batched_data =>
      let ncols := length (hd [] batched_data) in
      if (tgt_len =? 0)%nat then raise ValueError
      else batches_loop batched_data ncols
                        (Py.range_step (ncols - 1) tgt_len) 0%nat
  end.

End CreateOrderedTfrecords.

(** The run of [create_ordered_tfrecords] from a fresh writer. *)
Definition initial_state : St := mkSt [] [] [].

(** ** The arrays of one example, with their sharing

    [inputs = batched_data[idx, t:t + cur_tgt_len]] and [labels =
    batched_data[idx, t + 1:t + cur_tgt_len + 1]] are overlapping views of
    the buffer of [batched_data]; [head_labels = np.copy(labels)] owns a
    fresh buffer.  A heap of buffers and views into them make the sharing
    explicit; the value-level functions above are what the views read. *)

Definition heap : Type := list (list Z).

Record ndarray : Type := mkArr { buf : nat; off : nat; len : nat }.

Definition np_read (h : heap) (a : ndarray) : list Z :=
  firstn (len a) (skipn (off a) (nth (buf a) h [])).

(** [np.copy(a)]: a new buffer holding what [a] reads. *)
Definition np_copy (h : heap) (a : ndarray) : heap * ndarray :=
  (h ++ [np_read h a], mkArr (length h) 0 (length (np_read h a))).

(** [a[p] = v] writes through the view into its buffer.  The positions
    written come from [np.where] on an array as long as [a]. *)
Definition np_setitem (h : heap) (a : ndarray) (p : nat) (v : Z) : heap :=
  if (p <? len a)%nat
  then Py.set_nth (buf a) (Py.set_nth (off a + p) v (nth (buf a) h [])) h
  else h.

(** [a[pos] = v] for an index array [pos]. *)
Definition np_put_view (h : heap) (a : ndarray) (pos : list nat) (v : Z) : heap :=
  fold_left (fun h' p => np_setitem h' a p v) pos h.

(** The views [batched_data[idx, b:e]] on the buffer [bd] of
    [batched_data], whose rows have [ncols] entries. *)
Definition row_view (bd ncols idx b e : nat) : ndarray :=
  mkArr bd (idx * ncols + b) (e - b).

(** The [head_labels] loop on the heap: [labels] is read again for every
    bucket, [head_labels] is written. *)
Fixpoint head_labels_loop (b : nat) (buckets : list (Z * Z)) (c1 : Z)
         (labels head_labels : ndarray) (h : heap) : heap :=
  match buckets with
  | [] => h
  | lr :: rest =>
      let left := fst lr in
      let right := snd lr in
      let tgt_pos := Py.np_where (map (in_bucket left right) (np_read h labels)) in
      head_labels_loop (S b) rest c1 labels head_labels
                       (np_put_view h head_labels tgt_pos (c1 + Z.of_nat b))
  end.

Definition make_head_labels_heap (cutoffs : list Z) (labels : ndarray) (h : heap)
  : heap * ndarray :=
  let r := np_copy h labels in
  (head_labels_loop 0 (tail_buckets cutoffs) (nth 1 cutoffs 0) labels (snd r) (fst r),
   snd r).

(** Cutoffs in non-decreasing order. *)
Fixpoint is_sorted (l : list Z) : bool :=
  match l with
  | a :: (b :: _) as t => (a <=? b) && is_sorted t
  | _ => true
  end.

(** What the [head_labels] loop does to one position: [x] is the label
    there and [cur] the entry of [head_labels] before bucket [b]. *)
Fixpoint relabel_from (b : nat) (buckets : list (Z * Z)) (c1 x cur : Z) : Z :=
  match buckets with
  | [] => cur
  | lr :: rest =>
      relabel_from (S b) rest c1 x
                   (if in_bucket (fst lr) (snd lr) x then c1 + Z.of_nat b else cur)
  end.

(** ** The slot assignment, as the specification words it

    Scanning the matching positions in order, the first ones get the
    consecutive slots from the counter's value on, as long as the slot is
    below [bin_size]; the remaining positions get none. *)
Definition assigned_slots (pos : list nat) (cnt bin_size : Z) : list (Z * Z) :=
  let n := Nat.min (length pos) (Z.to_nat (bin_size - cnt)) in
  combine (map Z.of_nat (firstn n pos))
          (map (fun s => cnt + Z.of_nat s) (seq 0 n)).

(** Slot counters between zero and the capacity of their bucket. *)
Definition counters_valid (bin_sizes cnts : list Z) : Prop :=
  Forall2 (fun c bs => 0 <= c <= bs) cnts bin_sizes.

(** One bucket's feature, from the counter value [cnt] it starts at: the
    tuples the specification assigns, no more than [bs] of them, every slot
    below [bs], and positions left out only when the bucket is full. *)
Definition feature_from (pos : list nat) (cnt bs : Z) (f : PermFeature) : Prop :=
  0 <= cnt <= bs
  /\ tup f = flatten_tuples (assigned_slots pos cnt bs)
  /\ n_tup f = Z.of_nat (length (assigned_slots pos cnt bs))
  /\ n_tup f <= bs
  /\ (forall ps, In ps (assigned_slots pos cnt bs) -> cnt <= snd ps < bs)
  /\ (n_tup f < Z.of_nat (length pos) -> cnt + n_tup f = bs).

(** The permutation features of one side (inputs or labels) of an example
    respect the capacities of all buckets. *)
Definition perms_ok (cutoffs bin_sizes tokens : list Z)
           (perms : list PermFeature) : Prop :=
  length perms = length bin_sizes
  /\ forall b f,
      nth_error perms b = Some f ->
      exists cnt,
        feature_from (nth b (pos_per_bin cutoffs tokens) [])
                     cnt (nth b bin_sizes 0) f.



(** ** [model._cache_mem] *)

Section CacheMem.

(** One row of a memory tensor: the [bsz, d_model] slice at one position. *)
Variable Row : Type.

(** [tf.stop_gradient] is the identity on values. *)
Definition stop_gradient (t : list Row) : list Row := t.

(** [def _cache_mem(curr_out, prev_mem, mem_len=None)]; [None] is [None]. *)
Definition _cache_mem (curr_out : list Row) (prev_mem : option (list Row))
           (mem_len : option Z) : list Row :=
  match mem_len, prev_mem with
  | None, _ => stop_gradient curr_out
  | _, None => stop_gradient curr_out
  | Some n, Some pm =>
      if n =? 0 then pm
      else stop_gradient (Py.slice_from (- n) (pm ++ curr_out))
  end.

(** The spec's [truncate_last]: the last [n] rows of [l]. *)
Definition truncate_last (n : nat) (l : list Row) : list Row :=
  rev (firstn n (rev l)).

(** The memory loop of [transformer]:
    [if mems is None: mems = [None] * n_layer] and then, per layer,
    [new_mems.append(_cache_mem(output, mems[i], mem_len))] before the
    layer maps [output] to the next [output].  [layer i out mem] stands
    for [rel_multihead_attn] followed by [positionwise_FF] of layer [i]. *)
Variable layer : nat -> list Row -> option (list Row) -> list Row.

Fixpoint cache_layers (i : nat) (output : list Row)
         (mems : list (option (list Row))) (mem_len : option Z)
  : list (list Row) :=
  match mems with
  | [] => []
  | m :: rest =>
      _cache_mem output m mem_len
        :: cache_layers (S i) (layer i output m) rest mem_len
  end.

Definition transformer_new_mems (n_layer : nat) (output : list Row)
           (mems : option (list (list Row))) (mem_len : option Z)
  : option (list (list Row)) :=
  match mems with
  | None => Some (cache_layers 0 output (repeat None n_layer) mem_len)
  | Some ms =>
      (* [mems[i]] for [i] in [range(n_layer)]: IndexError on a short list *)
      if (length ms <? n_layer)%nat then None
      else Some (cache_layers 0 output (map Some (firstn n_layer ms)) mem_len)
  end.

End CacheMem.

Arguments stop_gradient {Row} t.
Arguments _cache_mem {Row} curr_out prev_mem mem_len.
Arguments truncate_last {Row} n l.
Arguments cache_layers {Row} layer i output mems mem_len.
Arguments transformer_new_mems {Row} layer n_layer output mems mem_len.

(** ** [model.rel_shift] *)

Section RelShift.

(** An entry of the score tensor at one (query, key) pair: the
    [bsz, n_head] block the shift carries along; [zero] is the block
    [tf.pad] inserts. *)
Variable Blk : Type.
Variable zero : Blk.

(** [tf.pad(x, [[0, 0], [1, 0], [0, 0], [0, 0]])]: one zero block in
    front of every row of the second axis. *)
Definition pad_front (x : list (list Blk)) : list (list Blk) :=
  map (cons zero) x.

(** Row-major [tf.reshape] of the two leading axes to [[rows, cols]]. *)
Definition reshape2 (rows cols : nat) (x : list (list Blk)) : list (list Blk) :=
  Py.chunk rows cols (concat x).

(** [tf.slice(x, [1, 0, 0, 0], [-1, -1, -1, -1])]: drop the first row. *)
Definition drop_first_row (x : list (list Blk)) : list (list Blk) := tl x.

(** [def rel_shift(x)] for [x] of shape [[qlen, klen, bsz, n_head]];
    [x_size[0]] and [x_size[1]] are read off [x]. *)
Definition rel_shift (x : list (list Blk)) : list (list Blk) :=
  let qlen := length x in
  let klen := length (hd [] x) in
  let x1 := pad_front x in
  let x2 := reshape2 (klen + 1) qlen x1 in
  let x3 := drop_first_row x2 in
  reshape2 qlen klen x3.

(** Entry [(i, j)] of a two-axis tensor, [None] out of range. *)
Definition at2 (x : list (list Blk)) (i j : nat) : option Blk :=
  match nth_error x i with
  | Some row => nth_error row j
  | None => None
  end.

(** A tensor of shape [[r, c, ...]]. *)
Definition has_shape (r c : nat) (x : list (list Blk)) : Prop :=
  length x = r /\ Forall (fun row => length row = c) x.

End RelShift.

Arguments pad_front {Blk} zero x.
Arguments reshape2 {Blk} rows cols x.
Arguments rel_shift {Blk} zero x.
Arguments at2 {Blk} x i j.
Arguments has_shape {Blk} r c x.

(** [BD = einsum('ibnd,jnd->ijbn', rr_head_q, r_head_k)] for one batch
    entry and one head: entry [(i, c)] is the dot product of query [i]
    (bias added) with the projected embedding of column [c].  Integer
    entries are enough for the example this is used in. *)
Definition dot (u v : list Z) : Z :=
  fold_right Z.add 0 (Py.map2 Z.mul u v).

Definition position_term (rr_head_q r_head_k : list (list Z)) : list (list Z) :=
  map (fun q => map (fun r => dot q r) r_head_k) rr_head_q.

(** ** [model._create_mask] *)

(** [tf.ones([r, c])], [tf.zeros([r, c])]; the entries are 0.0 and 1.0. *)
Definition ones (r c : nat) : list (list Z) := repeat (repeat 1 c) r.
Definition zeros (r c : nat) : list (list Z) := repeat (repeat 0 c) r.

(** [tf.matrix_band_part(input, num_lower, num_upper)]: entry [(m, n)] is
    kept when [(num_lower < 0 || m - n <= num_lower) &&
    (num_upper < 0 || n - m <= num_upper)], and zero otherwise. *)
Definition in_band (num_lower num_upper : Z) (m n : nat) : bool :=
  ((num_lower <? 0) || (Z.of_nat m - Z.of_nat n <=? num_lower))
  && ((num_upper <? 0) || (Z.of_nat n - Z.of_nat m <=? num_upper)).

Definition matrix_band_part (x : list (list Z)) (num_lower num_upper : Z)
  : list (list Z) :=
  Py.imap (fun m row =>
             Py.imap (fun n v => if in_band num_lower num_upper m n then v else 0)
                     row) x.

(** Elementwise [+] and [-] of equally shaped matrices. *)
Definition madd (a b : list (list Z)) : list (list Z) :=
  Py.map2 (Py.map2 Z.add) a b.
Definition msub (a b : list (list Z)) : list (list Z) :=
  Py.map2 (Py.map2 Z.sub) a b.

(** [tf.concat([a, b], 1)] *)
Definition concat1 (a b : list (list Z)) : list (list Z) :=
  Py.map2 (@app Z) a b.

(** [def _create_mask(qlen, mlen, same_length=False)] *)
Definition _create_mask (qlen mlen : nat) (same_length : bool) : list (list Z) :=
  let attn_mask := ones qlen qlen in
  let mask_u := matrix_band_part attn_mask 0 (-1) in
  let mask_dia := matrix_band_part attn_mask 0 0 in
  let attn_mask_pad := zeros qlen mlen in
  let ret := concat1 attn_mask_pad (msub mask_u mask_dia) in
  if same_length then
    let mask_l := matrix_band_part attn_mask (-1) 0 in
    concat1 (msub (madd (map (Py.slice_to qlen) ret) mask_l) mask_dia)
            (map (Py.slice_from (Z.of_nat qlen)) ret)
  else ret.

(** ** [model.mask_adaptive_logsoftmax] and [model.mul_adaptive_logsoftmax]

    Scalars are real numbers.  A tensor of shape [[len, bsz]] is a list of
    rows ([T2]); [[len, bsz, d]] is a [T2] of vectors.  Reductions and
    boolean masks follow TensorFlow's row-major order. *)

Section AdaptiveSoftmax.

Local Open Scope R_scope.

Definition matrix : Type := list (list R).
Definition T2 (A : Type) : Type := list (list A).

Definition rsum (l : list R) : R := fold_right Rplus 0 l.

(** [tf.reduce_sum] and [tf.reduce_mean] over all entries. *)
Definition reduce_sum (x : T2 R) : R := rsum (map rsum x).
Definition reduce_mean (x : T2 R) : R :=
  reduce_sum x / INR (length (concat x)).

(** [tf.to_float] of a boolean; [tf.to_int32] of a float truncates towards
    zero (no overflow is modelled). *)
Definition to_float (b : bool) : R := if b then 1 else 0.
Definition to_int32 (x : R) : Z :=
  if Rle_dec 0 x then Int_part x else (- Int_part (- x))%Z.

(** [tf.to_float] of an [int32]: the nearest [float32], which has a
    significand of 24 bits, ties going to the even significand.  Integers
    of magnitude below [2^24] are kept; from there on the multiples of
    [ulp = 2 ^ (log2 |z| - 23)] are the values a [float32] takes.
    [float32_of_Z] is the integer the result denotes. *)
Definition float32_of_Z (z : Z) : Z :=
  let a := Z.abs z in
  if (a <? 2 ^ 24)%Z then z
  else
    let ulp := (2 ^ (Z.log2 a - 23))%Z in
    let q := (a / ulp)%Z in
    let r := (a mod ulp)%Z in
    let m := if (2 * r <? ulp)%Z then q
             else if (ulp <? 2 * r)%Z then (q + 1)%Z
             else if Z.even q then q else (q + 1)%Z in
    (Z.sgn z * (m * ulp))%Z.

Definition to_float32 (z : Z) : R := IZR (float32_of_Z z).

(** The size of the last axis of a rank-3 tensor. *)
Definition dim3 {A} (x : T2 (list A)) : nat := length (hd [] (hd [] x)).

(** [einsum('d,nd->n', x, M)] *)
Definition rdot (u v : list R) : R := rsum (Py.map2 Rmult u v).
Definition matvec (M : matrix) (x : list R) : list R :=
  map (fun row => rdot row x) M.

(** [tf.nn.log_softmax] along the last axis and
    [tf.nn.sparse_softmax_cross_entropy_with_logits], the negated
    log-softmax at the label. *)
Definition log_softmax (v : list R) : list R :=
  let z := ln (rsum (map exp v)) in map (fun x => x - z) v.
Definition sparse_softmax_cross_entropy_with_logits
           (label : Z) (logits : list R) : R :=
  - nth (Z.to_nat label) (log_softmax logits) 0.

(** The first argument [params]: [[lookup_table, proj_W]] when
    [div_val == 1], [[tables, projs]] otherwise. *)
Inductive Params : Type :=
| SharedTable (W : matrix) (proj : option matrix)
| BucketTables (Ws : list matrix) (projs : list (option matrix)).

(** The variables [tf.get_variable] finds in the scope [adaptive_softmax]:
    [bias], [cutoff_i/b], [cutoff_i/proj], [cutoff_0/cluster_W] and
    [cutoff_0/cluster_b]. *)
Record VarScope : Type := mkVars {
  v_bias : list R;
  v_b : nat -> list R;
  v_proj : nat -> matrix;
  v_cluster_W : matrix;
  v_cluster_b : list R
}.

Variables (n_token d_embed d_proj div_val : Z).
Variable cutoffs : list Z.
Variable params : Params.
Variable tie_projs : list bool.
Variable proj_same_dim : bool.
Variable vars : VarScope.

(** [def _logit(x, W, b, proj)] on one hidden vector; the rank-3 and
    rank-2 cases map it over the leading axes. *)
Definition _logit (W : matrix) (b : list R) (proj : option matrix)
           (x : list R) : list R :=
  let y := match proj with
           | Some P => matvec P x
           | None => x
           end in
  Py.map2 Rplus (matvec W y) b.

(** [cutoff_ends = [0] + cutoffs + [n_token]] *)
Definition cutoff_ends : list Z := [0%Z] ++ cutoffs ++ [n_token].

(** The parameters of bucket [i], chosen alike by both functions:
    [cur_W], [cur_b] and [cur_proj].  A [params] of the wrong kind for
    [div_val] raises in both. *)
Definition cur_W (i : nat) (l_idx r_idx : Z) : matrix :=
  if (div_val =? 1)%Z then
    match params with
    | SharedTable W _ => Py.slice (Z.to_nat l_idx) (Z.to_nat r_idx) W
    | BucketTables _ _ => []
    end
  else
    match params with
    | SharedTable _ _ => []
    | BucketTables Ws _ => nth i Ws []
    end.

Definition cur_b (i : nat) : list R := v_b vars i.

Definition cur_proj (i : nat) : option matrix :=
  let cur_d_embed := (d_embed / div_val ^ Z.of_nat i)%Z in
  if nth i tie_projs false then
    if (div_val =? 1)%Z then
      match params with
      | SharedTable _ p => p
      | BucketTables _ _ => None
      end
    else
      match params with
      | SharedTable _ _ => None
      | BucketTables _ ps => nth i ps None
      end
  else if ((div_val =? 1)%Z || negb proj_same_dim) && (d_proj =? cur_d_embed)%Z
       then None
       else Some (v_proj vars i).

(** The head softmax: bucket 0 with the cluster rows appended;
    [head_logit = _logit(hidden, cur_W, cur_b, cur_proj)]. *)
Definition head_logit_vec (x : list R) : list R :=
  let l_idx := nth 0 cutoff_ends 0%Z in
  let r_idx := nth 1 cutoff_ends 0%Z in
  let W := cur_W 0 l_idx r_idx ++ v_cluster_W vars in
  let b := cur_b 0 ++ v_cluster_b vars in
  _logit W b (cur_proj 0) x.

Definition head_logit (hidden : T2 (list R)) : T2 (list R) :=
  map (map head_logit_vec) hidden.

(** The tail softmax of bucket [i >= 1]. *)
Definition tail_logit_vec (i : nat) (x : list R) : list R :=
  let l_idx := nth i cutoff_ends 0%Z in
  let r_idx := nth (i + 1) cutoff_ends 0%Z in
  _logit (cur_W i l_idx r_idx) (cur_b i) (cur_proj i) x.

(** The output with [len(cutoffs) == 0], before the mean. *)
Definition plain_nll (hidden : T2 (list R)) (target : T2 Z) : T2 R :=
  let output :=
    map (map (_logit (match params with
                      | SharedTable W _ => W
                      | BucketTables _ _ => []
                      end)
                     (v_bias vars)
                     (match params with
                      | SharedTable _ p => p
                      | BucketTables _ _ => None
                      end))) hidden in
  Py.map2 (Py.map2 sparse_softmax_cross_entropy_with_logits) target output.

(** *** Masked mode *)

(** [tf.boolean_mask(x, mask)]: the entries of [x] where [mask] holds, in
    row-major order. *)
Fixpoint keep {A} (mask : list bool) (x : list A) : list A :=
  match mask, x with
  | m :: mask', a :: x' => if m then a :: keep mask' x' else keep mask' x'
  | _, _ => []
  end.

Definition boolean_mask {A} (x : T2 A) (mask : T2 bool) : list A :=
  keep (concat mask) (concat x).

(** [tf.scatter_nd(tf.where(mask), vals, shape)]: [vals], in order, at the
    places where [mask] holds, zero elsewhere. *)
Fixpoint scatter_flat (mask : list bool) (vals : list R) : list R :=
  match mask with
  | [] => []
  | true :: mask' => hd 0 vals :: scatter_flat mask' (tl vals)
  | false :: mask' => 0 :: scatter_flat mask' vals
  end.

Fixpoint unflatten (row_lengths : list nat) (flat : list R) : T2 R :=
  match row_lengths with
  | [] => []
  | n :: rest => firstn n flat :: unflatten rest (skipn n flat)
  end.

Definition scatter_nd_where (mask : T2 bool) (vals : list R) : T2 R :=
  unflatten (map (@length bool) mask) (scatter_flat (concat mask) vals).

(** [def _gather_logprob(logprob, target)] *)
Definition _gather_logprob (logprob : list (list R)) (target : list Z)
  : list R :=
  Py.map2 (fun lp y => nth (Z.to_nat y) lp 0) logprob target.

Definition bucket_mask (l_idx r_idx : Z) (target : T2 Z) : T2 bool :=
  map (map (in_bucket l_idx r_idx)) target.

(** The term bucket 0 adds to [nll]. *)
Definition mask_head_term (hidden : T2 (list R)) (target : T2 Z) : T2 R :=
  let l_idx := nth 0 cutoff_ends 0%Z in
  let r_idx := nth 1 cutoff_ends 0%Z in
  let mask := bucket_mask l_idx r_idx target in
  let cur_target := map (fun y => (y - l_idx)%Z) (boolean_mask target mask) in
  let head_logprob := map (map log_softmax) (head_logit hidden) in
  let cur_head_logprob := boolean_mask head_logprob mask in
  let cur_logprob := _gather_logprob cur_head_logprob cur_target in
  scatter_nd_where mask (map Ropp cur_logprob).

(** The term bucket [i >= 1] adds to [nll]. *)
Definition mask_tail_term (hidden : T2 (list R)) (target : T2 Z) (i : nat)
  : T2 R :=
  let l_idx := nth i cutoff_ends 0%Z in
  let r_idx := nth (i + 1) cutoff_ends 0%Z in
  let mask := bucket_mask l_idx r_idx target in
  let cur_target := map (fun y => (y - l_idx)%Z) (boolean_mask target mask) in
  let head_logprob := map (map log_softmax) (head_logit hidden) in
  let cur_head_logprob := boolean_mask head_logprob mask in
  let cur_hidden := boolean_mask hidden mask in
  let tail_logit := map (tail_logit_vec i) cur_hidden in
  let tail_logprob := map log_softmax tail_logit in
  let c := (Z.to_nat (nth 1 cutoff_ends 0%Z) + i - 1)%nat in
  let cur_logprob :=
    Py.map2 Rplus (map (fun lp => nth c lp 0) cur_head_logprob)
            (_gather_logprob tail_logprob cur_target) in
  scatter_nd_where mask (map Ropp cur_logprob).

Definition tadd (a b : T2 R) : T2 R := Py.map2 (Py.map2 Rplus) a b.

(** [def mask_adaptive_logsoftmax(hidden, target, ..., return_mean)]: the
    tensor [nll] before [if return_mean], and the returned mean.  The loop
    over [range(len(cutoff_ends) - 1)] runs bucket 0 first, which also
    defines [head_logprob], and then the buckets [1 .. len(cutoffs)]. *)
Definition mask_adaptive_nll (hidden : T2 (list R)) (target : T2 Z) : T2 R :=
  if (length cutoffs =? 0)%nat then plain_nll hidden target
  else
    let nll := map (map (fun _ : Z => 0)) target in
    let nll := tadd nll (mask_head_term hidden target) in
    fold_left (fun acc i => tadd acc (mask_tail_term hidden target i))
              (seq 1 (length cutoffs)) nll.


(** *** Permutation mode *)

(** [einsum('ib,ibk->k', x, p)] *)
Definition einsum_ib_ibk (x : T2 R) (p : T2 (list R)) : list R :=
  map (fun k =>
         rsum (Py.map2 (fun xr pr =>
                          rsum (Py.map2 (fun a pv => a * nth k pv 0) xr pr))
                       x p))
      (seq 0 (dim3 p)).

(** [einsum('ibd,ibk->kd', h, p)] *)
Definition einsum_ibd_ibk (h : T2 (list R)) (p : T2 (list R)) : list (list R) :=
  map (fun k =>
         map (fun d =>
                rsum (Py.map2 (fun hr pr =>
                                 rsum (Py.map2 (fun hv pv => nth d hv 0 * nth k pv 0)
                                               hr pr))
                              h p))
             (seq 0 (dim3 h)))
      (seq 0 (dim3 p)).

(** [tf.reduce_sum(p, [0, 1])] *)
Definition reduce_sum_01 (p : T2 (list R)) : list R :=
  map (fun k => rsum (map (fun pr => rsum (map (fun pv => nth k pv 0) pr)) p))
      (seq 0 (dim3 p)).

(** [head_nll], shared by all buckets. *)
Definition head_nll (hidden : T2 (list R)) (head_target : T2 Z) : T2 R :=
  Py.map2 (Py.map2 sparse_softmax_cross_entropy_with_logits)
          head_target (head_logit hidden).

(** What bucket [i >= 1] adds to [total_loss] and to [total_cnt];
    [p] is [perms[i]].  The targets reach the tail softmax as
    [tf.to_int32(einsum(tf.to_float(target - l_idx), perms[i]))]; on 0/1
    tensors in which no slot is held twice the sum has one term that is
    not zero, so that no rounding but that of [tf.to_float] occurs. *)
Definition mul_tail_term (hidden : T2 (list R)) (target head_target : T2 Z)
           (i : nat) (p : T2 (list R)) : R * R :=
  let l_idx := nth i cutoff_ends 0%Z in
  let r_idx := nth (i + 1) cutoff_ends 0%Z in
  let cur_head_nll := einsum_ib_ibk (head_nll hidden head_target) p in
  let cur_hidden := einsum_ibd_ibk hidden p in
  let tail_logit := map (tail_logit_vec i) cur_hidden in
  let tail_target :=
    einsum_ib_ibk (map (map (fun y => to_float32 (y - l_idx))) target) p in
  let tail_nll :=
    Py.map2 sparse_softmax_cross_entropy_with_logits
            (map to_int32 tail_target) tail_logit in
  let sum_nll := Py.map2 Rplus cur_head_nll tail_nll in
  let mask := reduce_sum_01 p in
  let masked_loss := Py.map2 Rmult sum_nll mask in
  (rsum masked_loss, rsum mask).

(** [def mul_adaptive_logsoftmax(hidden, target, ..., perms, head_target)].
    [perms[0]] has shape [[len, bsz]] and [perms[i]], [i >= 1], shape
    [[len, bsz, bin_size]]: [perms] is the pair of [perms[0]] and
    [perms[1:]]. *)
Definition mul_adaptive_logsoftmax (hidden : T2 (list R)) (target : T2 Z)
           (perms : T2 R * list (T2 (list R))) (head_target : T2 Z) : R :=
  if (length cutoffs =? 0)%nat then reduce_mean (plain_nll hidden target)
  else
    let masked_loss :=
      Py.map2 (Py.map2 Rmult) (head_nll hidden head_target) (fst perms) in
    let total_loss := 0 + reduce_sum masked_loss in
    let total_cnt := 0 + reduce_sum (fst perms) in
    let totals :=
      fold_left (fun acc i =>
                   let term := mul_tail_term hidden target head_target i
                                             (nth (i - 1) (snd perms) []) in
                   (fst acc + fst term, snd acc + snd term))
                (seq 1 (length cutoffs)) (total_loss, total_cnt) in
    fst totals / snd totals.

(** *** The losses, as the specification words them

    Tokens are numbered in row-major order over [[len, bsz]]. *)

(** The sum of [f] over the tokens [0 .. N-1]. *)
Definition tsum (N : nat) (f : nat -> R) : R := rsum (map f (seq 0 N)).

Definition count_true (v : list bool) : nat := length (filter (fun b => b) v).

Definition shape {A} (x : T2 A) : list nat := map (@length A) x.

Fixpoint nat_list_eqb (a b : list nat) : bool :=
  match a, b with
  | [], [] => true
  | x :: a', y :: b' => (x =? y)%nat && nat_list_eqb a' b'
  | _, _ => false
  end.

(** The permutation tensors of the training step, from the slot
    indicators: [perms[0]] marks the head tokens and [perms[i]] marks, for
    every token, the slot of bucket [i] it is routed to. *)
Definition perms_of (route0 : T2 bool) (routes : list (T2 (list bool)))
  : T2 R * list (T2 (list R)) :=
  (map (map to_float) route0, map (map (map (map to_float))) routes).

(** Cross-entropy of token [n] in the head softmax against its head
    target, and in the tail softmax of bucket [i] against the label the
    permutation mode reads for it: its index in the bucket after the
    passage through [float32]. *)
Definition tok_head_nll (hidden : T2 (list R)) (head_target : T2 Z) (n : nat) : R :=
  sparse_softmax_cross_entropy_with_logits
    (nth n (concat head_target) 0%Z)
    (head_logit_vec (nth n (concat hidden) [])).

Definition tok_tail_nll (hidden : T2 (list R)) (target : T2 Z) (i n : nat) : R :=
  sparse_softmax_cross_entropy_with_logits
    (to_int32 (to_float32 (nth n (concat target) 0%Z - nth i cutoff_ends 0%Z)))
    (tail_logit_vec i (nth n (concat hidden) [])).

(** The slot indicators of one tail bucket fit the batch: the shape of
    [target], one indicator vector of the bucket's width per token, and no
    slot given to two tokens. *)
Definition route_wfb (target : T2 Z) (r : T2 (list bool)) : bool :=
  nat_list_eqb (shape r) (shape target)
  && forallb (fun v => (length v =? dim3 r)%nat) (concat r)
  && forallb (fun k => (count_true (map (fun v => nth k v false) (concat r))
                        <=? 1)%nat)
             (seq 0 (dim3 r)).

Definition routes_wf (hidden : T2 (list R)) (target head_target : T2 Z)
           (route0 : T2 bool) (routes : list (T2 (list bool))) : Prop :=
  shape hidden = shape target
  /\ shape head_target = shape target
  /\ shape route0 = shape target
  /\ forallb (fun v => (length v =? dim3 hidden)%nat) (concat hidden) = true
  /\ forallb (fun i => route_wfb target (nth (i - 1) routes []))
             (seq 1 (length cutoffs)) = true.

(** The sum of the cross-entropies of the routed tokens, and their number:
    a head token counts when [route0] marks it, a token of tail bucket [i]
    once per slot it holds. *)
Definition routed_nll_sum (hidden : T2 (list R)) (target head_target : T2 Z)
           (route0 : T2 bool) (routes : list (T2 (list bool))) : R :=
  let N := length (concat target) in
  tsum N (fun n => to_float (nth n (concat route0) false)
                   * tok_head_nll hidden head_target n)
  + rsum (map (fun i =>
                 tsum N (fun n =>
                           INR (count_true
                                  (nth n (concat (nth (i - 1) routes [])) []))
                           * (tok_head_nll hidden head_target n
                              + tok_tail_nll hidden target i n)))
              (seq 1 (length cutoffs))).

Definition routed_count (route0 : T2 bool) (routes : list (T2 (list bool))) : nat :=
  (count_true (concat route0)
   + list_sum (map (fun i =>
                      list_sum (map count_true (concat (nth (i - 1) routes []))))
                   (seq 1 (length cutoffs))))%nat.


(** No tail bucket spans more than [2^24 + 1] token ids: the index of a
    target in its bucket is at most [2^24], which [tf.to_float] keeps. *)
Definition buckets_fit_float32 : bool :=
  forallb (fun i => (nth (i + 1) cutoff_ends 0 - nth i cutoff_ends 0
                     <=? 2 ^ 24 + 1)%Z)
          (seq 1 (length cutoffs)).

End AdaptiveSoftmax.

(* ================================================================== *)
(** * Part I, continued: further code of the two files *)
(* ================================================================== *)

From Stdlib Require Import Permutation.
From Stdlib Require String Ascii DecimalString DecimalNat DecimalFacts.

(** ** Attention: the keys of a query *)

(** The keys a query may attend to: the columns of its mask row holding 0. *)
Definition attendable (row : list Z) : nat := count_occ Z.eq_dec row 0.

(** ** [model.rel_multihead_attn]: the attention scores

    One batch entry and one head: [AC] and [BD] have shape [[qlen, klen]]. *)

Section AttentionScores.

Local Open Scope R_scope.

(** [BD = einsum('ibnd,jnd->ijbn', rr_head_q, r_head_k)] *)
Definition einsum_BD (rr_head_q r_head_k : list (list R)) : T2 R :=
  map (fun q => map (fun r => rdot q r) r_head_k) rr_head_q.

(** [attn_score = (AC + BD) * scale] with [BD = rel_shift(BD)], then
    [attn_score * (1 - attn_mask_t) - 1e30 * attn_mask_t]. *)
Definition attn_score (AC BD : T2 R) (scale : R) (attn_mask : list (list Z))
  : T2 R :=
  let BD := rel_shift 0 BD in
  let attn_score := Py.map2 (Py.map2 (fun a b => (a + b) * scale)) AC BD in
  Py.map2 (Py.map2 (fun s m => s * (1 - IZR m) - 1e30 * IZR m))
          attn_score attn_mask.

End AttentionScores.

(** ** [model.transformer]: relative positions *)

(** [pos_seq = tf.range(klen - 1, -1, -1.0)] and, [if clamp_len > 0],
    [pos_seq = tf.minimum(pos_seq, clamp_len)]; the entries are whole
    numbers. *)
Definition pos_seq (klen : nat) (clamp_len : Z) : list Z :=
  let pos_seq := map (fun c => Z.of_nat klen - 1 - Z.of_nat c) (seq 0 klen) in
  if 0 <? clamp_len then map (fun p => Z.min p clamp_len) pos_seq
  else pos_seq.

Section PositionalEmbedding.

Local Open Scope R_scope.

(** One row of [concat([sin(sinusoid_inp), cos(sinusoid_inp)], -1)] with
    [sinusoid_inp = einsum('i,j->ij', pos_seq, inv_freq)]. *)
Definition pos_emb_row (inv_freq : list R) (p : R) : list R :=
  map (fun f => sin (p * f)) inv_freq ++ map (fun f => cos (p * f)) inv_freq.

(** [def positional_embedding(pos_seq, inv_freq, bsz=None)]: shape
    [[len(pos_seq), bsz, 2 * len(inv_freq)]], with [bsz = None] a unit
    axis. *)
Definition positional_embedding (pos_seq inv_freq : list R) (bsz : option nat)
  : list (list (list R)) :=
  let pos_emb := map (pos_emb_row inv_freq) pos_seq in
  match bsz with
  | Some b => map (fun row => repeat row b) pos_emb
  | None => map (fun row => [row]) pos_emb
  end.

(** [r_head_k = dense(r, n_head * d_head, use_bias=False)] for one head,
    [r] being [pos_emb] with its unit axis dropped: [kernel] holds one row
    per output coordinate. *)
Definition r_head_k_of (kernel : matrix) (pos_emb : list (list (list R)))
  : list (list R) :=
  map (fun e => matvec kernel (hd [] e)) pos_emb.

End PositionalEmbedding.

(** ** [model._cache_mem_id] *)

(** [def _cache_mem_id(curr_input, prev_mem, mem_len=None)]: the update of
    [_cache_mem] without [tf.stop_gradient]. *)
Definition _cache_mem_id {Tok : Type} (curr_input : list Tok)
           (prev_mem : option (list Tok)) (mem_len : option Z) : list Tok :=
  match mem_len, prev_mem with
  | None, _ => curr_input
  | _, None => curr_input
  | Some n, Some pm =>
      if n =? 0 then pm
      else Py.slice_from (- n) (pm ++ curr_input)
  end.

(** A memory of states and a memory of ids, position by position. *)
Definition zip_mems {Row Tok : Type} (prev_mem : option (list Row))
           (prev_id : option (list Tok)) : option (list (Row * Tok)) :=
  match prev_mem, prev_id with
  | Some m, Some ids => Some (combine m ids)
  | _, _ => None
  end.

(** ** [model.embedding_lookup] *)

Section EmbeddingLookup.

Local Open Scope R_scope.

(** [tf.one_hot(x, n_token)] for one id: 1.0 at index [x], all zeros for
    an id outside [0, n_token). *)
Definition one_hot (x : Z) (n_token : nat) : list R :=
  map (fun k => if (Z.of_nat k =? x)%Z then 1 else 0) (seq 0 n_token).

(** [einsum('nd,n->d', lookup_table, one_hot_idx)], the per-id slice of
    ['nd,in->id'] and ['nd,ibn->ibd']. *)
Definition einsum_nd_n (lookup_table : matrix) (one_hot_idx : list R)
  : list R :=
  map (fun d =>
         rsum (Py.map2 (fun row o => nth d row 0 * o) lookup_table one_hot_idx))
      (seq 0 (length (hd [] lookup_table))).

(** [tf.nn.embedding_lookup(lookup_table, x)] for one id; [None] for an id
    out of range, where the result depends on the device. *)
Definition gather (lookup_table : matrix) (x : Z) : option (list R) :=
  if (0 <=? x)%Z && (x <? Z.of_nat (length lookup_table))%Z
  then nth_error lookup_table (Z.to_nat x)
  else None.

(** All-or-nothing [map] of a partial function over a tensor of ids. *)
Fixpoint map_opt {A B} (f : A -> option B) (l : list A) : option (list B) :=
  match l with
  | [] => Some []
  | a :: l' =>
      match f a, map_opt f l' with
      | Some b, Some r => Some (b :: r)
      | _, _ => None
      end
  end.

(** [def embedding_lookup(lookup_table, x, use_tpu=True)] on ids of shape
    [[len, bsz]]. *)
Definition embedding_lookup (lookup_table : matrix) (x : T2 Z) (use_tpu : bool)
  : option (T2 (list R)) :=
  if use_tpu then
    let n_token := length lookup_table in
    Some (map (map (fun id => einsum_nd_n lookup_table (one_hot id n_token))) x)
  else map_opt (map_opt (gather lookup_table)) x.

End EmbeddingLookup.

(** ** Runs of [create_ordered_tfrecords]: what is written *)

(** [double_data[start:start + data_len]] for [start < data_len]: the data
    rotated left by [start]. *)
Definition rotate (start : nat) (data : list Z) : list Z :=
  skipn start data ++ firstn start data.

(** The two token arrays of a record. *)
Definition tokens_of (e : Example) : list Z * list Z := (inputs e, labels e).

(** The window of row [idx] that starts at column [t]:
    [batched_data[idx, t:t + cur_tgt_len]] and
    [batched_data[idx, t + 1:t + cur_tgt_len + 1]]. *)
Definition window (batched_data : list (list Z)) (t cur_tgt_len idx : nat)
  : list Z * list Z :=
  let row := nth idx batched_data [] in
  (Py.slice t (t + cur_tgt_len) row,
   Py.slice (t + 1) (t + cur_tgt_len + 1) row).

(** What every example checks again under [len(cutoffs) > 0 and use_tpu],
    whatever the data: the assertion on the lengths, then the division
    [batch_size // num_core_per_host] and the modulo by its result. *)
Definition tpu_checks (batch_size num_core_per_host : nat)
           (cutoffs bin_sizes : list Z) : option error :=
  if negb (Z.of_nat (length cutoffs) - Z.of_nat (length bin_sizes) =? 2)
  then Some AssertionError
  else if (num_core_per_host =? 0)%nat
          || (batch_size / num_core_per_host =? 0)%nat
       then Some ZeroDivisionError
       else None.

(** The window starts the outer loop gets through: all of them, or under
    [use_tpu] those before the first short window. *)
Fixpoint windows_run (tgt_len : nat) (use_tpu : bool) (ncols : nat)
         (ts : list nat) : list nat :=
  match ts with
  | [] => []
  | t :: ts' =>
      if use_tpu && (Nat.min (ncols - 1 - t) tgt_len <? tgt_len)%nat then []
      else t :: windows_run tgt_len use_tpu ncols ts'
  end.

(** ** [data_utils_chinese.get_input_fn]: the parser's permutation matrices *)

(** The rows of a flat sequence read as a [[n, 2]] tensor. *)
Fixpoint pairs (tup : list Z) : list (Z * Z) :=
  match tup with
  | p :: c :: rest => (p, c) :: pairs rest
  | _ => []
  end.

(** [tf.reshape(tup, shape=[cnt, 2])]: an error unless [tup] holds
    [cnt * 2] numbers; a [cnt] of -1 is inferred, any other negative
    [cnt] is an error. *)
Definition reshape_cnt_2 (cnt : Z) (tup : list Z) : option (list (Z * Z)) :=
  if cnt =? -1 then
    if Nat.even (length tup) then Some (pairs tup) else None
  else if (0 <=? cnt) && (Z.of_nat (length tup) =? cnt * 2)
       then Some (pairs tup)
       else None.

(** Lexicographic order on index pairs. *)
Definition lex_lt (a b : Z * Z) : bool :=
  (fst a <? fst b) || ((fst a =? fst b) && (snd a <? snd b)).

Fixpoint indices_increasing (indices : list (Z * Z)) : bool :=
  match indices with
  | a :: (b :: _) as rest => lex_lt a b && indices_increasing rest
  | _ => true
  end.

(** [tf.sparse_to_dense(sparse_indices, output_shape=[rows, cols],
    sparse_values=1.0, default_value=0.0)] with the default
    [validate_indices=True]: an error unless every index is within the
    shape and the indices are in lexicographic order without repeats. *)
Definition sparse_to_dense (sparse_indices : list (Z * Z)) (rows : nat)
           (cols : Z) : option (list (list Z)) :=
  if (0 <=? cols)
     && forallb (fun ix => (0 <=? fst ix) && (fst ix <? Z.of_nat rows)
                           && (0 <=? snd ix) && (snd ix <? cols))
                sparse_indices
     && indices_increasing sparse_indices
  then Some (map (fun p =>
                    map (fun c =>
                           if existsb (fun ix => (fst ix =? Z.of_nat p)
                                                 && (snd ix =? Z.of_nat c))
                                      sparse_indices
                           then 1 else 0)
                        (seq 0 (Z.to_nat cols)))
                 (seq 0 rows))
  else None.

(** [def _process_perm_feature(example, prefix)]: for [b] in
    [range(len(bin_sizes))] the features [{prefix}_cnt_{b}] and
    [{prefix}_tup_{b}] become the matrix [{prefix}_perm_{b}] of shape
    [[tgt_len, bin_sizes[b]]]; a missing feature is an error. *)
Definition _process_perm_feature (tgt_len : nat) (bin_sizes : list Z)
           (features : list PermFeature) : option (list (list (list Z))) :=
  map_opt (fun b =>
             match nth_error features b with
             | None => None
             | Some f =>
                 match reshape_cnt_2 (n_tup f) (tup f) with
                 | None => None
                 | Some tup => sparse_to_dense tup tgt_len (nth b bin_sizes 0)
                 end
             end)
          (Py.range (length bin_sizes)).

(** Positions in increasing order, none below [k]. *)
Fixpoint increasing_from (k : nat) (l : list nat) : Prop :=
  match l with
  | [] => True
  | p :: rest => (k <= p)%nat /\ increasing_from (S p) rest
  end.

(** ** Slots across the examples of a core *)

(** The slots the tuples of one feature name, in order. *)
Definition slots_of (f : PermFeature) : list Z := map snd (pairs (tup f)).

(** The slots of bucket [b] a record hands out on its input side and on
    its label side; none without permutation features. *)
Definition inp_slots (b : nat) (e : Example) : list Z :=
  match perm_features e with
  | Some pf =>
      match nth_error (inp_perm pf) b with
      | Some f => slots_of f
      | None => []
      end
  | None => []
  end.

Definition tgt_slots (b : nat) (e : Example) : list Z :=
  match perm_features e with
  | Some pf =>
      match nth_error (tgt_perm pf) b with
      | Some f => slots_of f
      | None => []
      end
  | None => []
  end.

(** The numbers [0, 1, ..., c - 1]. *)
Definition zrange (c : Z) : list Z := map Z.of_nat (seq 0 (Z.to_nat c)).

(** Record [i] of a file together with the records before it that belong
    to the same batch and the same core: the counters are refreshed at the
    examples [idx] with [idx % per_core == 0]. *)
Definition shard_prefix (batch_size per_core : nat) (recs : list Example)
           (i : nat) : list Example :=
  let idx := (i mod batch_size)%nat in
  Py.slice (i - idx mod per_core) (i + 1) recs.

(** ** [data_utils_chinese.get_input_fn]: the records of one host *)

(** The branch [elif num_hosts > 1] of the training input: with
    [num_batch_per_host = num_batch // num_hosts], host [host_id] reads
    [dataset.skip(my_start_sample_id).take(my_sample_num)]. *)
Definition host_records {A} (num_batch num_hosts num_core_per_host
                             per_core_bsz host_id : nat)
           (records : list A) : list A :=
  let num_batch_per_host := (num_batch / num_hosts)%nat in
  let my_start_sample_id :=
    (host_id * num_batch_per_host * num_core_per_host * per_core_bsz)%nat in
  let my_sample_num :=
    (num_batch_per_host * num_core_per_host * per_core_bsz)%nat in
  firstn my_sample_num (skipn my_start_sample_id records).

(** ** [data_utils_chinese.get_bin_sizes] *)

(** The exceptions [get_bin_sizes] can raise. *)
Inductive bin_error : Type :=
| BinZeroDivisionError
| BinIndexError
| BinValueError.

Section GetBinSizes.

Local Open Scope R_scope.

(** [np.mean] and [np.std] of a float vector, and [math.ceil]. *)
Definition np_mean (x : list R) : R := rsum x / INR (length x).
Definition np_std (x : list R) : R :=
  sqrt (np_mean (map (fun v => (v - np_mean x) * (v - np_mean x)) x)).
Definition math_ceil (x : R) : Z := (- Int_part (- x))%Z.

(** [data.reshape(batch_size, num_batch, tgt_len)] *)
Definition reshape3 (batch_size num_batch tgt_len : nat) (data : list Z)
  : list (list (list Z)) :=
  map (Py.chunk num_batch tgt_len)
      (Py.chunk batch_size (num_batch * tgt_len) data).

(** [mask = (data >= left) * (data < right)] and
    [percents = mask.astype(np.float64).sum(2).sum(0) / tot]. *)
Definition percents (data : list (list (list Z))) (num_batch : nat)
           (left right : Z) (tot : nat) : list R :=
  map (fun k =>
         rsum (map (fun row =>
                      rsum (map (fun x => to_float (in_bucket left right x))
                                (nth k row [])))
                   data)
         / INR tot)
      (seq 0 num_batch).

(** The loop over the tail buckets.  The mean and the deviation of an
    empty vector are nan, which [math.ceil] refuses with ValueError, after
    [std_mult[b]] has been read. *)
Fixpoint bin_sizes_loop (std_mult : list R) (data : list (list (list Z)))
         (batch_size tgt_len num_batch b : nat) (buckets : list (Z * Z))
  : bin_error + list Z :=
  match buckets with
  | [] => inr []
  | lr :: rest =>
      let percents :=
        percents data num_batch (fst lr) (snd lr) (batch_size * tgt_len) in
      let mean := np_mean percents in
      let std := np_std percents in
      match nth_error std_mult b with
      | None => inl BinIndexError
      | Some mult =>
          if (num_batch =? 0)%nat then inl BinValueError
          else
            let bin_size :=
              math_ceil (INR tgt_len * INR batch_size * (mean + mult * std)) in
            let bin_size := _nearest_to_eight bin_size in
            match bin_sizes_loop std_mult data batch_size tgt_len num_batch
                                 (S b) rest with
            | inl e => inl e
            | inr bin_sizes => inr (bin_size :: bin_sizes)
            end
      end
  end.

(** [def get_bin_sizes(data, batch_size, tgt_len, cutoffs,
    std_mult=[2.5, 2.5, 2.5])] *)
Definition get_bin_sizes (data : list Z) (batch_size tgt_len : nat)
           (cutoffs : list Z) (std_mult : list R) : bin_error + list Z :=
  match cutoffs with
  | [] => inr []
  | _ :: _ =>
      if (batch_size =? 0)%nat || (tgt_len =? 0)%nat
      then inl BinZeroDivisionError
      else
        let num_batch := (length data / batch_size / tgt_len)%nat in
        let data := Py.slice_to (batch_size * num_batch * tgt_len) data in
        let data := reshape3 batch_size num_batch tgt_len data in
        bin_sizes_loop std_mult data batch_size tgt_len num_batch 0
                       (tail_buckets cutoffs)
  end.

End GetBinSizes.

(** ** [data_utils_chinese.Corpus] *)

(** The values of the flag [dataset], and the three splits. *)
Inductive Dataset : Type :=
| ptb | wt2 | wt103 | lm1b | enwik8 | text8 | doupo | test | zhihu | poetry
| tangshi.

Inductive Split : Type := Train | Valid | Test.

(** [FLAGS.use_tpu] and [FLAGS.num_passes]. *)
Record Flags : Type := mkFlags { flag_use_tpu : bool; flag_num_passes : nat }.

Record Corpus : Type := mkCorpus {
  corpus_dataset : Dataset;
  corpus_train : list Z;
  corpus_valid : list Z;
  corpus_test : list Z;
  corpus_cutoffs : list Z
}.

(** [def __init__(self, path, dataset, *args, **kwargs)]; [train_txt] and
    [valid_txt] are what [self.vocab.encode_file] returns for [train.txt]
    and [valid.txt].  [self.test] is read from [train.txt] as well. *)
Definition Corpus_init (dataset : Dataset) (train_txt valid_txt : list Z)
  : Corpus :=
  mkCorpus dataset train_txt valid_txt train_txt [].

(** The exceptions of [convert_to_tfrecords]: its own, and those of the
    functions it calls. *)
Inductive convert_error : Type :=
| ConvertZeroDivisionError
| ConvertUnboundLocalError
| FromGetBinSizes (e : bin_error)
| FromCreateRecords (e : error).

(** The [record_info] written as JSON. *)
Record RecordInfo : Type := mkRecordInfo {
  info_filenames : nat;
  info_bin_sizes : list Z;
  info_num_batch : nat
}.

(** [self.dataset in ["ptb", "wt2", "wt103", "enwik8", "tangshi", "doupo",
    "test", "zhihu", "poetry"]] *)
Definition dataset_listed (d : Dataset) : bool :=
  match d with
  | lm1b | text8 => false
  | _ => true
  end.

(** [getattr(self, split)] *)
Definition corpus_split (self : Corpus) (split : Split) : list Z :=
  match split with
  | Train => corpus_train self
  | Valid => corpus_valid self
  | Test => corpus_test self
  end.

(** [def convert_to_tfrecords(self, split, save_dir, bsz, tgt_len,
    num_core_per_host, **kwargs)]: the records written, and the
    [record_info] or the exception.  Outside the listed datasets
    [bin_sizes] and [num_batch] are never assigned. *)
Definition convert_to_tfrecords (self : Corpus) (split : Split)
           (bsz tgt_len num_core_per_host : nat) (FLAGS : Flags)
           (starts : list nat) : (convert_error + RecordInfo) * St :=
  let use_tpu :=
    flag_use_tpu FLAGS
    && negb ((match split with Test => true | _ => false end)
             && (num_core_per_host =? 1)%nat) in
  if dataset_listed (corpus_dataset self) then
    let data := corpus_split self split in
    if (num_core_per_host =? 0)%nat
    then (inl ConvertZeroDivisionError, initial_state)
    else
      match get_bin_sizes data (bsz / num_core_per_host) tgt_len
                          (corpus_cutoffs self) [2.5; 2.5; 2.5]%R with
      | inl e => (inl (FromGetBinSizes e), initial_state)
      | inr bin_sizes =>
          let num_passes :=
            if (match split with Train => true | _ => false end) && use_tpu
            then flag_num_passes FLAGS else 1%nat in
          match create_ordered_tfrecords bsz tgt_len num_core_per_host
                                         (corpus_cutoffs self) bin_sizes
                                         use_tpu data num_passes starts
                                         initial_state with
          | (inl e, s) => (inl (FromCreateRecords e), s)
          | (inr num_batch, s) =>
              (inr (mkRecordInfo 1 bin_sizes num_batch), s)
          end
      end
  else (inl ConvertUnboundLocalError, initial_state).

(** ** [model.mask_adaptive_embedding_lookup] and
       [model.mul_adaptive_embedding_lookup]

    The embeddings returned; the parameters both also return
    ([ret_params]) are the variables themselves. *)

Section AdaptiveEmbedding.

Local Open Scope R_scope.

(** The variables [tf.get_variable] finds in the scope [adaptive_embed]:
    [lookup_table] and [proj_W] (with [div_val == 1]), and
    [cutoff_i/lookup_table] and [cutoff_i/proj_W]. *)
Record EmbedVars : Type := mkEmbedVars {
  ev_lookup_table : matrix;
  ev_proj_W : matrix;
  ev_tables : nat -> matrix;
  ev_projs : nat -> matrix
}.

Variables (n_token d_embed d_proj div_val : Z).
Variable cutoffs : list Z.
Variable proj_same_dim : bool.
Variable evars : EmbedVars.

(** [einsum('e,ed->d', y, proj_W)], the per-vector slice of
    ['ibe,ed->ibd'], ['id,de->ie'], ['ke,ed->kd'] and ['ie,ed->id'].  The
    result has the width of [proj_W], which is declared as [d_proj]; a list
    of rows does not record it when there are no rows. *)
Definition project (proj_W : matrix) (y : list R) : list R :=
  map (fun d => rsum (Py.map2 (fun a row => a * nth d row 0) y proj_W))
      (seq 0 (Z.to_nat d_proj)).

(** [emb_scale = d_proj ** 0.5] and [y *= emb_scale]. *)
Definition emb_scale : R := sqrt (IZR d_proj).

Definition scale_all (y : T2 (list R)) : T2 (list R) :=
  map (map (map (fun v => v * emb_scale))) y.

(** The branch [div_val == 1], with the lookup each function uses. *)
Definition embed_shared (use_tpu : bool) (x : T2 Z) : option (T2 (list R)) :=
  match embedding_lookup (ev_lookup_table evars) x use_tpu with
  | None => None
  | Some y =>
      Some (if negb (d_proj =? d_embed)%Z
            then map (map (project (ev_proj_W evars))) y
            else y)
  end.

(** [cur_d_embed = d_embed // (div_val ** i)] and the projection of
    bucket [i], [None] when [d_proj == cur_d_embed and not
    proj_same_dim]. *)
Definition cur_d_embed (i : nat) : Z := (d_embed / div_val ^ Z.of_nat i)%Z.

Definition bucket_proj (i : nat) : option matrix :=
  if (d_proj =? cur_d_embed i)%Z && negb proj_same_dim then None
  else Some (ev_projs evars i).

Definition apply_proj (proj_W : option matrix) (y : list R) : list R :=
  match proj_W with
  | Some W => project W y
  | None => y
  end.

(** [tf.zeros([x_size[0], x_size[1], d_proj])] and [+=] on such tensors. *)
Definition zero_row : list R := repeat 0 (Z.to_nat d_proj).

Definition zeros3 (x : T2 Z) : T2 (list R) := map (map (fun _ => zero_row)) x.

Definition vadd3 (a b : T2 (list R)) : T2 (list R) :=
  Py.map2 (Py.map2 (Py.map2 Rplus)) a b.

(** [tf.scatter_nd(mask_idx, cur_y, shape(y))] with [mask_idx =
    tf.where(mask)]: the rows of [cur_y], in order, at the places where
    [mask] holds, zero rows elsewhere. *)
Fixpoint scatter_rows (mask : list bool) (vals : list (list R))
  : list (list R) :=
  match mask with
  | [] => []
  | true :: mask' => hd zero_row vals :: scatter_rows mask' (tl vals)
  | false :: mask' => zero_row :: scatter_rows mask' vals
  end.

Fixpoint unflatten_rows (row_lengths : list nat) (flat : list (list R))
  : T2 (list R) :=
  match row_lengths with
  | [] => []
  | n :: rest => firstn n flat :: unflatten_rows rest (skipn n flat)
  end.

Definition scatter_nd_rows (mask : T2 bool) (vals : list (list R))
  : T2 (list R) :=
  unflatten_rows (map (@length bool) mask) (scatter_rows (concat mask) vals).

(** *** Masked mode *)

(** What bucket [i] adds to [y]; the gathering lookup fails on an index
    outside the bucket's table. *)
Definition mask_embed_term (x : T2 Z) (i : nat) : option (T2 (list R)) :=
  let l_idx := nth i (cutoff_ends n_token cutoffs) 0%Z in
  let r_idx := nth (i + 1) (cutoff_ends n_token cutoffs) 0%Z in
  let mask := bucket_mask l_idx r_idx x in
  let cur_x := map (fun id => (id - l_idx)%Z) (boolean_mask x mask) in
  match map_opt (gather (ev_tables evars i)) cur_x with
  | None => None
  | Some cur_y =>
      Some (scatter_nd_rows mask (map (apply_proj (bucket_proj i)) cur_y))
  end.

(** [def mask_adaptive_embedding_lookup(x, n_token, d_embed, d_proj,
    cutoffs, ..., div_val, proj_same_dim)] *)
Definition mask_adaptive_embedding_lookup (x : T2 Z) : option (T2 (list R)) :=
  option_map scale_all
    (if (div_val =? 1)%Z then embed_shared false x
     else
       fold_left (fun acc i =>
                    match acc, mask_embed_term x i with
                    | Some y, Some cur => Some (vadd3 y cur)
                    | _, _ => None
                    end)
                 (seq 0 (length (cutoff_ends n_token cutoffs) - 1))
                 (Some (zeros3 x))).

(** *** Permutation mode *)

(** Bucket 0: the lookup of [tf.minimum(x, r_idx - 1)], projected and
    multiplied by [perms[0][:, :, None]]. *)
Definition mul_embed_head (x : T2 Z) (perms0 : T2 R) : T2 (list R) :=
  let r_idx := nth 1 (cutoff_ends n_token cutoffs) 0%Z in
  let lookup_table := ev_tables evars 0 in
  let cur_y :=
    map (map (fun id =>
                einsum_nd_n lookup_table
                            (one_hot (Z.min id (r_idx - 1))
                                     (length lookup_table)))) x in
  let cur_y := map (map (apply_proj (bucket_proj 0))) cur_y in
  Py.map2 (Py.map2 (fun y p => map (fun v => v * p) y)) cur_y perms0.

(** [einsum('kd,ibk->ibd', cur_y, p)] *)
Definition einsum_kd_ibk (cur_y : list (list R)) (p : T2 (list R))
  : T2 (list R) :=
  map (map (fun pv =>
              map (fun d =>
                     rsum (Py.map2 (fun y pk => nth d y 0 * pk) cur_y pv))
                  (seq 0 (Z.to_nat d_proj))))
      p.

(** Bucket [i >= 1]; [p] is [perms[i]].  The ids reach the lookup as
    [tf.to_int32(einsum(tf.to_float(x - l_idx), perms[i]))]. *)
Definition mul_embed_tail (x : T2 Z) (i : nat) (p : T2 (list R))
  : T2 (list R) :=
  let l_idx := nth i (cutoff_ends n_token cutoffs) 0%Z in
  let lookup_table := ev_tables evars i in
  let cur_x :=
    einsum_ib_ibk (map (map (fun id => to_float32 (id - l_idx))) x) p in
  let cur_x := map to_int32 cur_x in
  let cur_y :=
    map (fun id => einsum_nd_n lookup_table
                               (one_hot id (length lookup_table))) cur_x in
  let cur_y := map (apply_proj (bucket_proj i)) cur_y in
  einsum_kd_ibk cur_y p.

(** [perms is None]: the projected tables are concatenated and looked up
    at once; a bucket without projection makes the product fail. *)
Definition mul_embed_cat (x : T2 Z) : option (T2 (list R)) :=
  match map_opt (fun i =>
                   match bucket_proj i with
                   | None => None
                   | Some W => Some (map (project W) (ev_tables evars i))
                   end)
                (seq 0 (length (cutoff_ends n_token cutoffs) - 1)) with
  | None => None
  | Some cat_lookup => embedding_lookup (concat cat_lookup) x true
  end.

(** [def mul_adaptive_embedding_lookup(x, n_token, d_embed, d_proj, cutoffs,
    ..., div_val, perms, proj_same_dim)]; [perms] is the pair of
    [perms[0]] and [perms[1:]]. *)
Definition mul_adaptive_embedding_lookup (x : T2 Z)
           (perms : option (T2 R * list (T2 (list R))))
  : option (T2 (list R)) :=
  option_map scale_all
    (if (div_val =? 1)%Z then embed_shared true x
     else
       match perms with
       | None => mul_embed_cat x
       | Some ps =>
           Some (fold_left
                   (fun acc i =>
                      vadd3 acc (mul_embed_tail x i (nth (i - 1) (snd ps) [])))
                   (seq 1 (length (cutoff_ends n_token cutoffs) - 2))
                   (vadd3 (zeros3 x) (mul_embed_head x (fst ps))))
       end).

(** *** The embedding of one token, as a table lookup

    The row of the token in the table of bucket [i], projected; what
    bucket [i] holds for a token; and the row in the token's own bucket. *)
Definition embed_row (i : nat) (id : Z) : list R :=
  apply_proj (bucket_proj i)
             (nth (Z.to_nat (id - nth i (cutoff_ends n_token cutoffs) 0%Z))
                  (ev_tables evars i) []).

Definition embed_term (i : nat) (id : Z) : list R :=
  if in_bucket (nth i (cutoff_ends n_token cutoffs) 0%Z)
               (nth (i + 1) (cutoff_ends n_token cutoffs) 0%Z) id
  then embed_row i id
  else zero_row.

Definition embed_token (id : Z) : list R :=
  match find (fun i => in_bucket (nth i (cutoff_ends n_token cutoffs) 0%Z)
                                 (nth (i + 1) (cutoff_ends n_token cutoffs) 0%Z)
                                 id)
             (seq 0 (length (cutoff_ends n_token cutoffs) - 1)) with
  | Some i => embed_row i id
  | None => zero_row
  end.

(** The variables have the shapes [get_variable] gives them, and no bucket
    is empty: [cutoff_i/lookup_table] is [[r_idx - l_idx, cur_d_embed]] and
    [cutoff_i/proj_W], where there is one, [[cur_d_embed, d_proj]]. *)
Definition embed_vars_shaped : Prop :=
  forall i,
    (i < length (cutoff_ends n_token cutoffs) - 1)%nat ->
    (nth i (cutoff_ends n_token cutoffs) 0
     < nth (i + 1) (cutoff_ends n_token cutoffs) 0)%Z
    /\ has_shape (Z.to_nat (nth (i + 1) (cutoff_ends n_token cutoffs) 0%Z
                            - nth i (cutoff_ends n_token cutoffs) 0%Z))
                 (Z.to_nat (cur_d_embed i)) (ev_tables evars i)
    /\ forall proj_W,
        bucket_proj i = Some proj_W ->
        has_shape (Z.to_nat (cur_d_embed i)) (Z.to_nat d_proj) proj_W.

(** The permutation tensors of the inputs route every token: [perms[0]]
    marks the head tokens, and in [perms[i]] every token of tail bucket
    [i] holds exactly one slot, other tokens none, no slot held twice. *)
Definition input_routes (x : T2 Z) (route0 : T2 bool)
           (routes : list (T2 (list bool))) : Prop :=
  route0 = bucket_mask (nth 0 (cutoff_ends n_token cutoffs) 0%Z)
                       (nth 1 (cutoff_ends n_token cutoffs) 0%Z) x
  /\ forall i,
      In i (seq 1 (length (cutoff_ends n_token cutoffs) - 2)) ->
      route_wfb x (nth (i - 1) routes []) = true
      /\ map count_true (concat (nth (i - 1) routes []))
         = map (fun id =>
                  if in_bucket (nth i (cutoff_ends n_token cutoffs) 0%Z)
                               (nth (i + 1) (cutoff_ends n_token cutoffs) 0%Z)
                               id
                  then 1%nat else 0%nat)
               (concat x).

End AdaptiveEmbedding.

(** ** The name of the record info file, written and read *)

Section FileNames.

Import String DecimalString.

Local Open Scope string_scope.

(** ["{}".format(n)] for a non-negative integer. *)
Definition format_int (n : nat) : string :=
  NilZero.string_of_uint (Nat.to_uint n).

(** The values [split] takes in [main] and [get_input_fn]. *)
Definition format_split (split : Split) : string :=
  match split with
  | Train => "train"
  | Valid => "valid"
  | Test => "test"
  end.

(** [record_name] in [Corpus.convert_to_tfrecords]. *)
Definition convert_record_name (split : Split)
           (bsz tgt_len num_core_per_host : nat) (FLAGS : Flags) : string :=
  let use_tpu :=
    flag_use_tpu FLAGS
    && negb ((match split with Test => true | _ => false end)
             && (num_core_per_host =? 1)%nat) in
  if use_tpu then
    "record_info-" ++ format_split split ++ ".bsz-" ++ format_int bsz
    ++ ".tlen-" ++ format_int tgt_len ++ ".core-"
    ++ format_int num_core_per_host ++ ".json"
  else
    "record_info-" ++ format_split split ++ ".bsz-" ++ format_int bsz
    ++ ".tlen-" ++ format_int tgt_len ++ ".json".

(** [record_name] in [load_record_info]. *)
Definition load_record_name (split : Split)
           (per_host_bsz tgt_len num_core_per_host : nat) (use_tpu : bool)
  : string :=
  if use_tpu then
    "record_info-" ++ format_split split ++ ".bsz-" ++ format_int per_host_bsz
    ++ ".tlen-" ++ format_int tgt_len ++ ".core-"
    ++ format_int num_core_per_host ++ ".json"
  else
    "record_info-" ++ format_split split ++ ".bsz-" ++ format_int per_host_bsz
    ++ ".tlen-" ++ format_int tgt_len ++ ".json".

(** The characters of a decimal numeral. *)
Definition is_digit (c : Ascii.ascii) : bool :=
  (48 <=? Ascii.nat_of_ascii c)%nat && (Ascii.nat_of_ascii c <=? 57)%nat.

Fixpoint all_digits (s : string) : bool :=
  match s with
  | EmptyString => true
  | String c s' => is_digit c && all_digits s'
  end.

End FileNames.

(* ================================================================== *)
(** * Part II: properties *)
(* ================================================================== *)

(** ** Nearest-to-eight rounding *)

(** C6: for every non-negative [x], [_nearest_to_eight x] is a multiple of
    8 and at least 8; it is the next multiple of 8 above [x] when
    [x % 8 >= 4] and the multiple of 8 below [x], floored at 8, otherwise;
    and it maps 12 to 16, 8 to 8, 3 to 8 and 20 to 24. *)
Theorem nearest_to_eight_rounds (x : Z) (Hx : 0 <= x) :
  (_nearest_to_eight x) mod 8 = 0
  /\ 8 <= _nearest_to_eight x
  /\ (4 <= x mod 8 -> _nearest_to_eight x = 8 * (x / 8 + 1))
  /\ (x mod 8 < 4 -> _nearest_to_eight x = Z.max 8 (8 * (x / 8)))
  /\ _nearest_to_eight 12 = 16
  /\ _nearest_to_eight 8 = 8
  /\ _nearest_to_eight 3 = 8
  /\ _nearest_to_eight 20 = 24.
Proof.
  assert (Hdm : x = 8 * (x / 8) + x mod 8) by (apply Z.div_mod; lia).
  assert (Hr : 0 <= x mod 8 < 8) by (apply Z.mod_pos_bound; lia).
  assert (Hq : 0 <= x / 8) by (apply Z.div_pos; lia).
  unfold _nearest_to_eight.
  destruct (x mod 8 >=? 4) eqn:E.
  - assert (4 <= x mod 8) by lia.
    replace (x - x mod 8 + 8) with ((x / 8 + 1) * 8) by lia.
    rewrite Z.mod_mul by lia.
    repeat split; try reflexivity; lia.
  - assert (x mod 8 < 4) by lia.
    replace (x - x mod 8) with (8 * (x / 8)) by lia.
    repeat split; try reflexivity; try lia.
    destruct (Z.max_spec 8 (8 * (x / 8))) as [[_ ->] | [_ ->]].
    + rewrite Z.mul_comm. apply Z.mod_mul. lia.
    + reflexivity.
Qed.

Lemma nearest_to_eight_rounds_witness :
  0 <= 12 /\ _nearest_to_eight 12 mod 8 = 0.
Proof.
  split; [lia | exact (proj1 (nearest_to_eight_rounds 12 ltac:(lia)))].
Defined.

(** ** Memory update *)

Section CacheMemFacts.

Context {Row : Type}.

Lemma truncate_last_skipn (n : nat) (l : list Row) :
  truncate_last n l = skipn (length l - n) l.
Proof.
  unfold truncate_last. now rewrite firstn_rev, rev_involutive.
Qed.

Lemma slice_from_neg_last (n : Z) (l : list Row) :
  0 < n -> Py.slice_from (- n) l = truncate_last (Z.to_nat n) l.
Proof.
  intros Hn. rewrite truncate_last_skipn. unfold Py.slice_from.
  replace (- n <? 0) with true by (symmetry; apply Z.ltb_lt; lia).
  f_equal. lia.
Qed.

Lemma cache_mem_present (mem_len : Z) (prev curr : list Row) :
  0 < mem_len ->
  _cache_mem curr (Some prev) (Some mem_len)
  = truncate_last (Z.to_nat mem_len) (prev ++ curr).
Proof.
  intros Hn. unfold _cache_mem, stop_gradient.
  replace (mem_len =? 0) with false by (symmetry; apply Z.eqb_neq; lia).
  now apply slice_from_neg_last.
Qed.

Lemma cache_mem_present_length (mem_len : Z) (prev curr : list Row) :
  0 < mem_len ->
  length (_cache_mem curr (Some prev) (Some mem_len))
  = Nat.min (Z.to_nat mem_len) (length prev + length curr).
Proof.
  intros Hn. rewrite cache_mem_present by assumption.
  rewrite truncate_last_skipn, length_skipn, length_app. lia.
Qed.

End CacheMemFacts.

(** C2: with a previous memory [prev] and [mem_len > 0], [_cache_mem]
    returns the last [mem_len] rows of [prev ++ curr]; with [mem_len = 5],
    an empty previous memory and seven new states it returns exactly the
    last five of them; with [mem_len = 0] it returns [prev] itself, whatever
    the current output is. *)
Theorem cache_mem_truncate_last {Row : Type} (mem_len : Z) (prev curr : list Row) :
  (0 < mem_len ->
   _cache_mem curr (Some prev) (Some mem_len)
   = truncate_last (Z.to_nat mem_len) (prev ++ curr))
  /\ (forall s1 s2 s3 s4 s5 s6 s7 : Row,
         _cache_mem [s1; s2; s3; s4; s5; s6; s7] (Some []) (Some 5)
         = [s3; s4; s5; s6; s7]
         /\ length (_cache_mem [s1; s2; s3; s4; s5; s6; s7] (Some []) (Some 5))
            = 5%nat)
  /\ _cache_mem curr (Some prev) (Some 0) = prev.
Proof.
  split; [apply cache_mem_present |].
  split; [intros; split; reflexivity | reflexivity].
Qed.

Lemma cache_mem_truncate_last_witness :
  0 < 2 /\ _cache_mem [30; 40] (Some [10; 20]) (Some 2) = [30; 40].
Proof.
  split; [lia |].
  exact (proj1 (cache_mem_truncate_last 2 [10; 20] [30; 40]) ltac:(lia)).
Defined.

Section MemoryBound.

Context {Row : Type}.
Variable layer : nat -> list Row -> option (list Row) -> list Row.

Lemma cache_layers_present_bound (mem_len : Z) (ms : list (list Row)) :
  0 < mem_len ->
  forall i output,
    Forall (fun m => (length m <= Z.to_nat mem_len)%nat)
           (cache_layers layer i output (map Some ms) (Some mem_len)).
Proof.
  intros Hn. induction ms as [| m ms IH]; intros i output;
    cbn [cache_layers map].
  - constructor.
  - constructor; [| apply IH].
    rewrite cache_mem_present_length by assumption. lia.
Qed.

Lemma cache_layers_length (mem_len : option Z) (ms : list (option (list Row))) :
  forall i output,
    length (cache_layers layer i output ms mem_len) = length ms.
Proof.
  induction ms as [| m ms IH]; intros i output; simpl; [reflexivity |].
  now rewrite IH.
Qed.

(** C9, as the code has it: when the previous memories are supplied (one
    per layer) and [mem_len > 0], every layer's new memory has at most
    [mem_len] rows; when no previous memory is supplied (first segment),
    the first layer's new memory is the whole current input, of the
    segment's length, whatever [mem_len] is. *)
Theorem new_mems_bounded_when_present (n_layer : nat) (mem_len : Z)
        (output : list Row) (ms : list (list Row))
        (Hlen : 0 < mem_len) (Hms : (n_layer <= length ms)%nat) :
  (exists new_mems,
      transformer_new_mems layer n_layer output (Some ms) (Some mem_len)
      = Some new_mems
      /\ length new_mems = n_layer
      /\ Forall (fun m => (length m <= Z.to_nat mem_len)%nat) new_mems)
  /\ _cache_mem output None (Some mem_len) = output.
Proof.
  split; [| reflexivity].
  unfold transformer_new_mems.
  replace (length ms <? n_layer)%nat with false
    by (symmetry; apply Nat.ltb_ge; lia).
  eexists; split; [reflexivity |]. split.
  - rewrite cache_layers_length, length_map, length_firstn. lia.
  - now apply cache_layers_present_bound.
Qed.

End MemoryBound.

Lemma new_mems_bounded_when_present_witness :
  exists new_mems,
    transformer_new_mems (fun _ out _ => out) 2 [1; 2; 3] (Some [[4; 5]; [6]])
                         (Some 2)
    = Some new_mems
    /\ length new_mems = 2%nat
    /\ Forall (fun m => (length m <= Z.to_nat 2)%nat) new_mems.
Proof.
  exact (proj1 (new_mems_bounded_when_present (fun _ out _ => out) 2 2
                  [1; 2; 3] [[4; 5]; [6]] ltac:(lia) ltac:(simpl; lia))).
Defined.

(** C9 fails on the first segment: with no previous memory and
    [mem_len = 5], a segment of seven states leaves a memory of seven. *)
Lemma first_segment_memory_exceeds_mem_len :
  transformer_new_mems (fun _ out _ => out) 1 [1; 2; 3; 4; 5; 6; 7] None (Some 5)
  = Some [[1; 2; 3; 4; 5; 6; 7]]
  /\ ~ (forall (output : list Z) (prev_mem : option (list Z)),
           Z.of_nat (length (_cache_mem output prev_mem (Some 5))) <= 5).
Proof.
  split; [reflexivity |].
  intros H. specialize (H [1; 2; 3; 4; 5; 6; 7] None). simpl in H. lia.
Qed.

(** ** Lists: indexing through the helpers *)

Section ListFacts.

Context {A B C : Type}.

Lemma nth_error_map2 (f : A -> B -> C) (l1 : list A) (l2 : list B) (i : nat) :
  nth_error (Py.map2 f l1 l2) i
  = match nth_error l1 i, nth_error l2 i with
    | Some x, Some y => Some (f x y)
    | _, _ => None
    end.
Proof.
  revert l2 i. induction l1 as [| a l1 IH]; intros [| b l2] [| i]; simpl;
    try reflexivity.
  - now destruct (nth_error l1 i).
  - apply IH.
Qed.

Lemma length_map2 (f : A -> B -> C) (l1 : list A) (l2 : list B) :
  length (Py.map2 f l1 l2) = Nat.min (length l1) (length l2).
Proof.
  revert l2. induction l1 as [| a l1 IH]; intros [| b l2]; simpl;
    try reflexivity.
  now rewrite IH.
Qed.

Lemma nth_error_imap_from (f : nat -> A -> B) (l : list A) (k i : nat) :
  nth_error (Py.imap_from k f l) i = option_map (f (k + i)%nat) (nth_error l i).
Proof.
  revert k i. induction l as [| a l IH]; intros k [| i]; simpl;
    try reflexivity.
  - now rewrite Nat.add_0_r.
  - rewrite IH. now rewrite Nat.add_succ_r.
Qed.

Lemma nth_error_imap (f : nat -> A -> B) (l : list A) (i : nat) :
  nth_error (Py.imap f l) i = option_map (f i) (nth_error l i).
Proof. apply nth_error_imap_from. Qed.

Lemma length_imap_from (f : nat -> A -> B) (l : list A) (k : nat) :
  length (Py.imap_from k f l) = length l.
Proof.
  revert k. induction l as [| a l IH]; intros k; simpl; [reflexivity |].
  now rewrite IH.
Qed.

End ListFacts.

(** ** The attention mask *)

Section MaskFacts.

Variables qlen mlen : nat.

Lemma at2_map2 (f : Z -> Z -> Z) (a b : list (list Z)) (i j : nat) :
  at2 (Py.map2 (Py.map2 f) a b) i j
  = match at2 a i j, at2 b i j with
    | Some x, Some y => Some (f x y)
    | _, _ => None
    end.
Proof.
  unfold at2. rewrite nth_error_map2.
  destruct (nth_error a i) as [ra |], (nth_error b i) as [rb |];
    try reflexivity.
  - apply nth_error_map2.
  - now destruct (nth_error ra j).
Qed.

Lemma at2_ones (r c i j : nat) :
  (i < r)%nat -> (j < c)%nat -> at2 (ones r c) i j = Some 1.
Proof.
  intros Hi Hj. unfold at2, ones.
  rewrite nth_error_repeat by assumption. now apply nth_error_repeat.
Qed.

Lemma at2_band (x : list (list Z)) (lo hi : Z) (i j : nat) :
  at2 (matrix_band_part x lo hi) i j
  = option_map (fun v => if in_band lo hi i j then v else 0) (at2 x i j).
Proof.
  unfold at2, matrix_band_part. rewrite nth_error_imap.
  destruct (nth_error x i) as [row |]; simpl; [| reflexivity].
  apply nth_error_imap.
Qed.

(** The strictly upper triangle [mask_u - mask_dia]. *)
Lemma at2_strict_upper (i n : nat) :
  (i < qlen)%nat -> (n < qlen)%nat ->
  at2 (msub (matrix_band_part (ones qlen qlen) 0 (-1))
            (matrix_band_part (ones qlen qlen) 0 0)) i n
  = Some (if (i <? n)%nat then 1 else 0).
Proof.
  intros Hi Hn. unfold msub. rewrite at2_map2, !at2_band.
  rewrite at2_ones by assumption. simpl. f_equal.
  unfold in_band.
  destruct (Nat.ltb_spec i n);
    destruct (Z.leb_spec (Z.of_nat i - Z.of_nat n) 0);
    destruct (Z.leb_spec (Z.of_nat n - Z.of_nat i) 0);
    simpl; lia.
Qed.

Lemma row_strict_upper (i : nat) :
  (i < qlen)%nat ->
  exists row,
    nth_error (msub (matrix_band_part (ones qlen qlen) 0 (-1))
                    (matrix_band_part (ones qlen qlen) 0 0)) i = Some row
    /\ length row = qlen.
Proof.
  intros Hi. unfold msub, matrix_band_part, ones.
  rewrite nth_error_map2, !nth_error_imap, nth_error_repeat by assumption.
  simpl. eexists; split; [reflexivity |].
  unfold Py.imap. rewrite length_map2, !length_imap_from, repeat_length. lia.
Qed.

(** Row [i] of the mask built without [same_length]. *)
Lemma row_plain (i : nat) :
  (i < qlen)%nat ->
  exists row,
    nth_error (_create_mask qlen mlen false) i = Some row
    /\ length row = (mlen + qlen)%nat
    /\ forall j, (j < mlen + qlen)%nat ->
                 nth_error row j = Some (if (mlen + i <? j)%nat then 1 else 0).
Proof.
  intros Hi. unfold _create_mask, concat1.
  destruct (row_strict_upper i Hi) as [ru [Hru Hlen]].
  rewrite nth_error_map2, Hru. unfold zeros.
  rewrite nth_error_repeat by assumption.
  eexists; split; [reflexivity |]. split.
  - rewrite length_app, repeat_length. lia.
  - intros j Hj. destruct (Nat.lt_ge_cases j mlen) as [Hlt | Hge].
    + rewrite nth_error_app1 by (rewrite repeat_length; lia).
      rewrite nth_error_repeat by assumption.
      destruct (Nat.ltb_spec (mlen + i) j); [lia | reflexivity].
    + rewrite nth_error_app2 by (rewrite repeat_length; lia).
      rewrite repeat_length.
      pose proof (at2_strict_upper i (j - mlen) Hi ltac:(lia)) as H.
      unfold at2 in H. rewrite Hru in H. rewrite H.
      destruct (Nat.ltb_spec i (j - mlen)), (Nat.ltb_spec (mlen + i) j);
        try reflexivity; lia.
Qed.

Lemma at2_plain (i j : nat) :
  (i < qlen)%nat -> (j < mlen + qlen)%nat ->
  at2 (_create_mask qlen mlen false) i j
  = Some (if (mlen + i <? j)%nat then 1 else 0).
Proof.
  intros Hi Hj. destruct (row_plain i Hi) as [row [Hrow [_ Hent]]].
  unfold at2. rewrite Hrow. now apply Hent.
Qed.

Lemma at2_same_length (i j : nat) :
  (i < qlen)%nat -> (j < mlen + qlen)%nat ->
  at2 (_create_mask qlen mlen true) i j
  = Some (if (mlen + i <? j)%nat || (j <? i)%nat then 1 else 0).
Proof.
  intros Hi Hj.
  destruct (row_plain i Hi) as [row [Hrow [Hlen Hent]]].
  change (_create_mask qlen mlen true) with
    (let ret := _create_mask qlen mlen false in
     concat1 (msub (madd (map (Py.slice_to qlen) ret)
                         (matrix_band_part (ones qlen qlen) (-1) 0))
                   (matrix_band_part (ones qlen qlen) 0 0))
             (map (Py.slice_from (Z.of_nat qlen)) ret)).
  cbv zeta. unfold at2 at 1. unfold concat1 at 1.
  rewrite nth_error_map2, nth_error_map, Hrow. cbn [option_map].
  set (lft := msub _ _).
  assert (Hl : forall n, (n < qlen)%nat ->
                         at2 lft i n
                         = Some (if (mlen + i <? n)%nat || (n <? i)%nat
                                 then 1 else 0)).
  { intros n Hn. unfold lft, msub, madd. rewrite !at2_map2, !at2_band.
    rewrite at2_ones by assumption.
    unfold at2 at 1. rewrite nth_error_map, Hrow. cbn [option_map].
    unfold Py.slice_to. rewrite nth_error_firstn.
    replace (n <? qlen)%nat with true by (symmetry; apply Nat.ltb_lt; lia).
    rewrite Hent by lia. cbn [option_map]. f_equal.
    unfold in_band.
    destruct (Nat.ltb_spec (mlen + i) n), (Nat.ltb_spec n i);
      destruct (Z.leb_spec (Z.of_nat i - Z.of_nat n) 0);
      destruct (Z.leb_spec (Z.of_nat n - Z.of_nat i) 0);
      simpl; lia. }
  assert (Hlrow : exists rl, nth_error lft i = Some rl /\ length rl = qlen).
  { unfold lft, msub, madd, matrix_band_part, ones.
    rewrite !nth_error_map2, !nth_error_imap, nth_error_map, Hrow,
      nth_error_repeat by assumption.
    cbn [option_map]. eexists; split; [reflexivity |].
    unfold Py.imap, Py.slice_to.
    rewrite !length_map2, !length_imap_from, repeat_length, length_firstn.
    lia. }
  destruct Hlrow as [rl [Hrl Hrllen]]. rewrite Hrl.
  destruct (Nat.lt_ge_cases j qlen) as [Hlt | Hge].
  - rewrite nth_error_app1 by lia.
    specialize (Hl j Hlt). unfold at2 in Hl. now rewrite Hrl in Hl.
  - rewrite nth_error_app2 by lia. rewrite Hrllen.
    unfold Py.slice_from.
    replace (Z.of_nat qlen <? 0) with false by (symmetry; apply Z.ltb_ge; lia).
    rewrite nth_error_skipn.
    replace (Z.to_nat (Z.min (Z.of_nat qlen) (Z.of_nat (length row)))
             + (j - qlen))%nat with j by lia.
    rewrite Hent by assumption.
    replace (j <? i)%nat with false by (symmetry; apply Nat.ltb_ge; lia).
    now rewrite orb_false_r.
Qed.

End MaskFacts.

(** C7: for [qlen >= 1] and every in-range entry [(i, j)], the mask built
    with [same_length=False] is 0 exactly when column [j] is a memory
    position ([j < mlen]) or a current-segment position no later than the
    query ([j - mlen <= i]), and 1 exactly when [j - mlen > i]; with
    [same_length=True] it is 1 also where [j < i] (the key lies more than
    [mlen] behind the query), so that 0 remains on the band
    [i <= j <= i + mlen] only; in particular every current-segment position
    more than the window behind the query is masked. *)
Theorem create_mask_causal (qlen mlen i j : nat)
        (Hq : (1 <= qlen)%nat) (Hi : (i < qlen)%nat)
        (Hj : (j < mlen + qlen)%nat) :
  (exists v, at2 (_create_mask qlen mlen false) i j = Some v
             /\ (v = 0 \/ v = 1)
             /\ (v = 0 <-> (j < mlen)%nat
                           \/ Z.of_nat j - Z.of_nat mlen <= Z.of_nat i)
             /\ (v = 1 <-> Z.of_nat j - Z.of_nat mlen > Z.of_nat i))
  /\ (exists w, at2 (_create_mask qlen mlen true) i j = Some w
                /\ (w = 0 \/ w = 1)
                /\ (w = 0 <-> (i <= j <= i + mlen)%nat)
                /\ (w = 1 <-> Z.of_nat j - Z.of_nat mlen > Z.of_nat i
                              \/ (j < i)%nat)
                /\ ((mlen <= j)%nat -> (j < i)%nat -> w = 1)).
Proof.
  split.
  - rewrite at2_plain by assumption. eexists; split; [reflexivity |].
    destruct (Nat.ltb_spec (mlen + i) j); repeat split; intros; try lia.
  - rewrite at2_same_length by assumption. eexists; split; [reflexivity |].
    destruct (Nat.ltb_spec (mlen + i) j), (Nat.ltb_spec j i); simpl;
      repeat split; intros; try lia.
Qed.

Lemma create_mask_causal_witness :
  exists v, at2 (_create_mask 3 2 false) 1 4 = Some v
            /\ (v = 0 \/ v = 1)
            /\ (v = 0 <-> (4 < 2)%nat \/ Z.of_nat 4 - Z.of_nat 2 <= Z.of_nat 1)
            /\ (v = 1 <-> Z.of_nat 4 - Z.of_nat 2 > Z.of_nat 1).
Proof.
  exact (proj1 (create_mask_causal 3 2 1 4 ltac:(lia) ltac:(lia) ltac:(lia))).
Defined.

(** ** Relative shift *)

Section RelShiftFacts.

Context {Blk : Type}.
Variable zero : Blk.

Lemma firstn_plus (c m : nat) (l : list Blk) :
  firstn (c + m) l = firstn c l ++ firstn m (skipn c l).
Proof.
  revert l. induction c as [| c IH]; intros [| a l]; simpl;
    try reflexivity.
  - now rewrite firstn_nil.
  - now rewrite IH.
Qed.

Lemma concat_chunk (r c : nat) (flat : list Blk) :
  concat (Py.chunk r c flat) = firstn (r * c) flat.
Proof.
  revert flat. induction r as [| r IH]; intros flat; simpl; [reflexivity |].
  now rewrite IH, firstn_plus.
Qed.

Lemma nth_error_chunk (r c : nat) (flat : list Blk) (i : nat) :
  (i < r)%nat ->
  nth_error (Py.chunk r c flat) i = Some (firstn c (skipn (i * c) flat)).
Proof.
  revert flat i. induction r as [| r IH]; intros flat [| i] Hi; simpl;
    try lia; [reflexivity |].
  rewrite IH by lia. rewrite skipn_skipn.
  now replace (i * c + c)%nat with (c + i * c)%nat by lia.
Qed.

Lemma at2_chunk (r c : nat) (flat : list Blk) (i j : nat) :
  (i < r)%nat -> (j < c)%nat ->
  at2 (Py.chunk r c flat) i j = nth_error flat (i * c + j).
Proof.
  intros Hi Hj. unfold at2. rewrite nth_error_chunk by assumption.
  rewrite nth_error_firstn, nth_error_skipn.
  now replace (j <? c)%nat with true by (symmetry; apply Nat.ltb_lt; lia).
Qed.

Lemma nth_error_concat_uniform (x : list (list Blk)) (c i j : nat) :
  Forall (fun row => length row = c) x -> (j < c)%nat ->
  nth_error (concat x) (i * c + j) = at2 x i j.
Proof.
  intros Hx Hj. revert i.
  induction Hx as [| row x Hrow Hx IH]; intros i.
  - unfold at2. simpl. now destruct i; destruct (_ + _)%nat.
  - simpl. destruct i as [| i].
    + unfold at2. simpl. apply nth_error_app1. lia.
    + rewrite nth_error_app2 by (simpl; lia).
      replace (S i * c + j - length row)%nat with (i * c + j)%nat
        by (simpl; lia).
      rewrite IH. reflexivity.
Qed.

Lemma tl_chunk (r c : nat) (flat : list Blk) :
  tl (Py.chunk (S r) c flat) = Py.chunk r c (skipn c flat).
Proof. reflexivity. Qed.

Lemma hd_shape (q k : nat) (x : list (list Blk)) :
  has_shape q k x -> (0 < q)%nat -> length (hd [] x) = k.
Proof.
  intros [Hq Hk] Hpos. destruct x as [| row x]; simpl in *; [lia |].
  now inversion Hk.
Qed.

(** Entry [(i, j)] of the shifted tensor is the entry of the padded tensor
    found [qlen + i * klen + j] blocks into its row-major order. *)
Lemma rel_shift_entry (q k : nat) (x : list (list Blk)) (i j : nat) :
  has_shape q k x -> (i < q)%nat -> (j < k)%nat ->
  at2 (rel_shift zero x) i j
  = at2 (pad_front zero x)
        (i + (q - i + j) / (k + 1)) ((q - i + j) mod (k + 1)).
Proof.
  intros Hx Hi Hj. pose proof (hd_shape q k x Hx ltac:(lia)) as Hhd.
  destruct Hx as [Hq Hk].
  unfold rel_shift, reshape2, drop_first_row. rewrite Hq, Hhd.
  replace (k + 1)%nat with (S k) by lia.
  rewrite tl_chunk, concat_chunk, at2_chunk by assumption.
  rewrite nth_error_firstn, nth_error_skipn.
  replace (i * k + j <? k * q)%nat with true
    by (symmetry; apply Nat.ltb_lt; nia).
  pose proof (Nat.div_mod_eq (q - i + j) (S k)) as Hdm.
  pose proof (Nat.mod_upper_bound (q - i + j) (S k) ltac:(lia)) as Hm.
  replace (q + (i * k + j))%nat
    with ((i + (q - i + j) / S k) * S k + (q - i + j) mod S k)%nat.
  2:{ rewrite Nat.mul_add_distr_r.
      rewrite (Nat.mul_comm ((q - i + j) / S k) (S k)).
      rewrite <- Nat.add_assoc, <- Hdm. lia. }
  apply nth_error_concat_uniform; [| assumption].
  unfold pad_front. apply Forall_map.
  eapply Forall_impl; [| exact Hk]. intros row Hrow. simpl in *. now rewrite Hrow.
Qed.

Lemma at2_pad_front (x : list (list Blk)) (r c : nat) :
  (r < length x)%nat ->
  at2 (pad_front zero x) r c
  = match c with
    | O => Some zero
    | S c' => at2 x r c'
    end.
Proof.
  intros Hr. unfold at2, pad_front. rewrite nth_error_map.
  destruct (nth_error x r) as [row |] eqn:E.
  - now destruct c.
  - apply nth_error_None in E. lia.
Qed.

Lemma rel_shift_row_in_range (q k i j : nat) :
  (i < q)%nat -> (j < k)%nat ->
  (i + (q - i + j) / (k + 1) < q)%nat.
Proof.
  intros Hi Hj.
  pose proof (Nat.div_mod_eq (q - i + j) (k + 1)) as Hdm.
  pose proof (Nat.mod_upper_bound (q - i + j) (k + 1) ltac:(lia)) as Hm.
  nia.
Qed.

(** In the region a query may attend to, the shift reads row [i] of the
    input at column [qlen - 1 - i + j]. *)
Lemma rel_shift_causal_entry (q k : nat) (x : list (list Blk)) (i j : nat) :
  has_shape q k x -> (i < q)%nat -> (j < k)%nat -> (q + j <= k + i)%nat ->
  at2 (rel_shift zero x) i j = at2 x i (q - 1 - i + j).
Proof.
  intros Hx Hi Hj Hc. rewrite (rel_shift_entry q k) by assumption.
  rewrite Nat.div_small, Nat.mod_small by lia.
  rewrite Nat.add_0_r, at2_pad_front by (destruct Hx; lia).
  replace (q - i + j)%nat with (S (q - 1 - i + j)) by lia. reflexivity.
Qed.

(** When the input depends on its column only, the shifted entry depends
    on [j - i] only. *)
Lemma rel_shift_column_only (q k : nat) (x : list (list Blk))
      (f : nat -> Blk) (i j : nat) :
  has_shape q k x ->
  (forall r c, (r < q)%nat -> (c < k)%nat -> at2 x r c = Some (f c)) ->
  (i < q)%nat -> (j < k)%nat ->
  at2 (rel_shift zero x) i j
  = Some (match Z.to_nat ((Z.of_nat q + (Z.of_nat j - Z.of_nat i))
                            mod (Z.of_nat k + 1)) with
          | O => zero
          | S c => f c
          end).
Proof.
  intros Hx Hf Hi Hj. rewrite (rel_shift_entry q k) by assumption.
  pose proof (rel_shift_row_in_range q k i j Hi Hj) as Hr.
  pose proof (Nat.mod_upper_bound (q - i + j) (k + 1) ltac:(lia)) as Hm.
  rewrite at2_pad_front by (destruct Hx; lia).
  replace (Z.of_nat q + (Z.of_nat j - Z.of_nat i))
    with (Z.of_nat (q - i + j)) by lia.
  replace (Z.of_nat k + 1) with (Z.of_nat (k + 1)) by lia.
  rewrite <- Nat2Z.inj_mod, Nat2Z.id.
  destruct ((q - i + j) mod (k + 1))%nat as [| c]; [reflexivity |].
  apply Hf; lia.
Qed.

End RelShiftFacts.

(** C3, as the code has it: for a position-term tensor of shape
    [[qlen, klen]], (a) at every [(i, j)] a query may attend to
    ([j <= i + klen - qlen]) the shifted term is the input's row [i] at
    column [qlen - 1 - i + j], the column of the embedding of relative
    distance [(klen - qlen) + i - j], so the embedding selected depends on
    [i - j] only; and (b) when the input's entries depend on the column
    only (as for the table built from [range(klen-1, -1, -1)] itself), any
    two index pairs with equal [i - j] have equal shifted terms. *)
Theorem rel_shift_realigns {Blk : Type} (zero : Blk) (q k : nat)
        (x : list (list Blk)) (Hx : has_shape q k x) :
  (forall i j, (i < q)%nat -> (j < k)%nat -> (q + j <= k + i)%nat ->
               at2 (rel_shift zero x) i j = at2 x i (q - 1 - i + j))
  /\ (forall f : nat -> Blk,
         (forall r c, (r < q)%nat -> (c < k)%nat -> at2 x r c = Some (f c)) ->
         forall i1 j1 i2 j2,
           (i1 < q)%nat -> (j1 < k)%nat -> (i2 < q)%nat -> (j2 < k)%nat ->
           Z.of_nat i1 - Z.of_nat j1 = Z.of_nat i2 - Z.of_nat j2 ->
           at2 (rel_shift zero x) i1 j1 = at2 (rel_shift zero x) i2 j2).
Proof.
  split.
  - intros i j Hi Hj Hc. now apply rel_shift_causal_entry with (k := k).
  - intros f Hf i1 j1 i2 j2 Hi1 Hj1 Hi2 Hj2 Hd.
    rewrite !(rel_shift_column_only zero q k x f) by assumption.
    replace (Z.of_nat j1 - Z.of_nat i1) with (Z.of_nat j2 - Z.of_nat i2) by lia.
    reflexivity.
Qed.

(** The table of positions of a segment with [qlen = 2], [klen = 3]. *)
Lemma rel_shift_realigns_witness :
  has_shape 2 3 [[2; 1; 0]; [2; 1; 0]]
  /\ at2 (rel_shift 0 [[2; 1; 0]; [2; 1; 0]]) 0%nat 1%nat
     = at2 (rel_shift 0 [[2; 1; 0]; [2; 1; 0]]) 1%nat 2%nat.
Proof.
  assert (Hs : has_shape 2 3 [[2; 1; 0]; [2; 1; 0]])
    by (split; [reflexivity | repeat constructor]).
  split; [exact Hs |].
  refine (proj2 (rel_shift_realigns 0 2 3 [[2; 1; 0]; [2; 1; 0]] Hs)
                (fun c => 2 - Z.of_nat c) _ 0%nat 1%nat 1%nat 2%nat
                ltac:(lia) ltac:(lia) ltac:(lia) ltac:(lia) ltac:(lia)).
  intros [| [| r]] [| [| [| c]]] Hr Hc; try lia; reflexivity.
Defined.

(** C3 fails for a position term that depends on the query: with
    [rr_head_q = [[1]; [2]]] and [r_head_k = [[1]; [2]]], the shifted terms
    at [(0, 0)] and [(1, 1)] differ although [0 - 0 = 1 - 1]. *)
Lemma rel_shift_depends_on_query :
  position_term [[1]; [2]] [[1]; [2]] = [[1; 2]; [2; 4]]
  /\ rel_shift 0 (position_term [[1]; [2]] [[1]; [2]]) = [[2; 0]; [2; 4]]
  /\ at2 (rel_shift 0 (position_term [[1]; [2]] [[1]; [2]])) 0%nat 0%nat
     <> at2 (rel_shift 0 (position_term [[1]; [2]] [[1]; [2]])) 1%nat 1%nat.
Proof.
  split; [reflexivity |]. split; [reflexivity |]. discriminate.
Qed.

(** ** Head labels *)

Section SetNthFacts.

Context {A : Type}.

Lemma length_set_nth (i : nat) (v : A) (l : list A) :
  length (Py.set_nth i v l) = length l.
Proof.
  revert i. induction l as [| a l IH]; intros [| i]; simpl; try reflexivity.
  now rewrite IH.
Qed.

Lemma nth_set_nth_same (i : nat) (v d : A) (l : list A) :
  (i < length l)%nat -> nth i (Py.set_nth i v l) d = v.
Proof.
  revert i. induction l as [| a l IH]; intros [| i] Hi; simpl in *;
    try lia; [reflexivity |].
  apply IH. lia.
Qed.

Lemma set_nth_out_of_range (i : nat) (v : A) (l : list A) :
  (length l <= i)%nat -> Py.set_nth i v l = l.
Proof.
  revert i. induction l as [| a l IH]; intros [| i] Hi; simpl in *;
    try reflexivity; try lia.
  f_equal. apply IH. lia.
Qed.

Lemma set_nth_app_last (h : list A) (x v : A) :
  Py.set_nth (length h) v (h ++ [x]) = h ++ [v].
Proof. induction h as [| a h IH]; simpl; [reflexivity | now rewrite IH]. Qed.

Lemma set_nth_app_mid (pre : list A) (a v : A) (l : list A) :
  Py.set_nth (length pre) v (pre ++ a :: l) = pre ++ v :: l.
Proof. induction pre as [| p pre IH]; simpl; [reflexivity | now rewrite IH]. Qed.

End SetNthFacts.

Section HeadLabelFacts.

Lemma np_put_where_from (mask : list bool) (v : Z) :
  forall (pre l : list Z),
    length mask = length l ->
    np_put (pre ++ l) (Py.where_from (length pre) mask) v
    = pre ++ Py.map2 (fun (m : bool) a => if m then v else a) mask l.
Proof.
  unfold np_put.
  induction mask as [| m mask IH]; intros pre [| a l] Hlen; simpl in *;
    try discriminate; [reflexivity |].
  injection Hlen as Hlen.
  destruct m; simpl.
  - rewrite set_nth_app_mid.
    replace (pre ++ v :: l) with ((pre ++ [v]) ++ l)
      by (now rewrite <- app_assoc).
    replace (S (length pre)) with (length (pre ++ [v]))
      by (rewrite length_app; simpl; lia).
    rewrite IH by assumption. now rewrite <- app_assoc.
  - replace (pre ++ a :: l) with ((pre ++ [a]) ++ l)
      by (now rewrite <- app_assoc).
    replace (S (length pre)) with (length (pre ++ [a]))
      by (rewrite length_app; simpl; lia).
    rewrite IH by assumption. now rewrite <- app_assoc.
Qed.

Lemma np_put_where (mask : list bool) (v : Z) (l : list Z) :
  length mask = length l ->
  np_put l (Py.np_where mask) v
  = Py.map2 (fun (m : bool) a => if m then v else a) mask l.
Proof. intros H. exact (np_put_where_from mask v [] l H). Qed.

Lemma map2_relabel_step (g : Z -> Z -> Z) (inb : Z -> bool) (v : Z)
      (labels hl : list Z) :
  Py.map2 g labels
          (Py.map2 (fun (m : bool) a => if m then v else a) (map inb labels) hl)
  = Py.map2 (fun x cur => g x (if inb x then v else cur)) labels hl.
Proof.
  revert hl. induction labels as [| x labels IH]; intros [| a hl]; simpl;
    try reflexivity.
  now rewrite IH.
Qed.

(** The loop acts on every position separately. *)
Lemma head_labels_from_pointwise (buckets : list (Z * Z)) (c1 : Z)
      (labels : list Z) :
  forall b hl,
    length hl = length labels ->
    head_labels_from b buckets c1 labels hl
    = Py.map2 (relabel_from b buckets c1) labels hl.
Proof.
  induction buckets as [| lr buckets IH]; intros b hl Hlen; simpl.
  - clear -Hlen. revert hl Hlen.
    induction labels as [| x labels IHl]; intros [| a hl] Hlen; simpl in *;
      try discriminate; [reflexivity |].
    f_equal. apply IHl. lia.
  - rewrite np_put_where by (rewrite length_map; lia).
    rewrite IH by (rewrite length_map2, length_map; lia).
    apply map2_relabel_step.
Qed.

Lemma make_head_labels_nth (cutoffs labels : list Z) (p : nat) (x : Z) :
  nth_error labels p = Some x ->
  nth_error (make_head_labels cutoffs labels) p
  = Some (relabel_from 0 (tail_buckets cutoffs) (nth 1 cutoffs 0) x x).
Proof.
  intros Hx. unfold make_head_labels.
  rewrite head_labels_from_pointwise by reflexivity.
  now rewrite nth_error_map2, Hx.
Qed.

(** Labels in no bucket keep their entry. *)
Lemma relabel_outside (buckets : list (Z * Z)) (c1 x : Z) :
  (forall lr, In lr buckets -> in_bucket (fst lr) (snd lr) x = false) ->
  forall b cur, relabel_from b buckets c1 x cur = cur.
Proof.
  induction buckets as [| lr buckets IH]; intros Hout b cur; simpl;
    [reflexivity |].
  rewrite (Hout lr) by now left.
  apply IH. intros lr' Hin. apply Hout. now right.
Qed.

(** The buckets of [cutoffs] are its adjacent pairs from index 1 on. *)
Lemma combine_removelast (a : Z) (r : list Z) :
  combine (removelast (a :: r)) r
  = match r with
    | [] => []
    | b :: r' => (a, b) :: combine (removelast (b :: r')) r'
    end.
Proof. destruct r as [| b r']; reflexivity. Qed.

Lemma sorted_tail (a : Z) (l : list Z) :
  is_sorted (a :: l) = true -> is_sorted l = true.
Proof.
  destruct l as [| b l]; [reflexivity |]. simpl.
  intros H. apply andb_prop in H. exact (proj2 H).
Qed.

Lemma sorted_head_le (a b : Z) (l : list Z) :
  is_sorted (a :: b :: l) = true -> a <= b.
Proof.
  simpl. intros H. apply andb_prop in H. destruct H as [H _]. lia.
Qed.

(** Below the first boundary of a sorted list no adjacent bucket matches. *)
Lemma below_first_outside (r : list Z) :
  forall a x,
    is_sorted (a :: r) = true -> x < a ->
    forall lr, In lr (combine (removelast (a :: r)) r) ->
               in_bucket (fst lr) (snd lr) x = false.
Proof.
  induction r as [| b r IH]; intros a x Hs Hx lr Hin.
  - destruct Hin.
  - rewrite combine_removelast in Hin. destruct Hin as [<- | Hin].
    + simpl. unfold in_bucket.
      destruct (Z.leb_spec a x); [lia | reflexivity].
    + apply (IH b x); try assumption.
      * eapply sorted_tail; eassumption.
      * pose proof (sorted_head_le a b r Hs). lia.
Qed.

(** A label in bucket [j] of a sorted list gets the cluster id of [j]. *)
Lemma relabel_in_bucket (r : list Z) :
  forall a x c1 j lr b cur,
    is_sorted (a :: r) = true ->
    nth_error (combine (removelast (a :: r)) r) j = Some lr ->
    in_bucket (fst lr) (snd lr) x = true ->
    relabel_from b (combine (removelast (a :: r)) r) c1 x cur
    = c1 + Z.of_nat (b + j).
Proof.
  induction r as [| b' r IH]; intros a x c1 j lr b cur Hs Hj Hin.
  - destruct j; discriminate.
  - rewrite combine_removelast in *. destruct j as [| j]; simpl in Hj.
    + injection Hj as <-. simpl in Hin. simpl. rewrite Hin.
      rewrite relabel_outside; [f_equal; lia |].
      apply below_first_outside; [eapply sorted_tail; eassumption |].
      unfold in_bucket in Hin. apply andb_prop in Hin. lia.
    + simpl. rewrite (IH b' x c1 j lr); try assumption;
        [f_equal; lia | eapply sorted_tail; eassumption].
Qed.

Lemma tail_buckets_cons2 (c0 c1 : Z) (rest : list Z) :
  tail_buckets (c0 :: c1 :: rest) = combine (removelast (c1 :: rest)) rest.
Proof. reflexivity. Qed.

Lemma tail_buckets_short (cutoffs : list Z) :
  (length cutoffs < 2)%nat -> tail_buckets cutoffs = [].
Proof.
  destruct cutoffs as [| c0 [| c1 rest]]; simpl; try reflexivity; lia.
Qed.

End HeadLabelFacts.

Section HeapFacts.

Lemma np_read_old (h : heap) (x : list Z) (a : ndarray) :
  (buf a < length h)%nat -> np_read (h ++ [x]) a = np_read h a.
Proof. intros Ha. unfold np_read. now rewrite app_nth1. Qed.

Lemma np_read_new (h : heap) (v : list Z) :
  np_read (h ++ [v]) (mkArr (length h) 0 (length v)) = v.
Proof.
  unfold np_read. simpl. rewrite app_nth2, Nat.sub_diag by lia. simpl.
  apply firstn_all.
Qed.

Lemma np_setitem_new (h : heap) (v : list Z) (p : nat) (x : Z) :
  np_setitem (h ++ [v]) (mkArr (length h) 0 (length v)) p x
  = h ++ [Py.set_nth p x v].
Proof.
  unfold np_setitem. simpl.
  rewrite app_nth2, Nat.sub_diag by lia. simpl.
  destruct (Nat.ltb_spec p (length v)).
  - apply set_nth_app_last.
  - now rewrite set_nth_out_of_range by assumption.
Qed.

Lemma np_put_view_new (h : heap) (pos : list nat) (x : Z) :
  forall v,
    np_put_view (h ++ [v]) (mkArr (length h) 0 (length v)) pos x
    = h ++ [np_put v pos x].
Proof.
  unfold np_put_view, np_put.
  induction pos as [| p pos IH]; intros v; simpl; [reflexivity |].
  rewrite np_setitem_new.
  specialize (IH (Py.set_nth p x v)). rewrite length_set_nth in IH. exact IH.
Qed.

Lemma length_np_put (v : list Z) (pos : list nat) (x : Z) :
  length (np_put v pos x) = length v.
Proof.
  unfold np_put. revert v.
  induction pos as [| p pos IH]; intros v; simpl; [reflexivity |].
  now rewrite IH, length_set_nth.
Qed.

Lemma head_labels_loop_new (buckets : list (Z * Z)) (c1 : Z) (labels : ndarray)
      (h : heap) :
  (buf labels < length h)%nat ->
  forall b v,
    head_labels_loop b buckets c1 labels (mkArr (length h) 0 (length v))
                     (h ++ [v])
    = h ++ [head_labels_from b buckets c1 (np_read h labels) v].
Proof.
  intros Hl. induction buckets as [| lr buckets IH]; intros b v; simpl;
    [reflexivity |].
  rewrite np_read_old by assumption.
  rewrite np_put_view_new.
  specialize (IH (S b)
                 (np_put v (Py.np_where (map (in_bucket (fst lr) (snd lr))
                                             (np_read h labels)))
                         (c1 + Z.of_nat b))).
  rewrite length_np_put in IH. exact IH.
Qed.

(** On the heap, building [head_labels] appends one buffer and leaves all
    others as they were. *)
Lemma make_head_labels_heap_eq (cutoffs : list Z) (labels : ndarray) (h : heap) :
  (buf labels < length h)%nat ->
  make_head_labels_heap cutoffs labels h
  = (h ++ [make_head_labels cutoffs (np_read h labels)],
     mkArr (length h) 0 (length (np_read h labels))).
Proof.
  intros Hl. unfold make_head_labels_heap, np_copy. cbn [fst snd].
  now rewrite head_labels_loop_new by assumption.
Qed.

Lemma length_head_labels_from (buckets : list (Z * Z)) (c1 : Z)
      (labels : list Z) :
  forall b hl, length (head_labels_from b buckets c1 labels hl) = length hl.
Proof.
  induction buckets as [| lr buckets IH]; intros b hl; simpl; [reflexivity |].
  now rewrite IH, length_np_put.
Qed.

Lemma length_make_head_labels (cutoffs labels : list Z) :
  length (make_head_labels cutoffs labels) = length labels.
Proof. apply length_head_labels_from. Qed.

End HeapFacts.

(** C10: [head_labels] is a function of the labels alone; where the label
    lies in the head bucket [[cutoffs[0], cutoffs[1])] it is the label;
    where the label lies in tail bucket [b] it is [cutoffs[1] + b]; a label
    in no tail bucket is never rewritten; and building it leaves what
    [inputs] and [labels] read, and every buffer that existed before,
    unchanged.  The cutoffs are in non-decreasing order. *)
Theorem head_labels_frame (cutoffs : list Z) (h : heap)
        (bd ncols idx t cur : nat)
        (Hbd : (bd < length h)%nat) (Hsorted : is_sorted cutoffs = true) :
  let inputs := row_view bd ncols idx t (t + cur) in
  let labels := row_view bd ncols idx (t + 1) (t + cur + 1) in
  let r := make_head_labels_heap cutoffs labels h in
  let hl := np_read (fst r) (snd r) in
  hl = make_head_labels cutoffs (np_read h labels)
  /\ np_read (fst r) inputs = np_read h inputs
  /\ np_read (fst r) labels = np_read h labels
  /\ (forall a, (buf a < length h)%nat -> np_read (fst r) a = np_read h a)
  /\ (forall p x,
         nth_error (np_read h labels) p = Some x ->
         (in_bucket (nth 0 cutoffs 0) (nth 1 cutoffs 0) x = true ->
          nth_error hl p = Some x)
         /\ (forall b lr,
                nth_error (tail_buckets cutoffs) b = Some lr ->
                in_bucket (fst lr) (snd lr) x = true ->
                nth_error hl p = Some (nth 1 cutoffs 0 + Z.of_nat b))
         /\ ((forall lr, In lr (tail_buckets cutoffs) ->
                         in_bucket (fst lr) (snd lr) x = false) ->
             nth_error hl p = Some x)).
Proof.
  intros inputs labels r hl.
  assert (Hl : (buf labels < length h)%nat) by exact Hbd.
  assert (Hr : r = (h ++ [make_head_labels cutoffs (np_read h labels)],
                    mkArr (length h) 0 (length (np_read h labels))))
    by (apply make_head_labels_heap_eq; exact Hl).
  assert (Hhl : hl = make_head_labels cutoffs (np_read h labels)).
  { unfold hl. rewrite Hr. cbn [fst snd].
    pose proof (np_read_new h (make_head_labels cutoffs (np_read h labels)))
      as Hn.
    rewrite length_make_head_labels in Hn. exact Hn. }
  assert (Hold : forall a, (buf a < length h)%nat ->
                           np_read (fst r) a = np_read h a).
  { intros a Ha. rewrite Hr. cbn [fst]. now apply np_read_old. }
  split; [exact Hhl |].
  split; [apply Hold; exact Hbd |].
  split; [apply Hold; exact Hbd |].
  split; [exact Hold |].
  intros p x Hx. rewrite Hhl, (make_head_labels_nth cutoffs _ p x Hx).
  split; [| split].
  - intros Hhead. f_equal.
    destruct cutoffs as [| c0 [| c1 rest]];
      try (now rewrite tail_buckets_short by (simpl; lia)).
    rewrite tail_buckets_cons2. apply relabel_outside.
    apply below_first_outside; [eapply sorted_tail; eassumption |].
    simpl in Hhead. unfold in_bucket in Hhead.
    apply andb_prop in Hhead. lia.
  - intros b lr Hb Hin. f_equal.
    destruct cutoffs as [| c0 [| c1 rest]];
      try (rewrite tail_buckets_short in Hb by (simpl; lia);
           destruct b; discriminate).
    rewrite tail_buckets_cons2 in *.
    rewrite (relabel_in_bucket rest c1 x _ b lr); try assumption;
      [reflexivity | eapply sorted_tail; eassumption].
  - intros Hout. f_equal. now apply relabel_outside.
Qed.

(** One row [3, 12, 7, 40] of [batched_data] with window length 3:
    labels [12, 7, 40] under cutoffs [0, 10, 20, 50]. *)
Lemma head_labels_frame_witness :
  let h := [[3; 12; 7; 40]] in
  let r := make_head_labels_heap [0; 10; 20; 50] (row_view 0 4 0 1 4) h in
  np_read (fst r) (snd r) = [10; 7; 11]
  /\ np_read (fst r) (row_view 0 4 0 0 3) = [3; 12; 7].
Proof.
  pose proof (head_labels_frame [0; 10; 20; 50] [[3; 12; 7; 40]]
                                0 4 0 0 3 ltac:(simpl; lia) eq_refl) as H.
  cbv zeta in H. destruct H as [H1 [H2 _]].
  split; [exact H1 | exact H2].
Defined.

(** ** Slot assignment *)

Section SlotFacts.

Lemma set_nth_nth_same (b : nat) (l : list Z) :
  Py.set_nth b (nth b l 0) l = l.
Proof.
  revert b. induction l as [| a l IH]; intros [| b]; simpl; try reflexivity.
  now rewrite IH.
Qed.

Lemma set_nth_twice (b : nat) (u v : Z) (l : list Z) :
  Py.set_nth b v (Py.set_nth b u l) = Py.set_nth b v l.
Proof.
  revert b. induction l as [| a l IH]; intros [| b]; simpl; try reflexivity.
  now rewrite IH.
Qed.

Lemma map_seq_shift (c : Z) (n : nat) :
  map (fun s => c + 1 + Z.of_nat s) (seq 0 n)
  = map (fun s => c + Z.of_nat s) (seq 1 n).
Proof.
  rewrite <- seq_shift, map_map. apply map_ext. intros s. lia.
Qed.

(** The inner loop computes the specification's assignment and advances
    the counter of its bucket by the number of tuples. *)
Lemma fill_bin_assigned (bin_sizes : list Z) (b : nat) (pos : list nat) :
  forall cnts,
    (b < length cnts)%nat ->
    fill_bin b pos bin_sizes cnts
    = (assigned_slots pos (nth b cnts 0) (nth b bin_sizes 0),
       Py.set_nth b
                  (nth b cnts 0
                   + Z.of_nat (length (assigned_slots pos (nth b cnts 0)
                                                      (nth b bin_sizes 0))))
                  cnts).
Proof.
  induction pos as [| p rest IH]; intros cnts Hb.
  - simpl. unfold assigned_slots. simpl.
    now rewrite Z.add_0_r, set_nth_nth_same.
  - cbn [fill_bin]. set (c := nth b cnts 0). set (bs := nth b bin_sizes 0).
    destruct (Z.ltb_spec c bs) as [Hlt | Hge].
    + rewrite IH by (rewrite length_set_nth; exact Hb).
      rewrite nth_set_nth_same by exact Hb. fold bs.
      rewrite set_nth_twice. cbn [fst snd].
      assert (Hslots : assigned_slots (p :: rest) c bs
                       = (Z.of_nat p, c) :: assigned_slots rest (c + 1) bs).
      { unfold assigned_slots. cbn [length].
        replace (Z.to_nat (bs - c)) with (S (Z.to_nat (bs - (c + 1)))) by lia.
        rewrite <- Nat.succ_min_distr. cbn [firstn map seq combine].
        rewrite map_seq_shift. f_equal. f_equal. lia. }
      rewrite Hslots. cbn [length]. f_equal. f_equal. lia.
    + unfold assigned_slots.
      replace (Z.to_nat (bs - c)) with 0%nat by lia.
      rewrite Nat.min_0_r. simpl.
      rewrite Z.add_0_r. unfold c. now rewrite set_nth_nth_same.
Qed.

Lemma length_assigned_slots (pos : list nat) (cnt bs : Z) :
  length (assigned_slots pos cnt bs)
  = Nat.min (length pos) (Z.to_nat (bs - cnt)).
Proof.
  unfold assigned_slots.
  rewrite length_combine, !length_map, length_seq, length_firstn. lia.
Qed.

Lemma assigned_slots_range (pos : list nat) (cnt bs : Z) (ps : Z * Z) :
  In ps (assigned_slots pos cnt bs) -> cnt <= snd ps < bs.
Proof.
  unfold assigned_slots. intros Hin. destruct ps as [p s0].
  apply in_combine_r in Hin. cbn [snd].
  apply in_map_iff in Hin. destruct Hin as [s [<- Hs]].
  apply in_seq in Hs. lia.
Qed.

Lemma Forall2_nth_Z (P : Z -> Z -> Prop) (l1 l2 : list Z) (b : nat) :
  Forall2 P l1 l2 -> (b < length l2)%nat -> P (nth b l1 0) (nth b l2 0).
Proof.
  intros H. revert b. induction H as [| x y l1 l2 Hxy H IH]; intros [| b] Hb;
    simpl in *; try lia; [assumption |].
  apply IH. lia.
Qed.

Lemma Forall2_set_nth (P : Z -> Z -> Prop) (l1 l2 : list Z) (b : nat) (v : Z) :
  Forall2 P l1 l2 -> P v (nth b l2 0) -> Forall2 P (Py.set_nth b v l1) l2.
Proof.
  intros H. revert b. induction H as [| x y l1 l2 Hxy H IH]; intros [| b] Hv;
    simpl in *; constructor; try assumption.
  now apply IH.
Qed.

Variables cutoffs bin_sizes : list Z.

Lemma add_perm_from_ok (ppb : list (list nat)) :
  forall b cnts,
    counters_valid bin_sizes cnts ->
    (b + length ppb <= length bin_sizes)%nat ->
    counters_valid bin_sizes (snd (add_perm_from b ppb bin_sizes cnts))
    /\ length (fst (add_perm_from b ppb bin_sizes cnts)) = length ppb
    /\ forall j f,
        nth_error (fst (add_perm_from b ppb bin_sizes cnts)) j = Some f ->
        exists cnt,
          feature_from (nth j ppb []) cnt (nth (b + j) bin_sizes 0) f.
Proof.
  induction ppb as [| pos ppb IH]; intros b cnts Hv Hlen.
  - simpl. repeat split; try assumption. intros [| j] f H; discriminate.
  - cbn [add_perm_from length] in *.
    assert (Hb : (b < length cnts)%nat)
      by (rewrite (Forall2_length Hv); lia).
    rewrite fill_bin_assigned by exact Hb. cbn [fst snd].
    set (c := nth b cnts 0). set (bs := nth b bin_sizes 0).
    assert (Hc : 0 <= c <= bs)
      by (apply (Forall2_nth_Z _ _ _ b Hv); lia).
    pose proof (length_assigned_slots pos c bs) as Hn.
    set (n := length (assigned_slots pos c bs)) in *.
    assert (Hv' : counters_valid bin_sizes
                                 (Py.set_nth b (c + Z.of_nat n) cnts)).
    { apply Forall2_set_nth; [exact Hv |]. fold bs. lia. }
    destruct (IH (S b) _ Hv' ltac:(lia)) as [Hv'' [Hl Hf]].
    split; [exact Hv'' |]. split; [cbn [length]; now rewrite Hl |].
    intros [| j] f Hj.
    + injection Hj as <-. exists c. rewrite Nat.add_0_r. fold bs.
      unfold feature_from. cbn [tup n_tup nth]. fold n.
      repeat split; try lia; try reflexivity.
      * eapply assigned_slots_range; eassumption.
      * eapply assigned_slots_range; eassumption.
    + cbn [nth_error] in Hj. destruct (Hf j f Hj) as [cnt Hcnt].
      exists cnt. cbn [nth]. now replace (b + S j)%nat with (S b + j)%nat by lia.
Qed.

Lemma length_tail_buckets :
  length (tail_buckets cutoffs) = (length cutoffs - 2)%nat.
Proof.
  unfold tail_buckets. rewrite length_combine, removelast_firstn_len.
  rewrite length_firstn, !length_skipn. lia.
Qed.

Lemma add_perm_feature_ok (tokens cnts : list Z) :
  counters_valid bin_sizes cnts ->
  Z.of_nat (length cutoffs) - Z.of_nat (length bin_sizes) = 2 ->
  counters_valid bin_sizes
    (snd (_add_perm_feature (pos_per_bin cutoffs tokens) bin_sizes cnts))
  /\ perms_ok cutoffs bin_sizes tokens
       (fst (_add_perm_feature (pos_per_bin cutoffs tokens) bin_sizes cnts)).
Proof.
  intros Hv Hlen. unfold _add_perm_feature.
  assert (Hppb : length (pos_per_bin cutoffs tokens) = length bin_sizes).
  { unfold pos_per_bin. rewrite length_map, length_tail_buckets. lia. }
  destruct (add_perm_from_ok (pos_per_bin cutoffs tokens) 0 cnts Hv
                             ltac:(lia)) as [Hv' [Hl Hf]].
  split; [exact Hv' |]. split; [lia |].
  intros b f Hb. cbv zeta. destruct (Hf b f Hb) as [cnt Hcnt].
  exists cnt. exact Hcnt.
Qed.

End SlotFacts.

(** ** Runs of [create_ordered_tfrecords] *)

Lemma for_each_seq_raise (n : nat) (body : nat -> M unit) (s : St) (e : error) :
  n <> 0%nat -> body 0%nat s = (inl e, s) ->
  for_each (seq 0 n) body s = (inl e, s).
Proof.
  intros Hn Hb. destruct n as [| n]; [contradiction |].
  cbn [seq for_each]. unfold bind. now rewrite Hb.
Qed.

Section RunFacts.

Variables (batch_size tgt_len num_core_per_host : nat).
Variables (cutoffs bin_sizes : list Z).
Variable use_tpu : bool.

Let gate : bool := (0 <? length cutoffs)%nat && use_tpu.
Let features := add_tpu_features batch_size num_core_per_host cutoffs bin_sizes.
Let encode :=
  encode_example batch_size num_core_per_host cutoffs bin_sizes use_tpu.
Let batches :=
  batches_loop batch_size tgt_len num_core_per_host cutoffs bin_sizes use_tpu.


Lemma add_tpu_features_mismatch (idx : nat) (inputs labels : list Z) (s : St) :
  Z.of_nat (length cutoffs) - Z.of_nat (length bin_sizes) <> 2 ->
  features idx inputs labels s = (inl AssertionError, s).
Proof.
  intros Hne. unfold features, add_tpu_features, bind, py_assert.
  destruct (Z.eqb_spec (Z.of_nat (length cutoffs) - Z.of_nat (length bin_sizes)) 2);
    [contradiction | reflexivity].
Qed.





(** With the permutation features switched on and mismatched lengths, the
    very first example raises and nothing has been written. *)
Lemma encode_example_mismatch (bd : list (list Z)) (t cur idx : nat) (s : St) :
  gate = true ->
  Z.of_nat (length cutoffs) - Z.of_nat (length bin_sizes) <> 2 ->
  encode bd t cur idx s = (inl AssertionError, s).
Proof.
  intros Hgate Hne. unfold encode, encode_example, bind.
  fold gate. rewrite Hgate. fold features.
  now rewrite add_tpu_features_mismatch.
Qed.

Lemma batches_loop_mismatch (bd : list (list Z)) (ncols : nat) :
  gate = true ->
  Z.of_nat (length cutoffs) - Z.of_nat (length bin_sizes) <> 2 ->
  batch_size <> 0%nat ->
  forall ts s,
    batches bd ncols ts 0%nat s
    = match ts with
      | [] => (inr 0%nat, s)
      | t :: _ =>
          if (Nat.min (ncols - 1 - t) tgt_len <? tgt_len)%nat
          then (inr 0%nat, s)
          else (inl AssertionError, s)
      end.
Proof.
  intros Hgate Hne Hbs [| t ts] s; cbn [batches batches_loop]; [reflexivity |].
  assert (Htpu : use_tpu = true).
  { unfold gate in Hgate. apply andb_prop in Hgate. tauto. }
  assert (Hc : forall c, use_tpu && c = c) by (now rewrite Htpu).
  rewrite Hc.
  destruct (Nat.min (ncols - 1 - t) tgt_len <? tgt_len)%nat; [reflexivity |].
  unfold bind, Py.range.
  rewrite (for_each_seq_raise batch_size _ s AssertionError Hbs);
    [reflexivity |].
  now apply encode_example_mismatch.
Qed.

End RunFacts.

Lemma batchify_nonzero (batch_size : nat) (data : list Z) (num_passes : nat)
      (starts : list nat) (bd : list (list Z)) :
  batchify batch_size data num_passes starts = inr bd -> batch_size <> 0%nat.
Proof.
  unfold batchify. intros H Hz. subst batch_size.
  destruct (1 <? num_passes)%nat; [destruct (length data =? 0)%nat |];
    simpl in H; discriminate.
Qed.

Lemma range_step_first (stop step : nat) :
  (0 < step <= stop)%nat ->
  exists ts, Py.range_step stop step = 0%nat :: ts.
Proof.
  intros H. unfold Py.range_step.
  assert (Hq : (1 <= (stop + step - 1) / step)%nat)
    by (apply Nat.div_le_lower_bound; lia).
  destruct ((stop + step - 1) / step)%nat as [| q]; [lia |].
  simpl. eexists. reflexivity.
Qed.

Lemma range_step_head (stop step : nat) :
  match Py.range_step stop step with
  | [] => True
  | t :: _ => t = 0%nat
  end.
Proof.
  unfold Py.range_step. now destruct ((stop + step - 1) / step)%nat.
Qed.



(** C8, as the code has it: with [use_tpu] set and non-empty [cutoffs], a
    run with [len(cutoffs) - len(bin_sizes) != 2] writes no record and
    completes no batch; the assertion fails at the first example (whatever
    the state), so that a run whose data holds one full window raises
    [AssertionError]. *)
Theorem length_mismatch_writes_nothing
        (batch_size tgt_len num_core_per_host : nat)
        (cutoffs bin_sizes : list Z)
        (data : list Z) (num_passes : nat) (starts : list nat)
        (Hcut : cutoffs <> [])
        (Hne : Z.of_nat (length cutoffs) - Z.of_nat (length bin_sizes) <> 2) :
  let r := create_ordered_tfrecords batch_size tgt_len num_core_per_host
                                    cutoffs bin_sizes true data num_passes
                                    starts initial_state in
  written (snd r) = []
  /\ (forall n, fst r = inr n -> n = 0%nat)
  /\ (forall bd,
         batchify batch_size data num_passes starts = inr bd ->
         (0 < tgt_len <= length (hd [] bd) - 1)%nat ->
         fst r = inl AssertionError)
  /\ (forall bd t cur idx s,
         encode_example batch_size num_core_per_host cutoffs bin_sizes true
                        bd t cur idx s
         = (inl AssertionError, s)).
Proof.
  assert (Hgate : (0 <? length cutoffs)%nat && true = true).
  { destruct cutoffs; [contradiction | reflexivity]. }
  cbv zeta. unfold create_ordered_tfrecords.
  destruct (batchify batch_size data num_passes starts) as [e | bd] eqn:Hb.
  - cbn. repeat split; try discriminate.
    intros; now apply encode_example_mismatch.
  - pose proof (batchify_nonzero _ _ _ _ _ Hb) as Hnz.
    destruct (Nat.eqb_spec tgt_len 0) as [Hz | Hz].
    + cbn. repeat split; try discriminate; try lia.
      intros; now apply encode_example_mismatch.
    + rewrite (batches_loop_mismatch batch_size tgt_len num_core_per_host
                                     cutoffs bin_sizes true bd _ Hgate Hne Hnz).
      pose proof (range_step_head (length (hd [] bd) - 1) tgt_len) as Hhead.
      split; [| split; [| split]].
      * destruct (Py.range_step _ _) as [| t ts]; [reflexivity |].
        now destruct (Nat.min _ _ <? _)%nat.
      * intros n Hn. destruct (Py.range_step _ _) as [| t ts];
          [now injection Hn |].
        destruct (Nat.min _ _ <? _)%nat; [now injection Hn | discriminate].
      * intros bd' Hbd' Hwin. injection Hbd' as <-.
        destruct (range_step_first _ _ Hwin) as [ts Hts]. rewrite Hts.
        replace (Nat.min (length (hd [] bd) - 1 - 0) tgt_len <? tgt_len)%nat
          with false by (symmetry; apply Nat.ltb_ge; lia).
        reflexivity.
      * intros; now apply encode_example_mismatch.
Qed.

Lemma length_mismatch_writes_nothing_witness :
  let r := create_ordered_tfrecords 1 2 1 [0; 10; 50] [] true [1; 2; 3] 1 []
                                    initial_state in
  written (snd r) = [] /\ fst r = inl AssertionError.
Proof.
  pose proof (length_mismatch_writes_nothing
                1 2 1 [0; 10; 50] [] [1; 2; 3] 1 []
                ltac:(discriminate) ltac:(simpl; lia)) as H.
  cbv zeta in H. destruct H as [Hw [_ [Hf _]]].
  split; [exact Hw |].
  exact (Hf [[1; 2; 3]] eq_refl ltac:(simpl; lia)).
Defined.

(** C8 fails outside the guarded block: without [use_tpu] the same
    mismatched lengths go unchecked and the record is written, and so do
    the default arguments [cutoffs=[]], [bin_sizes=[]] under [use_tpu]. *)
Lemma length_mismatch_unchecked :
  Z.of_nat (length [0; 10; 50]) - Z.of_nat (length (@nil Z)) <> 2
  /\ create_ordered_tfrecords 1 2 1 [0; 10; 50] [] false [1; 2; 3] 1 []
                              initial_state
     = (inr 1%nat, mkSt [mkExample [1; 2] [2; 3] None] [] [])
  /\ Z.of_nat (length (@nil Z)) - Z.of_nat (length (@nil Z)) <> 2
  /\ create_ordered_tfrecords 1 2 1 [] [] true [1; 2; 3] 1 [] initial_state
     = (inr 1%nat, mkSt [mkExample [1; 2] [2; 3] None] [] []).
Proof.
  split; [simpl; lia |]. split; [reflexivity |].
  split; [simpl; lia | reflexivity].
Qed.

(** The run of the C4 witness, evaluated: one record; eight tuples on the
    label side, positions 8 and 9 in none; the input side likewise. *)
Example capacity_run :
  written (snd (create_ordered_tfrecords 1 10 1 [0; 10; 50] [8] true
                                         (repeat 20 11) 1 [] initial_state))
  = [mkExample (repeat 20 10) (repeat 20 10)
       (Some (mkPermFeatures
                (repeat 0 10) (repeat 0 10) (repeat 10 10)
                [mkPerm 8 [0; 0; 1; 1; 2; 2; 3; 3; 4; 4; 5; 5; 6; 6; 7; 7]]
                [mkPerm 8 [0; 0; 1; 1; 2; 2; 3; 3; 4; 4; 5; 5; 6; 6; 7; 7]]))].
Proof. reflexivity. Qed.

(** ** Sums over lists and over tokens *)

Section SumFacts.

Local Open Scope R_scope.

Lemma rsum_app (a b : list R) : rsum (a ++ b) = rsum a + rsum b.
Proof.
  induction a as [| x a IH]; simpl; [lra |]. rewrite IH. lra.
Qed.

Lemma rsum_concat (x : T2 R) : rsum (map rsum x) = rsum (concat x).
Proof.
  induction x as [| r x IH]; simpl; [reflexivity |].
  now rewrite rsum_app, IH.
Qed.

Lemma rsum_ext (f g : nat -> R) (l : list nat) :
  (forall n, In n l -> f n = g n) -> rsum (map f l) = rsum (map g l).
Proof.
  induction l as [| a l IH]; intros H; simpl; [reflexivity |].
  rewrite (H a) by now left. rewrite IH; [reflexivity |].
  intros n Hn. apply H. now right.
Qed.

Lemma tsum_ext (N : nat) (f g : nat -> R) :
  (forall n, (n < N)%nat -> f n = g n) -> tsum N f = tsum N g.
Proof.
  intros H. apply rsum_ext. intros n Hn. apply in_seq in Hn. apply H. lia.
Qed.

Lemma rsum_zero (l : list nat) : rsum (map (fun _ => 0) l) = 0.
Proof. induction l as [| a l IH]; simpl; [reflexivity | rewrite IH; lra]. Qed.

Lemma rsum_plus (f g : nat -> R) (l : list nat) :
  rsum (map (fun n => f n + g n) l) = rsum (map f l) + rsum (map g l).
Proof.
  induction l as [| a l IH]; simpl; [lra | rewrite IH; lra].
Qed.

Lemma rsum_scal (c : R) (f : nat -> R) (l : list nat) :
  rsum (map (fun n => c * f n) l) = c * rsum (map f l).
Proof.
  induction l as [| a l IH]; simpl; [lra | rewrite IH; lra].
Qed.

(** Exchanging two finite sums. *)
Lemma rsum_swap (F : nat -> nat -> R) (ks ns : list nat) :
  rsum (map (fun k => rsum (map (fun n => F n k) ns)) ks)
  = rsum (map (fun n => rsum (map (fun k => F n k) ks)) ns).
Proof.
  induction ks as [| k ks IH]; simpl.
  - now rewrite rsum_zero.
  - rewrite IH. now rewrite <- rsum_plus.
Qed.

Lemma tsum_shift (N : nat) (f : nat -> R) :
  tsum (S N) f = f 0%nat + tsum N (fun n => f (S n)).
Proof.
  unfold tsum. simpl. now rewrite <- seq_shift, map_map.
Qed.

End SumFacts.

Section IndexFacts.

Context {A B C : Type}.

(** A list is the table of its entries. *)
Lemma map_nth_seq (l : list A) (d : A) :
  l = map (fun n => nth n l d) (seq 0 (length l)).
Proof.
  induction l as [| a l IH]; simpl; [reflexivity |].
  f_equal. rewrite <- seq_shift, map_map. exact IH.
Qed.

Lemma map2_tab (f : A -> B -> C) (a : nat -> A) (b : nat -> B) (s : list nat) :
  Py.map2 f (map a s) (map b s) = map (fun n => f (a n) (b n)) s.
Proof. induction s as [| x s IH]; simpl; [reflexivity | now rewrite IH]. Qed.

Lemma map2_app (f : A -> B -> C) (a1 a2 : list A) (b1 b2 : list B) :
  length a1 = length b1 ->
  Py.map2 f (a1 ++ a2) (b1 ++ b2) = Py.map2 f a1 b1 ++ Py.map2 f a2 b2.
Proof.
  revert b1. induction a1 as [| x a1 IH]; intros [| y b1] H; simpl in *;
    try discriminate; [reflexivity |].
  f_equal. apply IH. lia.
Qed.

Lemma concat_map2 (f : A -> B -> C) (a : T2 A) (b : T2 B) :
  shape a = shape b ->
  concat (Py.map2 (Py.map2 f) a b) = Py.map2 f (concat a) (concat b).
Proof.
  unfold shape. revert b.
  induction a as [| r a IH]; intros [| q b] H; simpl in *; try discriminate;
    [reflexivity |].
  injection H as Hr Hs. rewrite IH by assumption.
  now rewrite map2_app.
Qed.

Lemma shape_map2 (f : A -> B -> C) (a : T2 A) (b : T2 B) :
  shape a = shape b -> shape (Py.map2 (Py.map2 f) a b) = shape a.
Proof.
  unfold shape. revert b.
  induction a as [| r a IH]; intros [| q b] H; simpl in *; try discriminate;
    [reflexivity |].
  injection H as Hr Hs. rewrite IH by assumption.
  rewrite length_map2. f_equal. lia.
Qed.

Lemma shape_map (f : A -> B) (a : T2 A) : shape (map (map f) a) = shape a.
Proof.
  unfold shape. rewrite map_map. apply map_ext. intros r. apply length_map.
Qed.

Lemma concat_map_map (f : A -> B) (a : T2 A) :
  concat (map (map f) a) = map f (concat a).
Proof. symmetry. apply concat_map. Qed.

Lemma shape_length_concat (a : T2 A) (b : T2 B) :
  shape a = shape b -> length (concat a) = length (concat b).
Proof.
  unfold shape. intros H. rewrite !length_concat. now rewrite H.
Qed.

End IndexFacts.

Lemma nat_list_eqb_eq (a b : list nat) : nat_list_eqb a b = true -> a = b.
Proof.
  revert b. induction a as [| x a IH]; intros [| y b] H; simpl in *;
    try discriminate; [reflexivity |].
  apply andb_prop in H. destruct H as [Hxy H].
  apply Nat.eqb_eq in Hxy. subst. f_equal. now apply IH.
Qed.

(** ** Permutation mode: slots and tokens *)

Section SlotSumFacts.

Local Open Scope R_scope.

Lemma rsum_map2_nested {A B} (g : A -> B -> R) (x : T2 A) (p : T2 B) :
  shape x = shape p ->
  rsum (Py.map2 (fun xr pr => rsum (Py.map2 g xr pr)) x p)
  = rsum (Py.map2 g (concat x) (concat p)).
Proof.
  unfold shape. revert p.
  induction x as [| xr x IH]; intros [| pr p] H; simpl in *;
    try discriminate; [reflexivity |].
  injection H as Hr Hs. rewrite IH by assumption.
  now rewrite map2_app, rsum_app.
Qed.

Lemma rsum_map_nested {A} (f : A -> R) (p : T2 A) :
  rsum (map (fun pr => rsum (map f pr)) p) = rsum (map f (concat p)).
Proof.
  induction p as [| pr p IH]; simpl; [reflexivity |].
  now rewrite map_app, rsum_app, IH.
Qed.

Lemma rsum_map2_tsum {A B} (g : A -> B -> R) (X : list A) (P : list B)
      (dx : A) (dp : B) (N : nat) :
  length X = N -> length P = N ->
  rsum (Py.map2 g X P) = tsum N (fun n => g (nth n X dx) (nth n P dp)).
Proof.
  intros HX HP. unfold tsum.
  rewrite (map_nth_seq X dx) at 1. rewrite (map_nth_seq P dp) at 1.
  rewrite HX, HP. now rewrite map2_tab.
Qed.

Lemma rsum_map_tsum {A} (f : A -> R) (X : list A) (dx : A) (N : nat) :
  length X = N -> rsum (map f X) = tsum N (fun n => f (nth n X dx)).
Proof.
  intros HX. unfold tsum. rewrite (map_nth_seq X dx) at 1.
  now rewrite HX, map_map.
Qed.

Lemma to_int32_IZR (z : Z) : to_int32 (IZR z) = z.
Proof.
  unfold to_int32. destruct (Rle_dec 0 (IZR z)) as [H | H].
  - symmetry. apply Int_part_spec. lra.
  - rewrite <- opp_IZR.
    assert (Hi : (- z)%Z = Int_part (IZR (- z))) by (apply Int_part_spec; lra).
    lia.
Qed.

(** Up to [2^24] the passage through [float32] keeps an integer. *)
Lemma float32_of_Z_exact (z : Z) :
  (0 <= z <= 2 ^ 24)%Z -> float32_of_Z z = z.
Proof.
  intros Hz. unfold float32_of_Z.
  destruct (Z.ltb_spec (Z.abs z) (2 ^ 24)) as [H | H]; [reflexivity |].
  assert (E : z = (2 ^ 24)%Z) by lia. subst z. reflexivity.
Qed.

Lemma to_int32_to_float32 (z : Z) :
  (0 <= z <= 2 ^ 24)%Z -> to_int32 (to_float32 z) = z.
Proof.
  intros Hz. unfold to_float32. rewrite to_int32_IZR.
  now apply float32_of_Z_exact.
Qed.

Lemma zero_slot_sum (bs : list bool) :
  count_true bs = 0%nat ->
  forall f, tsum (length bs) (fun n => f n * to_float (nth n bs false)) = 0.
Proof.
  induction bs as [| b bs IH]; intros Hc f; [reflexivity |].
  cbn [length]. rewrite tsum_shift. cbn [nth].
  destruct b; [discriminate |].
  rewrite (IH Hc (fun n => f (S n))). simpl. lra.
Qed.

(** A slot held by at most one token reads that token, or nothing. *)
Lemma one_slot_sum (bs : list bool) :
  (count_true bs <= 1)%nat ->
  (forall f, tsum (length bs) (fun n => f n * to_float (nth n bs false)) = 0)
  \/ (exists n0, (n0 < length bs)%nat
                 /\ forall f, tsum (length bs)
                                   (fun n => f n * to_float (nth n bs false))
                              = f n0).
Proof.
  induction bs as [| b bs IH]; intros Hc; [left; reflexivity |].
  destruct b.
  - right. exists 0%nat. split; [simpl; lia |]. intros f.
    cbn [length]. rewrite tsum_shift. cbn [nth].
    rewrite (zero_slot_sum bs) by (unfold count_true in *; simpl in Hc; lia).
    simpl. lra.
  - destruct (IH Hc) as [Hz | [n0 [Hn0 Hs]]].
    + left. intros f. cbn [length]. rewrite tsum_shift. cbn [nth].
      rewrite (Hz (fun n => f (S n))). simpl. lra.
    + right. exists (S n0). split; [simpl; lia |]. intros f.
      cbn [length]. rewrite tsum_shift. cbn [nth].
      rewrite (Hs (fun n => f (S n))). simpl. lra.
Qed.

Lemma map_nth_all (v : list R) (D : nat) :
  length v = D -> map (fun d => nth d v 0) (seq 0 D) = v.
Proof. intros <-. symmetry. apply map_nth_seq. Qed.

(** What one slot of a tail bucket adds to the loss: the cross-entropy of
    the token it holds, or nothing. *)
Lemma slot_term (bs : list bool) (hn : nat -> R) (hid : nat -> list R)
      (yz : nat -> Z) (T : list R -> Z -> R) (D : nat) :
  (count_true bs <= 1)%nat ->
  (forall n, (n < length bs)%nat -> length (hid n) = D) ->
  (tsum (length bs) (fun n => hn n * to_float (nth n bs false))
   + T (map (fun d => tsum (length bs)
                           (fun n => nth d (hid n) 0
                                     * to_float (nth n bs false)))
            (seq 0 D))
       (to_int32 (tsum (length bs)
                       (fun n => IZR (yz n) * to_float (nth n bs false)))))
  * tsum (length bs) (fun n => to_float (nth n bs false))
  = tsum (length bs)
         (fun n => to_float (nth n bs false) * (hn n + T (hid n) (yz n))).
Proof.
  intros Hc Hd.
  assert (Hw : tsum (length bs) (fun n => to_float (nth n bs false))
               = tsum (length bs) (fun n => 1 * to_float (nth n bs false)))
    by (apply tsum_ext; intros; lra).
  assert (Hg : tsum (length bs)
                    (fun n => to_float (nth n bs false)
                              * (hn n + T (hid n) (yz n)))
               = tsum (length bs)
                      (fun n => (hn n + T (hid n) (yz n))
                                * to_float (nth n bs false)))
    by (apply tsum_ext; intros; lra).
  rewrite Hw, Hg.
  destruct (one_slot_sum bs Hc) as [Hz | [n0 [Hn0 Hs]]].
  - rewrite (Hz (fun _ => 1)), (Hz (fun n => hn n + T (hid n) (yz n))). lra.
  - rewrite (Hs (fun _ => 1)), (Hs (fun n => hn n + T (hid n) (yz n))),
      (Hs hn), (Hs (fun n => IZR (yz n))).
    rewrite to_int32_IZR.
    replace (map _ (seq 0 D)) with (hid n0);
      [lra |].
    rewrite <- (map_nth_all (hid n0) D) at 1 by (apply Hd; exact Hn0).
    apply map_ext. intros d. symmetry. apply (Hs (fun n => nth d (hid n) 0)).
Qed.

(** The slots a token holds, counted. *)
Lemma count_true_sum (v : list bool) :
  tsum (length v) (fun k => to_float (nth k v false)) = INR (count_true v).
Proof.
  induction v as [| b v IH]; [reflexivity |].
  cbn [length]. rewrite tsum_shift. cbn [nth]. rewrite IH.
  unfold count_true. destruct b; simpl filter; cbn [length].
  - rewrite S_INR. simpl. lra.
  - simpl. lra.
Qed.

Lemma count_true_list_sum (L : list (list bool)) :
  tsum (length L) (fun n => INR (count_true (nth n L [])))
  = INR (list_sum (map count_true L)).
Proof.
  induction L as [| v L IH]; [reflexivity |].
  cbn [length]. rewrite tsum_shift. cbn [nth]. rewrite IH.
  change (list_sum (map count_true (v :: L)))
    with (count_true v + list_sum (map count_true L))%nat.
  now rewrite plus_INR.
Qed.

End SlotSumFacts.

Section EinsumFacts.

Local Open Scope R_scope.

Lemma nth_map_lt {A B} (f : A -> B) (l : list A) (n : nat) (dA : A) (dB : B) :
  (n < length l)%nat -> nth n (map f l) dB = f (nth n l dA).
Proof.
  intros Hn. rewrite (nth_indep _ dB (f dA)) by (rewrite length_map; exact Hn).
  apply map_nth.
Qed.

Lemma dim3_to_float (r : T2 (list bool)) :
  dim3 (map (map (map to_float)) r) = dim3 r.
Proof.
  unfold dim3. destruct r as [| [| v row] r]; simpl; try reflexivity.
  apply length_map.
Qed.

(** Entry [k] of token [n]'s indicator vector, as a float. *)
Lemma nth_to_float (r : T2 (list bool)) (n k : nat) :
  nth k (nth n (concat (map (map (map to_float)) r)) []) 0
  = to_float (nth k (nth n (concat r) []) false).
Proof.
  rewrite concat_map_map.
  change (@nil R) with (map to_float []). rewrite map_nth.
  change 0 with (to_float false). apply map_nth.
Qed.

Lemma nth_column (B : list (list bool)) (k n : nat) :
  nth n (map (fun v => nth k v false) B) false = nth k (nth n B []) false.
Proof.
  replace false with (nth k (@nil bool) false) at 1 by (now destruct k).
  apply (map_nth (fun v => nth k v false)).
Qed.

Lemma einsum_ib_ibk_tokens (x : T2 R) (r : T2 (list bool)) (N : nat) :
  shape x = shape r -> length (concat x) = N ->
  einsum_ib_ibk x (map (map (map to_float)) r)
  = map (fun k =>
           tsum N (fun n => nth n (concat x) 0
                            * to_float (nth k (nth n (concat r) []) false)))
        (seq 0 (dim3 r)).
Proof.
  intros Hs HN. unfold einsum_ib_ibk. rewrite dim3_to_float.
  apply map_ext. intros k.
  rewrite rsum_map2_nested by (now rewrite shape_map).
  rewrite (rsum_map2_tsum _ _ _ 0 [] N);
    [| exact HN
     | rewrite <- HN; symmetry; apply shape_length_concat;
       now rewrite shape_map].
  apply tsum_ext. intros n _. now rewrite nth_to_float.
Qed.

Lemma einsum_ibd_ibk_tokens (h : T2 (list R)) (r : T2 (list bool)) (N : nat) :
  shape h = shape r -> length (concat h) = N ->
  einsum_ibd_ibk h (map (map (map to_float)) r)
  = map (fun k =>
           map (fun d =>
                  tsum N (fun n => nth d (nth n (concat h) []) 0
                                   * to_float (nth k (nth n (concat r) []) false)))
               (seq 0 (dim3 h)))
        (seq 0 (dim3 r)).
Proof.
  intros Hs HN. unfold einsum_ibd_ibk. rewrite dim3_to_float.
  apply map_ext. intros k. apply map_ext. intros d.
  rewrite rsum_map2_nested by (now rewrite shape_map).
  rewrite (rsum_map2_tsum _ _ _ [] [] N);
    [| exact HN
     | rewrite <- HN; symmetry; apply shape_length_concat;
       now rewrite shape_map].
  apply tsum_ext. intros n _. now rewrite nth_to_float.
Qed.

Lemma reduce_sum_01_tokens (r : T2 (list bool)) (N : nat) :
  length (concat r) = N ->
  reduce_sum_01 (map (map (map to_float)) r)
  = map (fun k =>
           tsum N (fun n => to_float (nth k (nth n (concat r) []) false)))
        (seq 0 (dim3 r)).
Proof.
  intros HN. unfold reduce_sum_01. rewrite dim3_to_float.
  apply map_ext. intros k. rewrite rsum_map_nested.
  rewrite (rsum_map_tsum _ _ [] N)
    by (rewrite concat_map_map, length_map; exact HN).
  apply tsum_ext. intros n _. now rewrite nth_to_float.
Qed.

End EinsumFacts.

(** ** Masked mode: boolean masks and scatter *)

Section MaskingFacts.

Local Open Scope R_scope.

Lemma map2_nil_r {A B C} (f : A -> B -> C) (l : list A) : Py.map2 f l [] = [].
Proof. now destruct l. Qed.

Lemma keep_map {A B} (f : A -> B) (m : list bool) (x : list A) :
  keep m (map f x) = map f (keep m x).
Proof.
  revert x. induction m as [| b m IH]; intros [| a x]; simpl;
    try reflexivity.
  destruct b; simpl; now rewrite IH.
Qed.

Lemma keep_map2 {A B C} (f : A -> B -> C) (m : list bool)
      (a : list A) (b : list B) :
  keep m (Py.map2 f a b) = Py.map2 f (keep m a) (keep m b).
Proof.
  revert a b. induction m as [| c m IH]; intros [| x a] [| y b]; simpl;
    try reflexivity.
  - now rewrite map2_nil_r.
  - destruct c; simpl; now rewrite IH.
Qed.

(** Scattering what the mask kept puts every kept value back in place. *)
Lemma scatter_keep (m : list bool) (V : list R) :
  length m = length V ->
  scatter_flat m (map Ropp (keep m V))
  = Py.map2 (fun (b : bool) v => if b then - v else 0) m V.
Proof.
  revert V. induction m as [| b m IH]; intros [| v V] H; simpl in *;
    try discriminate; [reflexivity |].
  injection H as H. destruct b; simpl; now rewrite IH.
Qed.

Lemma length_scatter_flat (m : list bool) (vals : list R) :
  length (scatter_flat m vals) = length m.
Proof.
  revert vals. induction m as [| b m IH]; intros vals; simpl;
    [reflexivity |].
  destruct b; simpl; now rewrite IH.
Qed.

Lemma concat_unflatten (rl : list nat) (flat : list R) :
  length flat = list_sum rl -> concat (unflatten rl flat) = flat.
Proof.
  revert flat. induction rl as [| n rl IH]; intros flat H; simpl in *.
  - now destruct flat.
  - rewrite IH by (rewrite length_skipn; lia). apply firstn_skipn.
Qed.

Lemma shape_unflatten (rl : list nat) (flat : list R) :
  length flat = list_sum rl -> shape (unflatten rl flat) = rl.
Proof.
  unfold shape. revert flat.
  induction rl as [| n rl IH]; intros flat H; simpl in *; [reflexivity |].
  rewrite IH by (rewrite length_skipn; lia).
  rewrite length_firstn. f_equal. lia.
Qed.

Lemma concat_scatter (mask : T2 bool) (vals : list R) :
  concat (scatter_nd_where mask vals) = scatter_flat (concat mask) vals.
Proof.
  unfold scatter_nd_where. apply concat_unflatten.
  now rewrite length_scatter_flat, length_concat.
Qed.

Lemma shape_scatter (mask : T2 bool) (vals : list R) :
  shape (scatter_nd_where mask vals) = shape mask.
Proof.
  unfold scatter_nd_where. apply shape_unflatten.
  now rewrite length_scatter_flat, length_concat.
Qed.


End MaskingFacts.

(** ** The buckets partition the vocabulary *)

Section BucketFacts.

Local Open Scope R_scope.




End BucketFacts.

(** ** The two losses over the tokens *)

Section LossFacts.

Local Open Scope R_scope.

Variables (n_token d_embed d_proj div_val : Z).
Variable cutoffs : list Z.
Variable params : Params.
Variable tie_projs : list bool.
Variable proj_same_dim : bool.
Variable vars : VarScope.

Local Notation "'hl0'" :=
  (head_logit_vec n_token d_embed d_proj div_val cutoffs params tie_projs
                  proj_same_dim vars).
Local Notation "'tlv'" :=
  (tail_logit_vec n_token d_embed d_proj div_val cutoffs params tie_projs
                  proj_same_dim vars).
Local Notation "'tokh'" :=
  (tok_head_nll n_token d_embed d_proj div_val cutoffs params tie_projs
                proj_same_dim vars).
Local Notation "'tokt'" :=
  (tok_tail_nll n_token d_embed d_proj div_val cutoffs params tie_projs
                proj_same_dim vars).
Local Notation "'HN'" :=
  (head_nll n_token d_embed d_proj div_val cutoffs params tie_projs
            proj_same_dim vars).
Local Notation "'ends'" := (cutoff_ends n_token cutoffs).
Local Notation "'xent'" := sparse_softmax_cross_entropy_with_logits.

Lemma concat_head_nll (hidden : T2 (list R)) (head_target : T2 Z) (N : nat) :
  shape hidden = shape head_target -> length (concat head_target) = N ->
  concat (HN hidden head_target) = map (tokh hidden head_target) (seq 0 N).
Proof.
  intros Hs HN'. unfold head_nll, head_logit.
  rewrite concat_map2 by (now rewrite shape_map).
  rewrite concat_map_map.
  rewrite (map_nth_seq (concat head_target) 0%Z) at 1.
  rewrite (map_nth_seq (concat hidden) []) at 1.
  rewrite (shape_length_concat _ _ Hs), HN', map_map, map2_tab.
  reflexivity.
Qed.

Lemma shape_head_nll (hidden : T2 (list R)) (head_target : T2 Z) :
  shape hidden = shape head_target ->
  shape (HN hidden head_target) = shape head_target.
Proof.
  intros Hs. unfold head_nll, head_logit.
  apply shape_map2. now rewrite shape_map.
Qed.

Lemma route_wfb_shape (target : T2 Z) (r : T2 (list bool)) :
  route_wfb target r = true -> shape r = shape target.
Proof.
  unfold route_wfb. intros H. apply andb_prop in H. destruct H as [H _].
  apply andb_prop in H. destruct H as [H _]. now apply nat_list_eqb_eq.
Qed.

Lemma route_wfb_width (target : T2 Z) (r : T2 (list bool)) (n : nat) :
  route_wfb target r = true -> (n < length (concat r))%nat ->
  length (nth n (concat r) []) = dim3 r.
Proof.
  unfold route_wfb. intros H Hn. apply andb_prop in H. destruct H as [H _].
  apply andb_prop in H. destruct H as [_ H].
  rewrite forallb_forall in H. apply Nat.eqb_eq. apply H.
  now apply nth_In.
Qed.

Lemma route_wfb_slot (target : T2 Z) (r : T2 (list bool)) (k : nat) :
  route_wfb target r = true -> (k < dim3 r)%nat ->
  (count_true (map (fun v => nth k v false) (concat r)) <= 1)%nat.
Proof.
  unfold route_wfb. intros H Hk. apply andb_prop in H. destruct H as [_ H].
  rewrite forallb_forall in H. apply Nat.leb_le. apply H.
  apply in_seq. lia.
Qed.

(** What tail bucket [i] adds to [total_loss] and [total_cnt]: every token
    counts once per slot it holds. *)
Lemma mul_tail_term_tokens (hidden : T2 (list R)) (target head_target : T2 Z)
      (i : nat) (r : T2 (list bool)) :
  shape hidden = shape target ->
  shape head_target = shape target ->
  forallb (fun v => (length v =? dim3 hidden)%nat) (concat hidden) = true ->
  route_wfb target r = true ->
  mul_tail_term n_token d_embed d_proj div_val cutoffs params tie_projs
                proj_same_dim vars hidden target head_target i
                (map (map (map to_float)) r)
  = (tsum (length (concat target))
          (fun n => INR (count_true (nth n (concat r) []))
                    * (tokh hidden head_target n + tokt hidden target i n)),
     tsum (length (concat target))
          (fun n => INR (count_true (nth n (concat r) [])))).
Proof.
  intros Hsh Hsht Hdim Hwf.
  pose proof (route_wfb_shape _ _ Hwf) as Hsr.
  set (N := length (concat target)).
  assert (HNr : length (concat r) = N)
    by (now apply shape_length_concat).
  assert (HNh : length (concat hidden) = N)
    by (now apply shape_length_concat).
  assert (HNt : length (concat head_target) = N)
    by (now apply shape_length_concat).
  unfold mul_tail_term.
  rewrite (einsum_ib_ibk_tokens _ r N);
    [| rewrite shape_head_nll; congruence
     | rewrite (concat_head_nll _ _ N), length_map, length_seq;
       [reflexivity | congruence | exact HNt]].
  rewrite (einsum_ib_ibk_tokens _ r N);
    [| rewrite shape_map; congruence
     | rewrite concat_map_map, length_map; reflexivity].
  rewrite (einsum_ibd_ibk_tokens _ r N); [| congruence | exact HNh].
  rewrite (reduce_sum_01_tokens r N) by exact HNr.
  rewrite !map_map, !map2_tab.
  (* slot by slot *)
  set (B := concat r).
  assert (Hslots :
            forall k, In k (seq 0 (dim3 r)) ->
                      (tsum N (fun n => nth n (concat (HN hidden head_target)) 0
                                        * to_float (nth k (nth n B []) false))
                       + xent
                           (to_int32
                              (tsum N
                                    (fun n =>
                                       nth n (concat
                                                (map (map (fun y => to_float32 (y - nth i ends 0%Z)))
                                                     target)) 0
                                       * to_float (nth k (nth n B []) false))))
                           (tlv i
                                (map (fun d =>
                                        tsum N
                                             (fun n =>
                                                nth d (nth n (concat hidden) []) 0
                                                * to_float (nth k (nth n B []) false)))
                                     (seq 0 (dim3 hidden)))))
                      * tsum N (fun n => to_float (nth k (nth n B []) false))
                      = tsum N (fun n => to_float (nth k (nth n B []) false)
                                         * (tokh hidden head_target n
                                            + tokt hidden target i n))).
  { intros k Hk. apply in_seq in Hk.
    pose proof (route_wfb_slot _ _ k Hwf ltac:(lia)) as Hc.
    fold B in Hc.
    set (bs := map (fun v => nth k v false) B) in *.
    assert (Hlen : length bs = N) by (unfold bs; now rewrite length_map).
    assert (Hcol : forall n, nth k (nth n B []) false = nth n bs false)
      by (intros n; unfold bs; now rewrite nth_column).
    pose proof (slot_term bs
                          (tokh hidden head_target)
                          (fun n => nth n (concat hidden) [])
                          (fun n => float32_of_Z
                                      (nth n (concat target) 0 - nth i ends 0)%Z)
                          (fun v y => xent y (tlv i v))
                          (dim3 hidden) Hc) as Hst.
    rewrite Hlen in Hst.
    assert (Hd : forall n, (n < N)%nat ->
                           length (nth n (concat hidden) []) = dim3 hidden).
    { intros n Hn. rewrite forallb_forall in Hdim. apply Nat.eqb_eq.
      apply Hdim. apply nth_In. lia. }
    specialize (Hst Hd).
    etransitivity; [| etransitivity; [exact Hst |]].
    - f_equal; [f_equal; [| f_equal; [f_equal | f_equal]] |].
      + apply tsum_ext. intros n Hn. rewrite Hcol.
        rewrite (concat_head_nll _ _ N) by congruence.
        rewrite (nth_map_lt _ _ _ 0%nat) by (rewrite length_seq; exact Hn).
        now rewrite seq_nth by exact Hn.
      + apply tsum_ext. intros n Hn. rewrite Hcol.
        rewrite concat_map_map.
        now rewrite (nth_map_lt _ _ _ 0%Z) by exact Hn.
      + apply map_ext. intros d. apply tsum_ext. intros n Hn.
        now rewrite Hcol.
      + apply tsum_ext. intros n Hn. now rewrite Hcol.
    - apply tsum_ext. intros n Hn. rewrite Hcol.
      unfold tok_tail_nll, to_float32. now rewrite to_int32_IZR. }
  f_equal.
  - rewrite (rsum_ext _ _ _ Hslots).
    unfold tsum. rewrite rsum_swap. apply rsum_ext.
    intros n Hn. apply in_seq in Hn.
    rewrite (rsum_ext _ (fun k => (tokh hidden head_target n
                                   + tokt hidden target i n)
                                  * to_float (nth k (nth n B []) false)))
      by (intros; lra).
    rewrite rsum_scal.
    pose proof (count_true_sum (nth n B [])) as Hct.
    pose proof (route_wfb_width target r n Hwf ltac:(rewrite HNr; lia)) as Hw.
    fold B in Hw. rewrite Hw in Hct.
    unfold tsum in Hct. rewrite Hct. lra.
  - unfold tsum. rewrite rsum_swap. apply rsum_ext.
    intros n Hn. apply in_seq in Hn.
    pose proof (count_true_sum (nth n B [])) as Hct.
    pose proof (route_wfb_width target r n Hwf ltac:(rewrite HNr; lia)) as Hw.
    fold B in Hw. rewrite Hw in Hct.
    exact Hct.
Qed.

Lemma fold_left_pair_sum (f g : nat -> R) (l : list nat) :
  forall a b,
    fold_left (fun acc i => (fst acc + f i, snd acc + g i)) l (a, b)
    = (a + rsum (map f l), b + rsum (map g l)).
Proof.
  induction l as [| i l IH]; intros a b; simpl.
  - f_equal; lra.
  - rewrite IH. f_equal; lra.
Qed.

Lemma INR_list_sum (f : nat -> nat) (l : list nat) :
  INR (list_sum (map f l)) = rsum (map (fun i => INR (f i)) l).
Proof.
  induction l as [| i l IH]; simpl; [reflexivity |].
  now rewrite plus_INR, IH.
Qed.

Lemma routes_wf_route (hidden : T2 (list R)) (target head_target : T2 Z)
      (route0 : T2 bool) (routes : list (T2 (list bool))) (i : nat) :
  routes_wf cutoffs hidden target head_target route0 routes ->
  In i (seq 1 (length cutoffs)) ->
  route_wfb target (nth (i - 1) routes []) = true.
Proof.
  intros [_ [_ [_ [_ H]]]] Hi. rewrite forallb_forall in H. now apply H.
Qed.

(** Permutation mode averages the cross-entropies of the routed tokens
    over their number. *)
Lemma mul_loss_routed (hidden : T2 (list R)) (target head_target : T2 Z)
      (route0 : T2 bool) (routes : list (T2 (list bool))) :
  cutoffs <> [] ->
  routes_wf cutoffs hidden target head_target route0 routes ->
  mul_adaptive_logsoftmax n_token d_embed d_proj div_val cutoffs params
                          tie_projs proj_same_dim vars hidden target
                          (perms_of route0 routes) head_target
  = routed_nll_sum n_token d_embed d_proj div_val cutoffs params tie_projs
                   proj_same_dim vars hidden target head_target route0 routes
    / INR (routed_count cutoffs route0 routes).
Proof.
  intros Hne Hwf.
  pose proof Hwf as [Hsh [Hsht [Hs0 [Hdim Hroutes]]]].
  set (N := length (concat target)).
  assert (HN0 : length (concat route0) = N) by (now apply shape_length_concat).
  unfold mul_adaptive_logsoftmax.
  destruct cutoffs as [| c0 cs] eqn:Hc; [contradiction |].
  rewrite <- Hc in *. replace (length cutoffs =? 0)%nat with false
    by (rewrite Hc; reflexivity).
  unfold perms_of. cbn [fst snd].
  rewrite (fold_left_pair_sum
             (fun i => fst (mul_tail_term n_token d_embed d_proj div_val cutoffs
                                          params tie_projs proj_same_dim vars
                                          hidden target head_target i
                                          (nth (i - 1)
                                               (map (map (map (map to_float))) routes)
                                               [])))
             (fun i => snd (mul_tail_term n_token d_embed d_proj div_val cutoffs
                                          params tie_projs proj_same_dim vars
                                          hidden target head_target i
                                          (nth (i - 1)
                                               (map (map (map (map to_float))) routes)
                                               [])))).
  cbn [fst snd].
  assert (Hterm :
            forall i, In i (seq 1 (length cutoffs)) ->
                      mul_tail_term n_token d_embed d_proj div_val cutoffs
                                    params tie_projs proj_same_dim vars
                                    hidden target head_target i
                                    (nth (i - 1)
                                         (map (map (map (map to_float))) routes)
                                         [])
                      = (tsum N (fun n =>
                                   INR (count_true
                                          (nth n (concat (nth (i - 1) routes [])) []))
                                   * (tokh hidden head_target n
                                      + tokt hidden target i n)),
                         tsum N (fun n =>
                                   INR (count_true
                                          (nth n (concat (nth (i - 1) routes [])) []))))).
  { intros i Hi.
    change (@nil (list (list R))) with (map (map (map to_float)) []).
    rewrite map_nth.
    apply mul_tail_term_tokens; try assumption.
    eapply routes_wf_route; eassumption. }
  rewrite (rsum_ext _ _ _ (fun i Hi => f_equal fst (Hterm i Hi))).
  rewrite (rsum_ext _ _ _ (fun i Hi => f_equal snd (Hterm i Hi))).
  cbn [fst snd].
  unfold routed_nll_sum, routed_count. fold N.
  f_equal.
  - rewrite Rplus_0_l. f_equal.
    unfold reduce_sum. rewrite rsum_concat.
    rewrite concat_map2
      by (rewrite shape_head_nll, shape_map; congruence).
    rewrite concat_map_map.
    rewrite (rsum_map2_tsum _ _ _ 0 0 N);
      [| rewrite (concat_head_nll _ _ N), length_map, length_seq;
         [reflexivity | congruence | now apply shape_length_concat]
       | rewrite length_map; exact HN0].
    apply tsum_ext. intros n Hn.
    rewrite (concat_head_nll _ _ N);
      [| congruence | now apply shape_length_concat].
    rewrite (nth_map_lt _ _ _ 0%nat) by (rewrite length_seq; exact Hn).
    rewrite seq_nth by exact Hn.
    rewrite (nth_map_lt _ _ _ false) by (rewrite HN0; exact Hn).
    simpl. lra.
  - rewrite Rplus_0_l, plus_INR. f_equal.
    + unfold reduce_sum. rewrite rsum_concat, concat_map_map.
      rewrite (rsum_map_tsum _ _ false N) by exact HN0.
      rewrite <- HN0. apply count_true_sum.
    + rewrite INR_list_sum. apply rsum_ext. intros i Hi.
      pose proof (routes_wf_route _ _ _ _ _ i Hwf Hi) as Hr.
      pose proof (route_wfb_shape _ _ Hr) as Hsr.
      assert (HNr : length (concat (nth (i - 1) routes [])) = N)
        by (now apply shape_length_concat).
      rewrite <- HNr. apply count_true_list_sum.
Qed.

(** The term bucket 0 adds to [nll], token by token. *)
Lemma concat_mask_head_term (hidden : T2 (list R)) (target : T2 Z) :
  shape hidden = shape target ->
  concat (mask_head_term n_token d_embed d_proj div_val cutoffs params
                         tie_projs proj_same_dim vars hidden target)
  = map (fun n =>
           let y := nth n (concat target) 0%Z in
           if in_bucket (nth 0 ends 0%Z) (nth 1 ends 0%Z) y
           then xent (y - nth 0 ends 0%Z)%Z (hl0 (nth n (concat hidden) []))
           else 0)
        (seq 0 (length (concat target))).
Proof.
  intros Hsh. set (N := length (concat target)).
  assert (HNh : length (concat hidden) = N) by (now apply shape_length_concat).
  unfold mask_head_term, boolean_mask, bucket_mask, _gather_logprob, head_logit.
  rewrite concat_scatter, !concat_map_map.
  rewrite <- keep_map, <- keep_map2.
  rewrite scatter_keep
    by (rewrite length_map2, !length_map; fold N; rewrite HNh; lia).
  rewrite (map_nth_seq (concat target) 0%Z) at 1 2.
  rewrite (map_nth_seq (concat hidden) []) at 1.
  fold N. rewrite HNh. rewrite !map_map, !map2_tab.
  reflexivity.
Qed.

(** The term bucket [i >= 1] adds to [nll], token by token. *)
Lemma concat_mask_tail_term (hidden : T2 (list R)) (target : T2 Z) (i : nat) :
  shape hidden = shape target ->
  concat (mask_tail_term n_token d_embed d_proj div_val cutoffs params
                         tie_projs proj_same_dim vars hidden target i)
  = map (fun n =>
           let y := nth n (concat target) 0%Z in
           if in_bucket (nth i ends 0%Z) (nth (i + 1) ends 0%Z) y
           then xent (Z.of_nat (Z.to_nat (nth 1 ends 0%Z) + i - 1))
                     (hl0 (nth n (concat hidden) []))
                + xent (y - nth i ends 0%Z)%Z (tlv i (nth n (concat hidden) []))
           else 0)
        (seq 0 (length (concat target))).
Proof.
  intros Hsh. set (N := length (concat target)).
  assert (HNh : length (concat hidden) = N) by (now apply shape_length_concat).
  unfold mask_tail_term, boolean_mask, bucket_mask, _gather_logprob, head_logit.
  rewrite concat_scatter, !concat_map_map.
  rewrite <- !keep_map, <- keep_map2, <- keep_map2.
  rewrite scatter_keep
    by (rewrite !length_map2, !length_map; fold N; rewrite HNh; lia).
  rewrite (map_nth_seq (concat target) 0%Z) at 1 2.
  rewrite (map_nth_seq (concat hidden) []) at 1 2.
  fold N. rewrite HNh. rewrite !map_map, !map2_tab.
  apply map_ext. intros n. cbv zeta.
  destruct (in_bucket _ _ _); [| reflexivity].
  unfold sparse_softmax_cross_entropy_with_logits.
  rewrite Nat2Z.id. lra.
Qed.

Lemma shape_mask_head_term (hidden : T2 (list R)) (target : T2 Z) :
  shape (mask_head_term n_token d_embed d_proj div_val cutoffs params
                        tie_projs proj_same_dim vars hidden target)
  = shape target.
Proof.
  unfold mask_head_term. rewrite shape_scatter. apply shape_map.
Qed.

Lemma shape_mask_tail_term (hidden : T2 (list R)) (target : T2 Z) (i : nat) :
  shape (mask_tail_term n_token d_embed d_proj div_val cutoffs params
                        tie_projs proj_same_dim vars hidden target i)
  = shape target.
Proof.
  unfold mask_tail_term. rewrite shape_scatter. apply shape_map.
Qed.

(** Accumulating terms of the shape of [target] adds them token by token. *)
Lemma concat_fold_tadd (target : T2 Z) (term : nat -> T2 R)
      (t : nat -> nat -> R) (l : list nat) :
  (forall i, In i l ->
             shape (term i) = shape target
             /\ concat (term i) = map (t i) (seq 0 (length (concat target)))) ->
  forall (acc : T2 R) (a : nat -> R),
    shape acc = shape target ->
    concat acc = map a (seq 0 (length (concat target))) ->
    let res := fold_left (fun acc i => tadd acc (term i)) l acc in
    shape res = shape target
    /\ concat res
       = map (fun n => a n + rsum (map (fun i => t i n) l))
             (seq 0 (length (concat target))).
Proof.
  induction l as [| i l IH]; intros Hterm acc a Hsh Hc; cbv zeta.
  - simpl. split; [exact Hsh |]. rewrite Hc. apply map_ext. intros; lra.
  - cbn [fold_left].
    destruct (Hterm i (or_introl eq_refl)) as [Hsi Hci].
    destruct (IH (fun j Hj => Hterm j (or_intror Hj))
                 (tadd acc (term i)) (fun n => a n + t i n)) as [Hs' Hc'].
    + unfold tadd. rewrite shape_map2; congruence.
    + unfold tadd. rewrite concat_map2 by congruence.
      now rewrite Hc, Hci, map2_tab.
    + split; [exact Hs' |]. rewrite Hc'. apply map_ext. intros n.
      simpl. lra.
Qed.


Local Notation "'relab'" :=
  (fun y : Z => relabel_from 0 (tail_buckets ends) (nth 1 ends 0%Z) y y).





(** C5: in permutation mode with non-empty cutoffs the loss is the sum,
    over the buckets, of the cross-entropy terms masked by the slot
    indicators, divided by the sum of the indicators; and for the 0/1
    indicators of a routing (the shape of the batch, no slot held twice)
    this is the sum of the cross-entropies of the routed tokens (a head
    token where [perms[0]] marks it, a tail token once per slot it holds,
    its tail cross-entropy taken at the label the code reads for it, the
    index in the bucket after the passage through [float32]) divided by
    the number of routed tokens, so that a token that holds no slot and is
    not marked adds nothing to either. *)
Theorem mul_loss_averages_routed_tokens
        (hidden : T2 (list R)) (target head_target : T2 Z)
        (route0 : T2 bool) (routes : list (T2 (list bool)))
        (Hne : cutoffs <> [])
        (Hwf : routes_wf cutoffs hidden target head_target route0 routes) :
  (forall perms,
      mul_adaptive_logsoftmax n_token d_embed d_proj div_val cutoffs params
                              tie_projs proj_same_dim vars hidden target
                              perms head_target
      = (reduce_sum (Py.map2 (Py.map2 Rmult) (HN hidden head_target) (fst perms))
         + rsum (map (fun i =>
                        fst (mul_tail_term n_token d_embed d_proj div_val
                                           cutoffs params tie_projs
                                           proj_same_dim vars hidden target
                                           head_target i
                                           (nth (i - 1) (snd perms) [])))
                     (seq 1 (length cutoffs))))
        / (reduce_sum (fst perms)
           + rsum (map (fun i =>
                          snd (mul_tail_term n_token d_embed d_proj div_val
                                             cutoffs params tie_projs
                                             proj_same_dim vars hidden target
                                             head_target i
                                             (nth (i - 1) (snd perms) [])))
                       (seq 1 (length cutoffs)))))
  /\ mul_adaptive_logsoftmax n_token d_embed d_proj div_val cutoffs params
                             tie_projs proj_same_dim vars hidden target
                             (perms_of route0 routes) head_target
     = routed_nll_sum n_token d_embed d_proj div_val cutoffs params tie_projs
                      proj_same_dim vars hidden target head_target route0 routes
       / INR (routed_count cutoffs route0 routes).
Proof.
  split; [| now apply mul_loss_routed].
  intros perms. unfold mul_adaptive_logsoftmax.
  replace (length cutoffs =? 0)%nat with false
    by (destruct cutoffs; [contradiction | reflexivity]).
  rewrite (fold_left_pair_sum
             (fun i => fst (mul_tail_term n_token d_embed d_proj div_val cutoffs
                                          params tie_projs proj_same_dim vars
                                          hidden target head_target i
                                          (nth (i - 1) (snd perms) [])))
             (fun i => snd (mul_tail_term n_token d_embed d_proj div_val cutoffs
                                          params tie_projs proj_same_dim vars
                                          hidden target head_target i
                                          (nth (i - 1) (snd perms) [])))).
  cbn [fst snd]. now rewrite !Rplus_0_l.
Qed.




End LossFacts.

(** A batch of two tokens, one of the head bucket and one of the tail
    bucket, with vocabulary [[0, 20)], cutoffs [[10]] and a tail bucket of
    two slots, the second of them padding. *)
Lemma mul_loss_averages_routed_tokens_witness :
  let W := SharedTable (repeat [1%R; 0%R] 20) None in
  let vs := mkVars [] (fun _ => repeat 0%R 10) (fun _ => []) [[0%R; 0%R]] [0%R] in
  let hidden := [[[1%R; 0%R]]; [[0%R; 1%R]]] in
  let target := [[3]; [12]] in
  let head_target := [[3]; [10]] in
  let route0 := [[true]; [false]] in
  let routes := [[[[false; false]]; [[true; false]]]] in
  routes_wf [10] hidden target head_target route0 routes
  /\ mul_adaptive_logsoftmax 20 2 2 1 [10] W [true; true] true vs hidden target
                             (perms_of route0 routes) head_target
     = Rdiv (routed_nll_sum 20 2 2 1 [10] W [true; true] true vs hidden target
                            head_target route0 routes)
            (INR (routed_count [10] route0 routes)).
Proof.
  intros W vs hidden target head_target route0 routes.
  assert (Hwf : routes_wf [10] hidden target head_target route0 routes)
    by (repeat split; reflexivity).
  split; [exact Hwf |].
  exact (proj2 (mul_loss_averages_routed_tokens
                  20 2 2 1 [10] W [true; true] true vs hidden target
                  head_target route0 routes ltac:(discriminate) Hwf)).
Defined.


(** ** Beyond [float32]: a tail bucket of more than [2^24 + 1] ids *)

Section BeyondFloat32.

Local Open Scope R_scope.




End BeyondFloat32.


(* ================================================================== *)
(** * Part II, continued: further properties of the code *)
(* ================================================================== *)

(** ** More on nearest-to-eight rounding *)

Lemma nearest_to_eight_cases (x : Z) :
  (4 <= x mod 8 /\ _nearest_to_eight x = 8 * (x / 8) + 8)
  \/ (x mod 8 < 4 /\ _nearest_to_eight x = Z.max 8 (8 * (x / 8))).
Proof.
  unfold _nearest_to_eight.
  pose proof (Z.div_mod x 8 ltac:(lia)) as Hdm.
  destruct (x mod 8 >=? 4) eqn:E; [left | right]; split; lia.
Qed.

(** X1: for a non-negative estimate the rounded capacity is within reach of
    the estimate (at most 3 below it, and at most 4 above it once the floor
    of 8 is passed), rounding is monotone, and a rounded capacity is a fixed
    point of the rounding. *)
Theorem nearest_to_eight_near_monotone (x y : Z) (Hx : 0 <= x) (Hxy : x <= y) :
  x - 3 <= _nearest_to_eight x <= Z.max 8 (x + 4)
  /\ _nearest_to_eight x <= _nearest_to_eight y
  /\ _nearest_to_eight (_nearest_to_eight x) = _nearest_to_eight x.
Proof.
  pose proof (Z.div_mod x 8 ltac:(lia)) as Hx8.
  pose proof (Z.mod_pos_bound x 8 ltac:(lia)) as Hxm.
  pose proof (Z.div_mod y 8 ltac:(lia)) as Hy8.
  pose proof (Z.mod_pos_bound y 8 ltac:(lia)) as Hym.
  assert (Hq : 0 <= x / 8) by (apply Z.div_pos; lia).
  assert (Hrx : exists k, 1 <= k /\ _nearest_to_eight x = 8 * k).
  { destruct (nearest_to_eight_cases x) as [[_ ->] | [_ ->]].
    - exists (x / 8 + 1). lia.
    - destruct (Z.max_spec 8 (8 * (x / 8))) as [[? ->] | [? ->]];
        [exists (x / 8) | exists 1]; lia. }
  split; [| split].
  - destruct (nearest_to_eight_cases x) as [[? ->] | [? ->]]; lia.
  - destruct (nearest_to_eight_cases x) as [[? ->] | [? ->]];
      destruct (nearest_to_eight_cases y) as [[? ->] | [? ->]]; lia.
  - destruct Hrx as [k [Hk ->]].
    destruct (nearest_to_eight_cases (8 * k)) as [[Hm _] | [_ ->]].
    + rewrite Z.mul_comm, Z.mod_mul in Hm by lia. lia.
    + rewrite (Z.mul_comm 8 k), Z.div_mul by lia. lia.
Qed.

Lemma nearest_to_eight_near_monotone_witness :
  0 <= 11 /\ 11 <= 12
  /\ _nearest_to_eight 11 <= _nearest_to_eight 12.
Proof.
  split; [lia |]. split; [lia |].
  exact (proj1 (proj2 (nearest_to_eight_near_monotone 11 12
                         ltac:(lia) ltac:(lia)))).
Defined.

(** ** Memory over consecutive segments *)

Section MemoryOverSegments.

Context {Row : Type}.

Lemma truncate_last_app_absorb (n : nat) (a b : list Row) :
  truncate_last n (truncate_last n a ++ b) = truncate_last n (a ++ b).
Proof.
  unfold truncate_last. f_equal.
  rewrite !rev_app_distr, rev_involutive, !firstn_app, firstn_firstn.
  f_equal. f_equal. lia.
Qed.

Lemma truncate_last_idem (n : nat) (a : list Row) :
  truncate_last n (truncate_last n a) = truncate_last n a.
Proof.
  pose proof (truncate_last_app_absorb n a []) as H.
  now rewrite !app_nil_r in H.
Qed.

(** X2: feeding the returned memory back in, segment after segment, keeps
    the last [mem_len] rows of everything seen: the memory after the
    segments [segs] is the last [mem_len] rows of the initial memory
    followed by all of them, and it holds exactly [mem_len] rows as soon as
    that many have been seen. *)
Theorem cache_mem_sliding_window (mem_len : Z) (m0 seg : list Row)
        (segs : list (list Row)) (Hlen : 0 < mem_len) :
  let final := fold_left (fun m s => _cache_mem s (Some m) (Some mem_len))
                         (seg :: segs) m0 in
  final = truncate_last (Z.to_nat mem_len) (m0 ++ concat (seg :: segs))
  /\ length final
     = Nat.min (Z.to_nat mem_len) (length m0 + length (concat (seg :: segs))).
Proof.
  cbv zeta.
  assert (H : forall (segs' : list (list Row)) (m : list Row),
             fold_left (fun m s => _cache_mem s (Some m) (Some mem_len)) segs'
                       (truncate_last (Z.to_nat mem_len) m)
             = truncate_last (Z.to_nat mem_len)
                             (truncate_last (Z.to_nat mem_len) m
                              ++ concat segs')).
  { induction segs' as [| s segs' IH]; intros m; cbn [fold_left concat].
    - now rewrite app_nil_r, truncate_last_idem.
    - rewrite cache_mem_present by exact Hlen.
      rewrite IH, truncate_last_app_absorb, <- app_assoc.
      reflexivity. }
  cbn [fold_left]. rewrite cache_mem_present by exact Hlen.
  rewrite H, truncate_last_app_absorb. cbn [concat].
  rewrite <- app_assoc. split; [reflexivity |].
  rewrite truncate_last_skipn, length_skipn, !length_app. lia.
Qed.

End MemoryOverSegments.

Lemma cache_mem_sliding_window_witness :
  0 < 3
  /\ fold_left (fun m s => _cache_mem s (Some m) (Some 3))
               [[1; 2]; [3; 4]; [5]] [0; 0; 0]
     = [3; 4; 5].
Proof.
  split; [lia |].
  exact (proj1 (cache_mem_sliding_window 3 [0; 0; 0] [1; 2] [[3; 4]; [5]]
                                         ltac:(lia))).
Defined.

(** ** The attention mask, row by row *)

Section MaskRows.

Lemma list_tabulated {A} (l : list A) (n : nat) (g : nat -> A) :
  length l = n ->
  (forall j, (j < n)%nat -> nth_error l j = Some (g j)) ->
  l = map g (seq 0 n).
Proof.
  intros Hlen Hent. apply nth_error_ext. intros j.
  destruct (Nat.lt_ge_cases j n) as [Hlt | Hge].
  - rewrite Hent by assumption.
    rewrite nth_error_map, nth_error_seq.
    replace (j <? n)%nat with true by (symmetry; apply Nat.ltb_lt; lia).
    reflexivity.
  - transitivity (@None A).
    + apply nth_error_None. lia.
    + symmetry. apply nth_error_None. rewrite length_map, length_seq. lia.
Qed.

Lemma attendable_all (g : nat -> Z) (l : list nat) :
  (forall j, In j l -> g j = 0) -> attendable (map g l) = length l.
Proof.
  unfold attendable. induction l as [| a l IH]; intros H; [reflexivity |].
  cbn [map count_occ length]. rewrite (H a) by now left.
  destruct (Z.eq_dec 0 0); [| congruence].
  f_equal. apply IH. intros j Hj. apply H. now right.
Qed.

Lemma attendable_none (g : nat -> Z) (l : list nat) :
  (forall j, In j l -> g j <> 0) -> attendable (map g l) = 0%nat.
Proof.
  unfold attendable. induction l as [| a l IH]; intros H; [reflexivity |].
  cbn [map count_occ].
  destruct (Z.eq_dec (g a) 0) as [E | _]; [now apply H in E; [| left] |].
  apply IH. intros j Hj. apply H. now right.
Qed.

Lemma attendable_app (r1 r2 : list Z) :
  attendable (r1 ++ r2) = (attendable r1 + attendable r2)%nat.
Proof. apply count_occ_app. Qed.

(** A row that is 0 exactly on the columns [a .. b]. *)
Lemma attendable_band (g : nat -> Z) (a b n : nat) :
  (a <= b)%nat -> (b < n)%nat ->
  (forall j, (j < n)%nat -> g j = 0 <-> (a <= j <= b)%nat) ->
  attendable (map g (seq 0 n)) = (b - a + 1)%nat.
Proof.
  intros Hab Hbn Hg.
  remember (b - a + 1)%nat as w eqn:Hw.
  remember (n - b - 1)%nat as r eqn:Hr.
  replace n with (a + (w + r))%nat in * by lia.
  rewrite !seq_app, !map_app, !attendable_app.
  rewrite (attendable_none g (seq 0 a))
    by (intros j Hj; apply in_seq in Hj; rewrite Hg by lia; lia).
  rewrite (attendable_all g (seq (0 + a) w))
    by (intros j Hj; apply in_seq in Hj; apply Hg; lia).
  rewrite attendable_none
    by (intros j Hj; apply in_seq in Hj; rewrite Hg by lia; lia).
  rewrite length_seq. lia.
Qed.

Variables qlen mlen : nat.

Lemma row_same_length (i : nat) :
  (i < qlen)%nat ->
  exists row,
    nth_error (_create_mask qlen mlen true) i = Some row
    /\ length row = (mlen + qlen)%nat.
Proof.
  intros Hi.
  destruct (row_plain qlen mlen i Hi) as [row [Hrow [Hlen _]]].
  change (_create_mask qlen mlen true) with
    (let ret := _create_mask qlen mlen false in
     concat1 (msub (madd (map (Py.slice_to qlen) ret)
                         (matrix_band_part (ones qlen qlen) (-1) 0))
                   (matrix_band_part (ones qlen qlen) 0 0))
             (map (Py.slice_from (Z.of_nat qlen)) ret)).
  cbv zeta. unfold concat1 at 1, msub, madd, matrix_band_part, ones.
  rewrite !nth_error_map2, !nth_error_imap, !nth_error_map, Hrow,
    nth_error_repeat by assumption.
  cbn [option_map]. eexists; split; [reflexivity |].
  unfold Py.imap, Py.slice_to, Py.slice_from.
  replace (Z.of_nat qlen <? 0) with false by (symmetry; apply Z.ltb_ge; lia).
  rewrite length_app, !length_map2, !length_imap_from, repeat_length,
    length_firstn, length_skipn.
  lia.
Qed.

Lemma length_create_mask (same_length : bool) :
  length (_create_mask qlen mlen same_length) = qlen.
Proof.
  assert (Hp : length (_create_mask qlen mlen false) = qlen).
  { unfold _create_mask, concat1, msub, matrix_band_part, ones, zeros, Py.imap.
    rewrite !length_map2, !length_imap_from, !repeat_length. lia. }
  destruct same_length; [| exact Hp].
  change (_create_mask qlen mlen true) with
    (let ret := _create_mask qlen mlen false in
     concat1 (msub (madd (map (Py.slice_to qlen) ret)
                         (matrix_band_part (ones qlen qlen) (-1) 0))
                   (matrix_band_part (ones qlen qlen) 0 0))
             (map (Py.slice_from (Z.of_nat qlen)) ret)).
  cbv zeta. unfold concat1, msub, madd, matrix_band_part, ones, Py.imap.
  rewrite !length_map2, !length_map, !length_imap_from, !repeat_length, Hp.
  lia.
Qed.

(** X3: the mask has one row per query and one column per key; without
    [same_length] query [i] may attend to the [mlen + i + 1] keys up to
    itself, and with [same_length] every query may attend to exactly
    [mlen + 1] keys, so no query is left without a key. *)
Theorem create_mask_attendable (i : nat) (same_length : bool)
        (Hi : (i < qlen)%nat) :
  length (_create_mask qlen mlen same_length) = qlen
  /\ exists row,
      nth_error (_create_mask qlen mlen same_length) i = Some row
      /\ length row = (mlen + qlen)%nat
      /\ attendable row
         = if same_length then (mlen + 1)%nat else (mlen + i + 1)%nat.
Proof.
  split; [apply length_create_mask |].
  destruct same_length.
  - destruct (row_same_length i Hi) as [row [Hrow Hlen]].
    exists row. split; [exact Hrow |]. split; [exact Hlen |].
    rewrite (list_tabulated row (mlen + qlen)
               (fun j => if (mlen + i <? j)%nat || (j <? i)%nat then 1 else 0)
               Hlen).
    + rewrite (attendable_band _ i (mlen + i)); [lia | lia | lia |].
      intros j Hj.
      destruct (Nat.ltb_spec (mlen + i) j), (Nat.ltb_spec j i); simpl; lia.
    + intros j Hj. pose proof (at2_same_length qlen mlen i j Hi Hj) as H.
      unfold at2 in H. now rewrite Hrow in H.
  - destruct (row_plain qlen mlen i Hi) as [row [Hrow [Hlen Hent]]].
    exists row. split; [exact Hrow |]. split; [exact Hlen |].
    rewrite (list_tabulated row (mlen + qlen) _ Hlen Hent).
    rewrite (attendable_band _ 0 (mlen + i)); [lia | lia | lia |].
    intros j Hj. destruct (Nat.ltb_spec (mlen + i) j); lia.
Qed.

End MaskRows.

Lemma create_mask_attendable_witness :
  (1 < 3)%nat
  /\ exists row,
      nth_error (_create_mask 3 2 true) 1 = Some row
      /\ length row = 5%nat
      /\ attendable row = 3%nat.
Proof.
  split; [lia |].
  exact (proj2 (create_mask_attendable 3 2 1 true ltac:(lia))).
Defined.

(** ** Attention scores: shift and mask together *)

Section ScoreFacts.

Local Open Scope R_scope.

Lemma at2_map2_gen {A B C} (f : A -> B -> C) (a : list (list A))
      (b : list (list B)) (i j : nat) :
  at2 (Py.map2 (Py.map2 f) a b) i j
  = match at2 a i j, at2 b i j with
    | Some x, Some y => Some (f x y)
    | _, _ => None
    end.
Proof.
  unfold at2. rewrite nth_error_map2.
  destruct (nth_error a i) as [ra |], (nth_error b i) as [rb |];
    try reflexivity.
  - apply nth_error_map2.
  - now destruct (nth_error ra j).
Qed.

Lemma at2_nth {A} (x : list (list A)) (q k i j : nat) (d : A) :
  has_shape q k x -> (i < q)%nat -> (j < k)%nat ->
  at2 x i j = Some (nth j (nth i x []) d).
Proof.
  intros [Hq Hk] Hi Hj. unfold at2.
  rewrite (nth_error_nth' x [] ) by lia.
  apply nth_error_nth'.
  rewrite Forall_forall in Hk. rewrite (Hk (nth i x [])); [exact Hj |].
  apply nth_In. lia.
Qed.

Lemma rel_shift_defined {A} (zero : A) (q k : nat) (x : list (list A))
      (i j : nat) :
  has_shape q k x -> (i < q)%nat -> (j < k)%nat ->
  exists v, at2 (rel_shift zero x) i j = Some v.
Proof.
  intros Hx Hi Hj. rewrite (rel_shift_entry zero q k) by assumption.
  pose proof (rel_shift_row_in_range q k i j Hi Hj) as Hr.
  pose proof (Nat.mod_upper_bound (q - i + j) (k + 1) ltac:(lia)) as Hm.
  rewrite at2_pad_front by (destruct Hx; lia).
  destruct ((q - i + j) mod (k + 1))%nat as [| c] eqn:E; [now eexists |].
  rewrite (at2_nth x q k _ c zero) by (assumption || lia). now eexists.
Qed.

(** X4: in [rel_multihead_attn] the score of query [i] and key [j] is
    [(AC[i, j] + BD[i, qlen - 1 - i + j]) * scale] wherever the mask lets
    the query attend, and [-1e30] everywhere else: the entries that
    [rel_shift] wraps around from the next row are all masked. *)
Theorem attn_score_masks_wrapped_entries (q k : nat) (AC BD : T2 R)
        (scale : R) (same_length : bool) (i j : nat)
        (HAC : has_shape q k AC) (HBD : has_shape q k BD)
        (Hqk : (q <= k)%nat) (Hi : (i < q)%nat) (Hj : (j < k)%nat) :
  at2 (attn_score AC BD scale (_create_mask q (k - q) same_length)) i j
  = Some (if (j <=? k - q + i)%nat && (negb same_length || (i <=? j)%nat)
          then (nth j (nth i AC []) 0 + nth (q - 1 - i + j) (nth i BD []) 0)
               * scale
          else - (1e30)).
Proof.
  unfold attn_score. rewrite !at2_map2_gen.
  rewrite (at2_nth AC q k i j 0) by assumption.
  assert (Hm : at2 (_create_mask q (k - q) same_length) i j
               = Some (if (j <=? k - q + i)%nat
                          && (negb same_length || (i <=? j)%nat)
                       then 0%Z else 1%Z)).
  { destruct same_length.
    - rewrite at2_same_length by lia. f_equal.
      destruct (Nat.ltb_spec (k - q + i) j), (Nat.leb_spec j (k - q + i)),
        (Nat.ltb_spec j i), (Nat.leb_spec i j); simpl; try reflexivity; lia.
    - rewrite at2_plain by lia. f_equal.
      destruct (Nat.ltb_spec (k - q + i) j), (Nat.leb_spec j (k - q + i));
        simpl; try reflexivity; lia. }
  rewrite Hm.
  destruct (Nat.leb_spec j (k - q + i)) as [Hle | Hgt].
  - rewrite (rel_shift_causal_entry 0 q k) by (assumption || lia).
    rewrite (at2_nth BD q k i (q - 1 - i + j) 0) by (assumption || lia).
    f_equal. cbn [andb].
    destruct (negb same_length || (i <=? j)%nat); cbn [IZR]; [ring |].
    generalize 1e30. intros big. ring.
  - destruct (rel_shift_defined 0 q k BD i j HBD Hi Hj) as [v ->].
    f_equal. cbn [andb]. generalize 1e30. intros big. ring.
Qed.

End ScoreFacts.

Lemma attn_score_masks_wrapped_entries_witness :
  at2 (attn_score [[1; 2; 3]; [4; 5; 6]]%R [[10; 20; 30]; [40; 50; 60]]%R
                  1%R (_create_mask 2 1 false)) 0 2
  = Some (- (1e30))%R.
Proof.
  assert (Hs : forall a b c d e f : R, has_shape 2 3 [[a; b; c]; [d; e; f]])
    by (intros; split; [reflexivity | repeat constructor]).
  exact (attn_score_masks_wrapped_entries 2 3 _ _ 1%R false 0 2
           (Hs _ _ _ _ _ _) (Hs _ _ _ _ _ _)
           ltac:(lia) ltac:(lia) ltac:(lia)).
Defined.

(** ** Relative positions *)

Section PositionFacts.

Local Open Scope R_scope.

Lemma length_pos_seq (klen : nat) (clamp_len : Z) :
  length (pos_seq klen clamp_len) = klen.
Proof.
  unfold pos_seq. destruct (0 <? clamp_len)%Z;
    now rewrite ?length_map, length_seq.
Qed.

Lemma nth_pos_seq (klen : nat) (clamp_len : Z) (c : nat) :
  (c < klen)%nat ->
  nth_error (pos_seq klen clamp_len) c
  = Some (let p := (Z.of_nat klen - 1 - Z.of_nat c)%Z in
          if (0 <? clamp_len)%Z then Z.min p clamp_len else p).
Proof.
  intros Hc. unfold pos_seq.
  destruct (0 <? clamp_len)%Z; rewrite ?nth_error_map, nth_error_seq;
    replace (c <? klen)%nat with true by (symmetry; apply Nat.ltb_lt; lia);
    reflexivity.
Qed.

Lemma has_shape_einsum_BD (rr_head_q r_head_k : list (list R)) :
  has_shape (length rr_head_q) (length r_head_k)
            (einsum_BD rr_head_q r_head_k).
Proof.
  unfold einsum_BD. split; [apply length_map |].
  apply Forall_map, Forall_forall. intros q _. apply length_map.
Qed.

(** X5: with the positions [transformer] builds, the position term of
    query [i] and key [j] that survives the shift is computed from the
    embedding of the distance [mlen + i - j] between them, clamped to
    [clamp_len] when that is positive. *)
Theorem position_term_uses_clamped_distance (qlen mlen : nat) (clamp_len : Z)
        (inv_freq : list R) (kernel : matrix) (rr_head_q : list (list R))
        (i j : nat)
        (Hq : length rr_head_q = qlen) (Hi : (i < qlen)%nat)
        (Hj : (j <= mlen + i)%nat) :
  let klen := (mlen + qlen)%nat in
  let d := (Z.of_nat mlen + Z.of_nat i - Z.of_nat j)%Z in
  let pos_emb :=
    positional_embedding (map IZR (pos_seq klen clamp_len)) inv_freq None in
  at2 (rel_shift 0 (einsum_BD rr_head_q (r_head_k_of kernel pos_emb))) i j
  = Some (rdot (nth i rr_head_q [])
               (matvec kernel
                  (pos_emb_row inv_freq
                     (IZR (if (0 <? clamp_len)%Z then Z.min d clamp_len
                           else d))))).
Proof.
  cbv zeta.
  set (rk := r_head_k_of kernel _).
  assert (Hrk : length rk = (mlen + qlen)%nat).
  { unfold rk, r_head_k_of, positional_embedding.
    now rewrite !length_map, length_pos_seq. }
  pose proof (has_shape_einsum_BD rr_head_q rk) as Hs.
  rewrite Hq, Hrk in Hs.
  rewrite (rel_shift_causal_entry 0 qlen (mlen + qlen)) by (assumption || lia).
  unfold at2, einsum_BD. rewrite nth_error_map.
  rewrite (nth_error_nth' rr_head_q []) by lia. cbn [option_map].
  rewrite nth_error_map. unfold rk, r_head_k_of, positional_embedding.
  rewrite !nth_error_map, nth_pos_seq by lia. cbn [option_map hd].
  do 5 f_equal. cbv zeta.
  replace (Z.of_nat (mlen + qlen) - 1 - Z.of_nat (qlen - 1 - i + j))%Z
    with (Z.of_nat mlen + Z.of_nat i - Z.of_nat j)%Z by lia.
  reflexivity.
Qed.

Lemma rsum_sq_sin_cos (inv_freq : list R) (p : R) :
  rsum (map (fun v => v * v) (map (fun f => sin (p * f)) inv_freq))
  + rsum (map (fun v => v * v) (map (fun f => cos (p * f)) inv_freq))
  = INR (length inv_freq).
Proof.
  induction inv_freq as [| f l IH]; [simpl; lra |].
  cbn [map rsum fold_right length]. fold (rsum (map (fun v => v * v)
    (map (fun f => sin (p * f)) l))).
  fold (rsum (map (fun v => v * v) (map (fun f => cos (p * f)) l))).
  rewrite S_INR, <- IH.
  pose proof (sin2_cos2 (p * f)) as H. unfold Rsqr in H. lra.
Qed.

(** X6: the positional embedding has one entry per position, repeated
    [bsz] times (once without [bsz]); each is the sines followed by the
    cosines of the position times the frequencies, so it has
    [2 * len(inv_freq)] coordinates, all between -1 and 1, whose squares
    sum to [len(inv_freq)] whatever the position. *)
Theorem positional_embedding_rows (pos_seq inv_freq : list R)
        (bsz : option nat) (i : nat) (Hi : (i < length pos_seq)%nat) :
  length (positional_embedding pos_seq inv_freq bsz) = length pos_seq
  /\ exists e,
      nth_error (positional_embedding pos_seq inv_freq bsz) i = Some e
      /\ length e = match bsz with Some b => b | None => 1%nat end
      /\ Forall (fun row =>
                   length row = (2 * length inv_freq)%nat
                   /\ Forall (fun v => -1 <= v <= 1) row
                   /\ rsum (map (fun v => v * v) row) = INR (length inv_freq))
                e.
Proof.
  assert (Hrow : forall p,
             length (pos_emb_row inv_freq p) = (2 * length inv_freq)%nat
             /\ Forall (fun v => -1 <= v <= 1) (pos_emb_row inv_freq p)
             /\ rsum (map (fun v => v * v) (pos_emb_row inv_freq p))
                = INR (length inv_freq)).
  { intros p. unfold pos_emb_row. split; [| split].
    - rewrite length_app, !length_map. lia.
    - apply Forall_app. split; apply Forall_map, Forall_forall; intros f _.
      + apply SIN_bound.
      + apply COS_bound.
    - rewrite map_app, rsum_app. apply rsum_sq_sin_cos. }
  unfold positional_embedding.
  split; [destruct bsz; now rewrite !length_map |].
  destruct bsz as [b |]; rewrite !nth_error_map,
    (nth_error_nth' pos_seq 0) by exact Hi; cbn [option_map];
    eexists; (split; [reflexivity |]).
  - split; [apply repeat_length |].
    apply Forall_forall. intros row Hin. apply repeat_spec in Hin.
    subst row. apply Hrow.
  - split; [reflexivity |]. constructor; [apply Hrow | constructor].
Qed.

End PositionFacts.

Lemma position_term_uses_clamped_distance_witness :
  at2 (rel_shift 0%R
         (einsum_BD [[1]; [1]]%R
            (r_head_k_of [[1; 0]]%R
               (positional_embedding (map IZR (pos_seq 5 2)) [1]%R None))))
      1 0
  = Some (rdot [1]%R (matvec [[1; 0]]%R (pos_emb_row [1]%R 2%R))).
Proof.
  exact (position_term_uses_clamped_distance 2 3 2 [1]%R [[1; 0]]%R
           [[1]; [1]]%R 1 0 eq_refl ltac:(lia) ltac:(lia)).
Defined.

Lemma positional_embedding_rows_witness :
  (0 < length [3; 2; 1; 0]%R)%nat
  /\ length (positional_embedding [3; 2; 1; 0]%R [1; 0.01]%R (Some 2%nat))
     = 4%nat.
Proof.
  split; [simpl; lia |].
  exact (proj1 (positional_embedding_rows [3; 2; 1; 0]%R [1; 0.01]%R
                  (Some 2%nat) 0 ltac:(simpl; lia))).
Defined.

(** ** The memory of token ids *)

Section CacheMemIdFacts.

Context {Row Tok : Type}.

Lemma combine_app_eq (a1 a2 : list Row) (b1 b2 : list Tok) :
  length a1 = length b1 ->
  combine (a1 ++ a2) (b1 ++ b2) = combine a1 b1 ++ combine a2 b2.
Proof.
  revert b1. induction a1 as [| x a1 IH]; intros [| y b1] H;
    try discriminate; [reflexivity |].
  cbn [app combine]. f_equal. apply IH. now injection H.
Qed.

Lemma skipn_combine (k : nat) (a : list Row) (b : list Tok) :
  skipn k (combine a b) = combine (skipn k a) (skipn k b).
Proof.
  revert a b. induction k as [| k IH]; intros [| x a] [| y b];
    try reflexivity.
  - cbn [skipn combine]. now destruct (skipn k a).
  - cbn [skipn combine]. apply IH.
Qed.

Lemma slice_from_combine (z : Z) (a : list Row) (b : list Tok) :
  length a = length b ->
  Py.slice_from z (combine a b)
  = combine (Py.slice_from z a) (Py.slice_from z b).
Proof.
  intros H. unfold Py.slice_from.
  rewrite length_combine, <- H, Nat.min_id. apply skipn_combine.
Qed.

(** X7: [_cache_mem] on the hidden states and [_cache_mem_id] on the token
    ids keep the two memories aligned: when the current segment and the
    previous memories go together position by position (both memories
    absent, or of the same length), updating them separately gives the
    same pairs as updating the zipped memory, for every [mem_len]; in
    particular the two new memories have the same length.  On ids the two
    functions compute the same value. *)
Theorem cache_mem_id_tracks_cache_mem
        (curr_out : list Row) (curr_input : list Tok)
        (prev_mem : option (list Row)) (prev_id : option (list Tok))
        (mem_len : option Z)
        (Hcur : length curr_out = length curr_input)
        (Hprev : match prev_mem, prev_id with
                 | None, None => True
                 | Some m, Some ids => length m = length ids
                 | _, _ => False
                 end) :
  combine (_cache_mem curr_out prev_mem mem_len)
          (_cache_mem_id curr_input prev_id mem_len)
  = _cache_mem_id (combine curr_out curr_input) (zip_mems prev_mem prev_id)
                  mem_len
  /\ length (_cache_mem curr_out prev_mem mem_len)
     = length (_cache_mem_id curr_input prev_id mem_len)
  /\ _cache_mem_id curr_input prev_id mem_len
     = _cache_mem curr_input prev_id mem_len.
Proof.
  assert (Hzip : combine (_cache_mem curr_out prev_mem mem_len)
                         (_cache_mem_id curr_input prev_id mem_len)
                 = _cache_mem_id (combine curr_out curr_input)
                                 (zip_mems prev_mem prev_id) mem_len
                 /\ length (_cache_mem curr_out prev_mem mem_len)
                    = length (_cache_mem_id curr_input prev_id mem_len)).
  { unfold _cache_mem, _cache_mem_id, zip_mems, stop_gradient.
    destruct mem_len as [n |]; [| now split].
    destruct prev_mem as [m |], prev_id as [ids |]; try contradiction;
      [| now split].
    destruct (n =? 0); [now split |].
    assert (Hlen : length (m ++ curr_out) = length (ids ++ curr_input))
      by (rewrite !length_app; lia).
    split.
    - rewrite <- slice_from_combine by exact Hlen.
      now rewrite combine_app_eq.
    - unfold Py.slice_from. rewrite !length_skipn, Hlen. reflexivity. }
  destruct Hzip as [H1 H2]. split; [exact H1 |]. split; [exact H2 |].
  reflexivity.
Qed.

End CacheMemIdFacts.

Lemma cache_mem_id_tracks_cache_mem_witness :
  combine (_cache_mem [40; 50] (Some [10; 20; 30]) (Some 4))
          (_cache_mem_id [true; false] (Some [true; true; false]) (Some 4))
  = [(20, true); (30, false); (40, true); (50, false)].
Proof.
  exact (proj1 (cache_mem_id_tracks_cache_mem
                  [40; 50] [true; false] (Some [10; 20; 30])
                  (Some [true; true; false]) (Some 4) eq_refl eq_refl)).
Defined.

(** ** Embedding lookup *)

Section EmbeddingFacts.

Local Open Scope R_scope.

Lemma rsum_one_hot_from (d : nat) (x : Z) (rows : matrix) :
  forall k : nat,
    rsum (Py.map2 (fun row o => nth d row 0 * o) rows
                  (map (fun j => if (Z.of_nat j =? x)%Z then 1 else 0)
                       (seq k (length rows))))
    = if ((Z.of_nat k <=? x) && (x <? Z.of_nat (k + length rows)))%Z
      then nth d (nth (Z.to_nat x - k) rows []) 0
      else 0.
Proof.
  induction rows as [| row rows IH]; intros k.
  - cbn [length seq map Py.map2 rsum fold_right].
    destruct (Z.leb_spec (Z.of_nat k) x), (Z.ltb_spec x (Z.of_nat (k + 0)));
      simpl; try reflexivity; lia.
  - cbn [length seq map Py.map2 rsum fold_right].
    fold (rsum (Py.map2 (fun row o => nth d row 0 * o) rows
                  (map (fun j => if (Z.of_nat j =? x)%Z then 1 else 0)
                       (seq (S k) (length rows))))).
    rewrite IH.
    destruct (Z.eqb_spec (Z.of_nat k) x) as [E | E].
    + subst x.
      replace (Z.of_nat (S k) <=? Z.of_nat k)%Z with false
        by (symmetry; apply Z.leb_gt; lia).
      replace (Z.of_nat k <=? Z.of_nat k)%Z with true
        by (symmetry; apply Z.leb_le; lia).
      replace (Z.of_nat k <? Z.of_nat (k + S (length rows)))%Z with true
        by (symmetry; apply Z.ltb_lt; lia).
      rewrite Nat2Z.id, Nat.sub_diag. cbn [andb nth]. lra.
    + destruct (Z.leb_spec (Z.of_nat (S k)) x),
        (Z.ltb_spec x (Z.of_nat (S k + length rows))),
        (Z.leb_spec (Z.of_nat k) x),
        (Z.ltb_spec x (Z.of_nat (k + S (length rows))));
        cbn [andb]; try lia; try lra.
      replace (Z.to_nat x - k)%nat with (S (Z.to_nat x - S k)) by lia.
      cbn [nth]. lra.
Qed.

(** What the one-hot product selects for one id. *)
Lemma one_hot_selects (n d : nat) (lookup_table : matrix) (x : Z) :
  has_shape n d lookup_table -> (0 < n)%nat ->
  einsum_nd_n lookup_table (one_hot x n)
  = if ((0 <=? x) && (x <? Z.of_nat n))%Z
    then nth (Z.to_nat x) lookup_table []
    else repeat 0 d.
Proof.
  intros Hs Hn. pose proof (hd_shape n d lookup_table Hs Hn) as Hhd.
  destruct Hs as [Hlen Hrows]. unfold einsum_nd_n, one_hot.
  rewrite Hhd, <- Hlen.
  erewrite map_ext; [| intros c; apply rsum_one_hot_from].
  cbn [Nat.add]. change (Z.of_nat 0) with 0%Z.
  destruct ((0 <=? x) && (x <? Z.of_nat (length lookup_table)))%Z eqn:E.
  - rewrite Nat.sub_0_r. apply map_nth_all.
    apply andb_prop in E. destruct E as [E1 E2].
    apply Z.leb_le in E1. apply Z.ltb_lt in E2.
    rewrite Forall_forall in Hrows. apply Hrows, nth_In. lia.
  - clear. induction d as [| d IH] using nat_ind; [reflexivity |].
    rewrite seq_S, map_app, IH. cbn [map Nat.add].
    change [0] with (repeat 0 1). rewrite <- repeat_app.
    f_equal. lia.
Qed.

Lemma map_opt_some {A B} (f : A -> option B) (g : A -> B) (l : list A) :
  Forall (fun a => f a = Some (g a)) l -> map_opt f l = Some (map g l).
Proof.
  induction 1 as [| a l Ha _ IH]; [reflexivity |].
  cbn [map_opt map]. now rewrite Ha, IH.
Qed.

(** X8: the one-hot lookup used on TPU never fails: an id within the table
    selects its row and any other id gives the zero vector; when every id
    is within the table the gathering lookup returns the same tensor. *)
Theorem embedding_lookup_one_hot (n d : nat) (lookup_table : matrix)
        (x : T2 Z) (Hs : has_shape n d lookup_table) (Hn : (0 < n)%nat) :
  embedding_lookup lookup_table x true
  = Some (map (map (fun id => if ((0 <=? id) && (id <? Z.of_nat n))%Z
                              then nth (Z.to_nat id) lookup_table []
                              else repeat 0 d)) x)
  /\ (Forall (Forall (fun id => (0 <= id < Z.of_nat n)%Z)) x ->
      embedding_lookup lookup_table x false
      = embedding_lookup lookup_table x true).
Proof.
  assert (Htpu : embedding_lookup lookup_table x true
                 = Some (map (map (fun id =>
                                     if ((0 <=? id) && (id <? Z.of_nat n))%Z
                                     then nth (Z.to_nat id) lookup_table []
                                     else repeat 0 d)) x)).
  { unfold embedding_lookup. f_equal.
    apply map_ext. intros row. apply map_ext. intros id.
    rewrite (proj1 Hs). now apply one_hot_selects. }
  split; [exact Htpu |].
  intros Hx. rewrite Htpu. unfold embedding_lookup.
  apply map_opt_some. eapply Forall_impl; [| exact Hx].
  intros row Hrow. cbv beta. apply map_opt_some.
  eapply Forall_impl; [| exact Hrow].
  intros id Hid. cbv beta in *. unfold gather.
  destruct Hs as [Hlen _]. rewrite Hlen.
  replace ((0 <=? id) && (id <? Z.of_nat n))%Z with true
    by (symmetry; apply andb_true_intro; split;
        [apply Z.leb_le | apply Z.ltb_lt]; lia).
  apply nth_error_nth'. lia.
Qed.

End EmbeddingFacts.

Lemma embedding_lookup_one_hot_witness :
  embedding_lookup [[1; 2]; [3; 4]; [5; 6]]%R [[2; 7]; [0; -1]] true
  = Some [[[5; 6]; [0; 0]]; [[1; 2]; [0; 0]]]%R.
Proof.
  refine (proj1 (embedding_lookup_one_hot 3 2 [[1; 2]; [3; 4]; [5; 6]]%R
                   [[2; 7]; [0; -1]] _ ltac:(lia))).
  split; [reflexivity | repeat constructor].
Defined.

(** ** Batching *)

Lemma has_shape_chunk {A} (r c : nat) (flat : list A) :
  (r * c <= length flat)%nat -> has_shape r c (Py.chunk r c flat).
Proof.
  revert flat. induction r as [| r IH]; intros flat Hlen.
  - split; [reflexivity | constructor].
  - cbn [Py.chunk]. destruct (IH (skipn c flat)) as [Hl Hr].
    { rewrite length_skipn. simpl in Hlen. lia. }
    split; [simpl; now rewrite Hl |].
    constructor; [| exact Hr]. rewrite length_firstn. simpl in Hlen. lia.
Qed.

Section BatchifyFacts.

Variable batch_size : nat.
Hypothesis batch_size_pos : batch_size <> 0%nat.

(** Cutting a flat sequence into [batch_size] rows. *)
Lemma batchify_rows (flat : list Z) :
  let num_step := (length flat / batch_size)%nat in
  let bd := Py.chunk batch_size num_step
                     (Py.slice_to (batch_size * num_step) flat) in
  has_shape batch_size num_step bd
  /\ concat bd = firstn (batch_size * num_step) flat
  /\ (length flat - length (concat bd) < batch_size)%nat
  /\ forall i j, (i < batch_size)%nat -> (j < num_step)%nat ->
                 at2 bd i j = nth_error flat (i * num_step + j).
Proof.
  cbv zeta. unfold Py.slice_to.
  set (num_step := (length flat / batch_size)%nat).
  pose proof (Nat.div_mod_eq (length flat) batch_size) as Hdm.
  pose proof (Nat.mod_upper_bound (length flat) batch_size batch_size_pos)
    as Hm.
  fold num_step in Hdm.
  assert (Hle : (batch_size * num_step <= length flat)%nat) by lia.
  split; [| split; [| split]].
  - apply has_shape_chunk. rewrite length_firstn. lia.
  - rewrite concat_chunk, firstn_firstn. f_equal. lia.
  - rewrite concat_chunk, firstn_firstn, length_firstn. lia.
  - intros i j Hi Hj. rewrite at2_chunk by assumption.
    rewrite nth_error_firstn.
    replace (i * num_step + j <? batch_size * num_step)%nat with true
      by (symmetry; apply Nat.ltb_lt; nia).
    reflexivity.
Qed.

(** X9: with one pass, [batchify] cuts the data into [batch_size] rows of
    [len(data) // batch_size] tokens: row [i] is the [i]-th stretch of the
    data, the rows in order are a prefix of the data, and fewer than
    [batch_size] tokens at the end are dropped. *)
Theorem batchify_single_pass (data : list Z) (num_passes : nat)
        (starts : list nat) (Hnp : (num_passes <= 1)%nat) :
  let num_step := (length data / batch_size)%nat in
  exists bd,
    batchify batch_size data num_passes starts = inr bd
    /\ has_shape batch_size num_step bd
    /\ concat bd = firstn (batch_size * num_step) data
    /\ (length data - length (concat bd) < batch_size)%nat
    /\ forall i j, (i < batch_size)%nat -> (j < num_step)%nat ->
                   at2 bd i j = nth_error data (i * num_step + j).
Proof.
  cbv zeta. unfold batchify.
  replace (1 <? num_passes)%nat with false
    by (symmetry; apply Nat.ltb_ge; lia).
  replace (batch_size =? 0)%nat with false
    by (symmetry; now apply Nat.eqb_neq).
  eexists. split; [reflexivity |]. apply batchify_rows.
Qed.

Lemma slice_double (start : nat) (data : list Z) :
  (start < length data)%nat ->
  Py.slice start (start + length data) (data ++ data) = rotate start data.
Proof.
  intros Hs. unfold Py.slice, rotate.
  replace (start + length data - start)%nat with (length data) by lia.
  rewrite skipn_app, firstn_app, length_skipn.
  replace (start - length data)%nat with 0%nat by lia. cbn [skipn].
  rewrite (firstn_all2 (n := length data)) by (rewrite length_skipn; lia).
  f_equal. f_equal. lia.
Qed.

Lemma rotate_permutation (start : nat) (data : list Z) :
  Permutation (rotate start data) data.
Proof.
  unfold rotate. rewrite <- (firstn_skipn start data) at 3.
  apply Permutation_app_comm.
Qed.

(** X10: with several passes over non-empty data and the starts
    [np.random.randint(0, data_len)] can return, every pass is the data
    rotated by its start, hence holds every token as often as the data
    does; the batch is cut from the passes laid end to end, and fewer than
    [batch_size] tokens of the last pass are dropped. *)
Theorem batchify_passes_are_rotations (data : list Z) (num_passes : nat)
        (starts : list nat)
        (Hnp : (1 < num_passes)%nat) (Hdata : data <> [])
        (Hstarts : Forall (fun start => (start < length data)%nat) starts) :
  let passes := map (fun i => rotate (nth i starts 0%nat) data)
                    (seq 0 num_passes) in
  let num_step := (num_passes * length data / batch_size)%nat in
  Forall (fun p => Permutation p data) passes
  /\ exists bd,
      batchify batch_size data num_passes starts = inr bd
      /\ has_shape batch_size num_step bd
      /\ concat bd = firstn (batch_size * num_step) (concat passes)
      /\ (num_passes * length data - length (concat bd) < batch_size)%nat.
Proof.
  cbv zeta. split.
  - apply Forall_map, Forall_forall. intros i _. apply rotate_permutation.
  - unfold batchify. cbv zeta.
    replace (1 <? num_passes)%nat with true
      by (symmetry; apply Nat.ltb_lt; lia).
    replace (length data =? 0)%nat with false
      by (symmetry; apply Nat.eqb_neq; now destruct data).
    replace (batch_size =? 0)%nat with false
      by (symmetry; now apply Nat.eqb_neq).
    assert (Hpass : map (fun i =>
                           Py.slice (nth i starts 0%nat)
                                    (nth i starts 0%nat + length data)
                                    (data ++ data))
                        (Py.range num_passes)
                    = map (fun i => rotate (nth i starts 0%nat) data)
                          (seq 0 num_passes)).
    { apply map_ext. intros i. apply slice_double.
      destruct (Nat.lt_ge_cases i (length starts)) as [Hi | Hi].
      - rewrite Forall_forall in Hstarts. apply Hstarts, nth_In, Hi.
      - rewrite nth_overflow by exact Hi. destruct data; [contradiction |].
        simpl. lia. }
    rewrite Hpass.
    set (passes := map _ (seq 0 num_passes)).
    assert (Hlen : length (concat passes) = (num_passes * length data)%nat).
    { unfold passes. clear.
      assert (H : forall n k,
                 length (concat (map (fun i => rotate (nth i starts 0%nat) data)
                                     (seq k n)))
                 = (n * length data)%nat).
      { induction n as [| n IH]; intros k; [reflexivity |].
        cbn [seq map concat]. rewrite length_app, IH.
        unfold rotate. rewrite length_app, length_skipn, length_firstn. lia. }
      apply H. }
    pose proof (batchify_rows (concat passes)) as H. cbv zeta in H.
    rewrite Hlen in *. destruct H as [H1 [H2 [H3 _]]].
    eexists. split; [reflexivity |].
    split; [exact H1 |]. split; [exact H2 | exact H3].
Qed.

End BatchifyFacts.

Lemma batchify_single_pass_witness :
  exists bd,
    batchify 2 [1; 2; 3; 4; 5; 6; 7] 1 [] = inr bd
    /\ has_shape 2 3 bd
    /\ concat bd = [1; 2; 3; 4; 5; 6].
Proof.
  destruct (batchify_single_pass 2 ltac:(discriminate) [1; 2; 3; 4; 5; 6; 7]
              1 [] ltac:(lia)) as [bd [H1 [H2 [H3 _]]]].
  exists bd. split; [exact H1 |]. split; [exact H2 | exact H3].
Defined.

Lemma batchify_passes_are_rotations_witness :
  exists bd,
    batchify 2 [1; 2; 3] 2 [1; 2]%nat = inr bd
    /\ concat bd = [2; 3; 1; 3; 1; 2].
Proof.
  destruct (proj2 (batchify_passes_are_rotations
                     2 ltac:(discriminate) [1; 2; 3] 2 [1; 2]%nat
                     ltac:(lia) ltac:(discriminate)
                     ltac:(repeat constructor)))
    as [bd [H1 [_ [H2 _]]]].
  exists bd. split; [exact H1 | exact H2].
Defined.

(** ** Runs of [create_ordered_tfrecords]: failures and records *)

Section RunStructure.

Variables (batch_size tgt_len num_core_per_host : nat).
Variables (cutoffs bin_sizes : list Z).
Variable use_tpu : bool.

Let gate : bool := (0 <? length cutoffs)%nat && use_tpu.
Let checks : option error :=
  if gate then tpu_checks batch_size num_core_per_host cutoffs bin_sizes
  else None.
Let features := add_tpu_features batch_size num_core_per_host cutoffs bin_sizes.
Let encode :=
  encode_example batch_size num_core_per_host cutoffs bin_sizes use_tpu.
Let batches :=
  batches_loop batch_size tgt_len num_core_per_host cutoffs bin_sizes use_tpu.
Let run_windows := windows_run tgt_len use_tpu.

Lemma add_tpu_features_run (idx : nat) (inputs labels : list Z) (s : St) :
  match tpu_checks batch_size num_core_per_host cutoffs bin_sizes with
  | Some e => features idx inputs labels s = (inl e, s)
  | None => exists pf s', features idx inputs labels s = (inr pf, s')
                          /\ written s' = written s
  end.
Proof.
  unfold tpu_checks, features, add_tpu_features, bind, py_assert.
  destruct (Z.of_nat (length cutoffs) - Z.of_nat (length bin_sizes) =? 2);
    cbn [negb ret raise]; [| reflexivity].
  destruct (num_core_per_host =? 0)%nat; cbn [orb raise]; [reflexivity |].
  destruct (batch_size / num_core_per_host =? 0)%nat; cbn [raise];
    [reflexivity |].
  destruct (idx mod (batch_size / num_core_per_host) =? 0)%nat;
    cbn [get put ret]; do 2 eexists; split; reflexivity.
Qed.

Lemma encode_example_run (bd : list (list Z)) (t cur idx : nat) (s : St) :
  match checks with
  | Some e => encode bd t cur idx s = (inl e, s)
  | None => exists s', encode bd t cur idx s = (inr tt, s')
                       /\ map tokens_of (written s')
                          = map tokens_of (written s) ++ [window bd t cur idx]
  end.
Proof.
  unfold checks, encode, encode_example, bind. fold gate.
  destruct gate.
  - fold features.
    pose proof (add_tpu_features_run idx
                  (Py.slice t (t + cur) (nth idx bd []))
                  (Py.slice (t + 1) (t + cur + 1) (nth idx bd [])) s) as H.
    destruct (tpu_checks _ _ _ _) as [e |].
    + now rewrite H.
    + destruct H as [pf [s' [-> Hw]]]. cbn [ret].
      unfold write_record, bind, get, put. eexists. split; [reflexivity |].
      cbn [written]. now rewrite map_app, Hw.
  - cbn [ret]. unfold write_record, bind, get, put.
    eexists. split; [reflexivity |]. cbn [written]. now rewrite map_app.
Qed.

Lemma for_each_run (bd : list (list Z)) (t cur : nat) :
  forall n k s,
    match checks with
    | Some e => n <> 0%nat ->
                for_each (seq k n) (encode bd t cur) s = (inl e, s)
    | None => exists s', for_each (seq k n) (encode bd t cur) s = (inr tt, s')
                         /\ map tokens_of (written s')
                            = map tokens_of (written s)
                              ++ map (window bd t cur) (seq k n)
    end.
Proof.
  intros n k s. pose proof (encode_example_run bd t cur) as He.
  destruct checks as [e |].
  - intros Hn. destruct n as [| n]; [contradiction |].
    cbn [seq for_each]. unfold bind. now rewrite He.
  - revert k s. induction n as [| n IH]; intros k s; cbn [seq for_each map].
    + eexists. split; [reflexivity |]. now rewrite app_nil_r.
    + unfold bind. destruct (He k s) as [s1 [-> Hw1]].
      destruct (IH (S k) s1) as [s2 [-> Hw2]].
      eexists. split; [reflexivity |].
      rewrite Hw2, Hw1, <- app_assoc. reflexivity.
Qed.

Lemma batches_loop_run (bd : list (list Z)) (ncols : nat) :
  forall ts nb s,
    (run_windows ncols ts = [] -> batches bd ncols ts nb s = (inr nb, s))
    /\ match checks with
       | Some e => run_windows ncols ts <> [] -> batch_size <> 0%nat ->
                   batches bd ncols ts nb s = (inl e, s)
       | None =>
           exists s',
             batches bd ncols ts nb s
             = (inr (nb + length (run_windows ncols ts))%nat, s')
             /\ map tokens_of (written s')
                = map tokens_of (written s)
                  ++ flat_map (fun t =>
                                 map (window bd t
                                             (Nat.min (ncols - 1 - t) tgt_len))
                                     (seq 0 batch_size))
                              (run_windows ncols ts)
       end.
Proof.
  induction ts as [| t ts IH]; intros nb s;
    cbn [batches batches_loop run_windows windows_run].
  - split; [reflexivity |]. destruct checks; [congruence |].
    eexists. cbn [length flat_map]. rewrite Nat.add_0_r, app_nil_r.
    split; reflexivity.
  - destruct (use_tpu && _) eqn:Hbrk.
    + split; [reflexivity |]. destruct checks; [congruence |].
      eexists. cbn [length flat_map]. rewrite Nat.add_0_r, app_nil_r.
      split; reflexivity.
    + split; [discriminate |].
      pose proof (for_each_run bd t (Nat.min (ncols - 1 - t) tgt_len)
                               batch_size 0 s) as Hf.
      unfold bind, Py.range. fold encode.
      destruct checks as [e |] eqn:Hchk.
      * intros _ Hbs. now rewrite (Hf Hbs).
      * destruct Hf as [s1 [-> Hw1]].
        destruct (IH (S nb) s1) as [_ [s2 [Hrun Hw2]]].
        fold batches. rewrite Hrun. eexists. split.
        -- f_equal. f_equal. cbn [length]. lia.
        -- rewrite Hw2, Hw1, <- app_assoc. reflexivity.
Qed.

End RunStructure.

(** The windows run over the starts of [range(0, stop, tgt_len)]. *)
Lemma windows_run_range (tgt_len : nat) (use_tpu : bool) (ncols : nat) :
  tgt_len <> 0%nat ->
  windows_run tgt_len use_tpu ncols (Py.range_step (ncols - 1) tgt_len)
  = map (fun k => k * tgt_len)%nat
        (seq 0 (if use_tpu then (ncols - 1) / tgt_len
                else (ncols - 1 + tgt_len - 1) / tgt_len)).
Proof.
  intros Ht. unfold Py.range_step.
  set (stop := (ncols - 1)%nat).
  set (N := ((stop + tgt_len - 1) / tgt_len)%nat).
  set (F := (stop / tgt_len)%nat).
  assert (HFN : (F <= N)%nat).
  { unfold F, N. apply Nat.Div0.div_le_mono. lia. }
  assert (Hfull : forall k, (Nat.min (stop - k * tgt_len) tgt_len <? tgt_len)%nat
                            = negb (k <? F)%nat).
  { intros k. unfold F.
    pose proof (Nat.div_mod_eq stop tgt_len) as Hdm.
    pose proof (Nat.mod_upper_bound stop tgt_len Ht) as Hm.
    destruct (Nat.ltb_spec k (stop / tgt_len)) as [Hk | Hk]; cbn [negb].
    - apply Nat.ltb_ge. nia.
    - apply Nat.ltb_lt. nia. }
  assert (Hgen : forall n a,
             windows_run tgt_len use_tpu ncols
                         (map (fun k => k * tgt_len)%nat (seq a n))
             = map (fun k => k * tgt_len)%nat
                   (seq a (if use_tpu then Nat.min (a + n) F - a else n))).
  { induction n as [| n IH]; intros a; cbn [seq map windows_run].
    - destruct use_tpu; [| reflexivity].
      now replace (Nat.min (a + 0) F - a)%nat with 0%nat by lia.
    - fold stop. rewrite Hfull, IH. destruct use_tpu; cbn [andb]; [| reflexivity].
      destruct (Nat.ltb_spec a F) as [Ha | Ha]; cbn [negb].
      + replace (Nat.min (a + S n) F - a)%nat
          with (S (Nat.min (S a + n) F - S a)) by lia.
        reflexivity.
      + now replace (Nat.min (a + S n) F - a)%nat with 0%nat by lia. }
  rewrite Hgen. destruct use_tpu; [| reflexivity].
  f_equal. f_equal. lia.
Qed.


Lemma batchify_shape (batch_size : nat) (data : list Z) (num_passes : nat)
      (starts : list nat) (bd : list (list Z)) :
  batchify batch_size data num_passes starts = inr bd ->
  has_shape batch_size (length (hd [] bd)) bd.
Proof.
  intros Hb. pose proof (batchify_nonzero _ _ _ _ _ Hb) as Hnz.
  unfold batchify in Hb.
  destruct (if (1 <? num_passes)%nat then _ else _) as [e | flat];
    [discriminate |].
  destruct (batch_size =? 0)%nat; [discriminate |].
  injection Hb as <-. unfold Py.slice_to.
  pose proof (Nat.div_mod_eq (length flat) batch_size) as Hdm.
  assert (Hs : has_shape batch_size (length flat / batch_size)
                 (Py.chunk batch_size (length flat / batch_size)
                    (firstn (batch_size * (length flat / batch_size)) flat))).
  { apply has_shape_chunk. rewrite length_firstn. lia. }
  now rewrite (hd_shape _ _ _ Hs) by lia.
Qed.

Lemma length_concat_uniform {A} (x : list (list A)) (c : nat) :
  Forall (fun r => length r = c) x ->
  length (concat x) = (length x * c)%nat.
Proof.
  induction 1 as [| r x Hr _ IH]; [reflexivity |].
  cbn [concat length]. rewrite length_app, Hr, IH. lia.
Qed.

(** The windows of one row, laid end to end. *)
Lemma concat_windows (T stop : nat) (row : list Z) :
  forall n,
    concat (map (fun k => firstn (Nat.min (stop - k * T) T)
                                 (skipn (k * T) row))
                (seq 0 n))
    = firstn (Nat.min (n * T) stop) row.
Proof.
  induction n as [| n IH]; [reflexivity |].
  rewrite seq_S, map_app, concat_app, IH. cbn [Nat.add map concat].
  rewrite app_nil_r.
  destruct (Nat.le_gt_cases (n * T) stop) as [Hle | Hgt].
  - replace (Nat.min (n * T) stop) with (n * T)%nat by lia.
    rewrite <- firstn_plus. f_equal. lia.
  - replace (Nat.min (stop - n * T) T) with 0%nat by lia.
    cbn [firstn]. rewrite app_nil_r. f_equal. lia.
Qed.

(** A run that returns has written the windows of all rows, window by
    window. *)
Lemma run_success_records
      (batch_size tgt_len num_core_per_host : nat)
      (cutoffs bin_sizes : list Z) (use_tpu : bool)
      (data : list Z) (num_passes : nat) (starts : list nat)
      (nb : nat) (s : St) :
  create_ordered_tfrecords batch_size tgt_len num_core_per_host cutoffs
                           bin_sizes use_tpu data num_passes starts
                           initial_state
  = (inr nb, s) ->
  exists bd,
    batchify batch_size data num_passes starts = inr bd
    /\ has_shape batch_size (length (hd [] bd)) bd
    /\ batch_size <> 0%nat /\ tgt_len <> 0%nat
    /\ nb = (if use_tpu then (length (hd [] bd) - 1) / tgt_len
             else (length (hd [] bd) - 1 + tgt_len - 1) / tgt_len)%nat
    /\ map tokens_of (written s)
       = concat (map (fun k =>
                        map (window bd (k * tgt_len)
                               (Nat.min (length (hd [] bd) - 1 - k * tgt_len)
                                        tgt_len))
                            (seq 0 batch_size))
                     (seq 0 nb)).
Proof.
  unfold create_ordered_tfrecords. intros Hrun.
  destruct (batchify batch_size data num_passes starts) as [e | bd] eqn:Hb;
    [discriminate |].
  destruct (Nat.eqb_spec tgt_len 0) as [Hz | Hz]; [discriminate |].
  pose proof (batchify_nonzero _ _ _ _ _ Hb) as Hnz.
  exists bd. split; [reflexivity |]. split; [now apply batchify_shape in Hb |].
  split; [exact Hnz |]. split; [exact Hz |].
  set (ncols := length (hd [] bd)) in *.
  pose proof (windows_run_range tgt_len use_tpu ncols Hz) as HW.
  set (NB := if use_tpu then _ else _) in *.
  destruct (batches_loop_run batch_size tgt_len num_core_per_host cutoffs
              bin_sizes use_tpu bd ncols
              (Py.range_step (ncols - 1) tgt_len) 0 initial_state)
    as [Hnone Hsome].
  rewrite HW in Hnone, Hsome.
  destruct NB as [| n] eqn:ENB.
  - rewrite Hnone in Hrun by reflexivity. injection Hrun as <- <-.
    split; reflexivity.
  - destruct (if (0 <? length cutoffs)%nat && use_tpu then _ else _)
      as [e |].
    + rewrite Hsome in Hrun by (assumption || discriminate). discriminate.
    + destruct Hsome as [s' [Hr Hw]]. rewrite Hr in Hrun.
      injection Hrun as <- <-. rewrite length_map, length_seq.
      split; [reflexivity |]. rewrite Hw. cbn [initial_state written map app].
      rewrite flat_map_concat_map, map_map. reflexivity.
Qed.

(** X11: a run of [create_ordered_tfrecords] that returns has written
    [num_batch * batch_size] records, batch after batch and row after row:
    record [k * batch_size + idx] holds the tokens of row [idx] from column
    [k * tgt_len] on as its inputs and the same stretch one column later as
    its labels, both of the same non-zero length, which is [tgt_len] under
    [use_tpu]; [num_batch] is the number of full windows under [use_tpu]
    and the number of windows otherwise. *)
Theorem records_are_row_windows
        (batch_size tgt_len num_core_per_host : nat)
        (cutoffs bin_sizes : list Z) (use_tpu : bool)
        (data : list Z) (num_passes : nat) (starts : list nat)
        (nb : nat) (s : St)
        (Hrun : create_ordered_tfrecords batch_size tgt_len num_core_per_host
                                         cutoffs bin_sizes use_tpu data
                                         num_passes starts initial_state
                = (inr nb, s)) :
  exists bd,
    batchify batch_size data num_passes starts = inr bd
    /\ nb = (if use_tpu then (length (hd [] bd) - 1) / tgt_len
             else (length (hd [] bd) - 1 + tgt_len - 1) / tgt_len)%nat
    /\ length (written s) = (nb * batch_size)%nat
    /\ forall k idx,
        (k < nb)%nat -> (idx < batch_size)%nat ->
        exists e,
          nth_error (written s) (k * batch_size + idx) = Some e
          /\ tokens_of e
             = window bd (k * tgt_len)
                      (Nat.min (length (hd [] bd) - 1 - k * tgt_len) tgt_len)
                      idx
          /\ length (labels e) = length (inputs e)
          /\ (0 < length (inputs e) <= tgt_len)%nat
          /\ (use_tpu = true -> length (inputs e) = tgt_len).
Proof.
  destruct (run_success_records _ _ _ _ _ _ _ _ _ _ _ Hrun)
    as [bd [Hb [Hs [Hnz [Hz [Hnb Hw]]]]]].
  exists bd. split; [exact Hb |]. split; [exact Hnb |].
  set (ncols := length (hd [] bd)) in *.
  set (rows := map _ (seq 0 nb)) in Hw.
  assert (Hrows : Forall (fun r => length r = batch_size) rows).
  { unfold rows. apply Forall_map, Forall_forall. intros k _.
    now rewrite length_map, length_seq. }
  split.
  - rewrite <- (length_map tokens_of), Hw.
    rewrite (length_concat_uniform rows batch_size Hrows).
    unfold rows. now rewrite length_map, length_seq.
  - intros k idx Hk Hidx.
    assert (Hnth : nth_error (map tokens_of (written s)) (k * batch_size + idx)
                   = Some (window bd (k * tgt_len)
                             (Nat.min (ncols - 1 - k * tgt_len) tgt_len) idx)).
    { rewrite Hw, (nth_error_concat_uniform rows batch_size k idx Hrows Hidx).
      unfold at2, rows. rewrite nth_error_map, nth_error_seq.
      replace (k <? nb)%nat with true by (symmetry; now apply Nat.ltb_lt).
      cbn [option_map Nat.add]. rewrite nth_error_map, nth_error_seq.
      replace (idx <? batch_size)%nat with true
        by (symmetry; now apply Nat.ltb_lt).
      reflexivity. }
    rewrite nth_error_map in Hnth.
    destruct (nth_error (written s) (k * batch_size + idx)) as [e |];
      [| discriminate].
    injection Hnth as Hin Hlab. exists e. split; [reflexivity |].
    split; [unfold tokens_of, window; now rewrite Hin, Hlab |].
    assert (Hrow : length (nth idx bd []) = ncols).
    { destruct Hs as [Hlen Hall]. rewrite Forall_forall in Hall.
      apply Hall, nth_In. lia. }
    assert (Hstart : (k * tgt_len < ncols - 1)%nat
                     /\ (use_tpu = true ->
                         (k * tgt_len + tgt_len <= ncols - 1)%nat)).
    { pose proof (Nat.div_mod_eq (ncols - 1) tgt_len) as D1.
      pose proof (Nat.mod_upper_bound (ncols - 1) tgt_len Hz) as M1.
      pose proof (Nat.div_mod_eq (ncols - 1 + tgt_len - 1) tgt_len) as D2.
      pose proof (Nat.mod_upper_bound (ncols - 1 + tgt_len - 1) tgt_len Hz)
        as M2.
      destruct use_tpu; subst nb; split; intros; try discriminate; nia. }
    rewrite Hin, Hlab. unfold Py.slice.
    rewrite !length_firstn, !length_skipn, Hrow.
    destruct Hstart as [H1 H2]. split; [lia |]. split; [lia |].
    intros Htpu. specialize (H2 Htpu). lia.
Qed.

(** X12: the records of a run that returns hold every row without gap or
    overlap: for each row, the inputs of its records laid end to end are
    the row's first [kept] tokens and the labels are the [kept] tokens
    from the second on, where [kept] is all but the last token of the row
    without [use_tpu], and with it the [num_batch * tgt_len] tokens of the
    full windows, fewer than [tgt_len] short of that. *)
Theorem records_rebuild_rows
        (batch_size tgt_len num_core_per_host : nat)
        (cutoffs bin_sizes : list Z) (use_tpu : bool)
        (data : list Z) (num_passes : nat) (starts : list nat)
        (nb : nat) (s : St) (idx : nat)
        (Hrun : create_ordered_tfrecords batch_size tgt_len num_core_per_host
                                         cutoffs bin_sizes use_tpu data
                                         num_passes starts initial_state
                = (inr nb, s))
        (Hidx : (idx < batch_size)%nat) :
  exists bd,
    batchify batch_size data num_passes starts = inr bd
    /\ let ncols := length (hd [] bd) in
       let kept := if use_tpu then (nb * tgt_len)%nat else (ncols - 1)%nat in
       let recs := map tokens_of (written s) in
       let of_row := map (fun k => nth (k * batch_size + idx) recs ([], []))
                         (seq 0 nb) in
       concat (map fst of_row) = firstn kept (nth idx bd [])
       /\ concat (map snd of_row) = firstn kept (skipn 1 (nth idx bd []))
       /\ (kept <= ncols - 1 < kept + tgt_len)%nat.
Proof.
  destruct (run_success_records _ _ _ _ _ _ _ _ _ _ _ Hrun)
    as [bd [Hb [Hs [Hnz [Hz [Hnb Hw]]]]]].
  exists bd. split; [exact Hb |]. cbv zeta.
  set (ncols := length (hd [] bd)) in *.
  set (rows := map _ (seq 0 nb)) in Hw.
  assert (Hrows : Forall (fun r => length r = batch_size) rows).
  { unfold rows. apply Forall_map, Forall_forall. intros k _.
    now rewrite length_map, length_seq. }
  assert (Hrec : forall k, (k < nb)%nat ->
                           nth (k * batch_size + idx)
                               (map tokens_of (written s)) ([], [])
                           = window bd (k * tgt_len)
                               (Nat.min (ncols - 1 - k * tgt_len) tgt_len) idx).
  { intros k Hk. apply nth_error_nth.
    rewrite Hw, (nth_error_concat_uniform rows batch_size k idx Hrows Hidx).
    unfold at2, rows. rewrite nth_error_map, nth_error_seq.
    replace (k <? nb)%nat with true by (symmetry; now apply Nat.ltb_lt).
    cbn [option_map Nat.add]. rewrite nth_error_map, nth_error_seq.
    replace (idx <? batch_size)%nat with true
      by (symmetry; now apply Nat.ltb_lt).
    reflexivity. }
  assert (Hkept : (Nat.min (nb * tgt_len) (ncols - 1)
                   = if use_tpu then nb * tgt_len else ncols - 1)%nat
                  /\ ((if use_tpu then nb * tgt_len else ncols - 1)
                      <= ncols - 1
                      < (if use_tpu then nb * tgt_len else ncols - 1)
                        + tgt_len)%nat).
  { pose proof (Nat.div_mod_eq (ncols - 1) tgt_len) as D1.
    pose proof (Nat.mod_upper_bound (ncols - 1) tgt_len Hz) as M1.
    pose proof (Nat.div_mod_eq (ncols - 1 + tgt_len - 1) tgt_len) as D2.
    pose proof (Nat.mod_upper_bound (ncols - 1 + tgt_len - 1) tgt_len Hz)
      as M2.
    destruct use_tpu; subst nb; nia. }
  destruct Hkept as [Hmin Hbound].
  rewrite !map_map. split; [| split; [| exact Hbound]].
  - rewrite <- Hmin, <- concat_windows. f_equal.
    apply map_ext_in. intros k Hk. apply in_seq in Hk.
    rewrite Hrec by lia. unfold window, Py.slice. cbn [fst].
    f_equal. lia.
  - rewrite <- Hmin, <- concat_windows. f_equal.
    apply map_ext_in. intros k Hk. apply in_seq in Hk.
    rewrite Hrec by lia. unfold window, Py.slice. cbn [snd].
    rewrite skipn_skipn. f_equal; try lia; try (f_equal; lia).
Qed.

(** X13: a run of [create_ordered_tfrecords] is all or nothing: when it
    raises, no record has been written and the counters are untouched.
    It returns exactly when [batchify] succeeds, [tgt_len] is not zero
    and, if the permutation features are on and some window is full, the
    lengths of [cutoffs] and [bin_sizes] differ by two and
    [batch_size // num_core_per_host] is defined and not zero. *)
Theorem run_is_all_or_nothing
        (batch_size tgt_len num_core_per_host : nat)
        (cutoffs bin_sizes : list Z) (use_tpu : bool)
        (data : list Z) (num_passes : nat) (starts : list nat) :
  let r := create_ordered_tfrecords batch_size tgt_len num_core_per_host
                                    cutoffs bin_sizes use_tpu data num_passes
                                    starts initial_state in
  (forall e, fst r = inl e -> snd r = initial_state)
  /\ ((exists nb, fst r = inr nb)
      <-> exists bd,
          batchify batch_size data num_passes starts = inr bd
          /\ tgt_len <> 0%nat
          /\ ((0 <? length cutoffs)%nat && use_tpu = false
              \/ (length (hd [] bd) - 1 < tgt_len)%nat
              \/ tpu_checks batch_size num_core_per_host cutoffs bin_sizes
                 = None)).
Proof.
  cbv zeta. unfold create_ordered_tfrecords.
  destruct (batchify batch_size data num_passes starts) as [e | bd] eqn:Hb.
  { cbn. split; [reflexivity |]. split.
    - intros [nb H]. discriminate.
    - intros [bd [H _]]. discriminate. }
  pose proof (batchify_nonzero _ _ _ _ _ Hb) as Hnz.
  destruct (Nat.eqb_spec tgt_len 0) as [Hz | Hz].
  { cbn. split; [reflexivity |]. split.
    - intros [nb H]. discriminate.
    - intros [bd' [_ [H _]]]. contradiction. }
  set (ncols := length (hd [] bd)).
  pose proof (windows_run_range tgt_len use_tpu ncols Hz) as HW.
  destruct (batches_loop_run batch_size tgt_len num_core_per_host cutoffs
              bin_sizes use_tpu bd ncols
              (Py.range_step (ncols - 1) tgt_len) 0 initial_state)
    as [Hnone Hsome].
  rewrite HW in Hnone, Hsome.
  destruct ((0 <? length cutoffs)%nat && use_tpu) eqn:Hgate.
  - assert (Htpu : use_tpu = true) by (apply andb_prop in Hgate; tauto).
    subst use_tpu.
    destruct ((ncols - 1) / tgt_len)%nat as [| n] eqn:EF.
    + rewrite Hnone by reflexivity. cbn [fst snd].
      split; [discriminate |]. split; [| now eexists].
      intros _. exists bd. split; [reflexivity |]. split; [exact Hz |].
      right. left. apply Nat.div_small_iff in EF; assumption.
    + destruct (tpu_checks _ _ _ _) as [e |] eqn:Hchk.
      * rewrite Hsome by (assumption || discriminate). cbn [fst snd].
        split; [reflexivity |]. split; [intros [nb H]; discriminate |].
        intros [bd' [Hbd' [_ [H | [H | H]]]]]; try discriminate.
        injection Hbd' as <-. fold ncols in H.
        apply Nat.div_small in H. lia.
      * destruct Hsome as [s' [-> _]]. cbn [fst snd].
        split; [discriminate |]. split; [| now eexists].
        intros _. exists bd. split; [reflexivity |]. split; [exact Hz |].
        right. right. reflexivity.
  - destruct Hsome as [s' [-> _]]. cbn [fst snd].
    split; [discriminate |]. split; [| now eexists].
    intros _. exists bd. split; [reflexivity |]. split; [exact Hz |].
    left. reflexivity.
Qed.

Lemma records_are_row_windows_witness :
  exists bd,
    batchify 2 [1; 2; 3; 4; 5; 6; 7; 8; 9; 10] 1 [] = inr bd
    /\ 2%nat = ((length (hd [] bd) - 1 + 3 - 1) / 3)%nat
    /\ length (written (mkSt [mkExample [1; 2; 3] [2; 3; 4] None;
                              mkExample [6; 7; 8] [7; 8; 9] None;
                              mkExample [4] [5] None;
                              mkExample [9] [10] None] [] []))
       = (2 * 2)%nat.
Proof.
  destruct (records_are_row_windows 2 3 1 [] [] false
              [1; 2; 3; 4; 5; 6; 7; 8; 9; 10] 1 [] 2
              (mkSt [mkExample [1; 2; 3] [2; 3; 4] None;
                     mkExample [6; 7; 8] [7; 8; 9] None;
                     mkExample [4] [5] None;
                     mkExample [9] [10] None] [] [])
              eq_refl) as [bd [H1 [H2 [H3 _]]]].
  exists bd. split; [exact H1 |]. split; [exact H2 | exact H3].
Defined.

Lemma records_rebuild_rows_witness :
  create_ordered_tfrecords 2 3 1 [] [] false [1; 2; 3; 4; 5; 6; 7; 8; 9; 10]
                           1 [] initial_state
  = (inr 2%nat, mkSt [mkExample [1; 2; 3] [2; 3; 4] None;
                      mkExample [6; 7; 8] [7; 8; 9] None;
                      mkExample [4] [5] None;
                      mkExample [9] [10] None] [] [])
  /\ (1 < 2)%nat
  /\ exists bd,
      batchify 2 [1; 2; 3; 4; 5; 6; 7; 8; 9; 10] 1 [] = inr bd
      /\ concat [[6; 7; 8]; [9]] = firstn 4 (nth 1 bd []).
Proof.
  split; [reflexivity |]. split; [lia |].
  destruct (records_rebuild_rows 2 3 1 [] [] false
              [1; 2; 3; 4; 5; 6; 7; 8; 9; 10] 1 [] 2
              (mkSt [mkExample [1; 2; 3] [2; 3; 4] None;
                     mkExample [6; 7; 8] [7; 8; 9] None;
                     mkExample [4] [5] None;
                     mkExample [9] [10] None] [] [])
              1 eq_refl ltac:(lia)) as [bd [H1 H2]].
  exists bd. split; [exact H1 |].
  cbv zeta in H2. destruct H2 as [H2 _].
  injection H1 as <-. exact H2.
Defined.

(** ** The parser's permutation matrices *)

Section ParserFacts.

Lemma pairs_flatten (l : list (Z * Z)) : pairs (flatten_tuples l) = l.
Proof.
  induction l as [| [p c] l IH]; [reflexivity |].
  cbn [flatten_tuples flat_map app fst snd pairs].
  fold (flatten_tuples l). now rewrite IH.
Qed.

Lemma length_flatten (l : list (Z * Z)) :
  length (flatten_tuples l) = (2 * length l)%nat.
Proof.
  induction l as [| [p c] l IH]; [reflexivity |].
  cbn [flatten_tuples flat_map app length]. fold (flatten_tuples l).
  rewrite IH. lia.
Qed.

Lemma nth_set_nth_other {A} (i j : nat) (v d : A) (l : list A) :
  i <> j -> nth j (Py.set_nth i v l) d = nth j l d.
Proof.
  revert i j. induction l as [| a l IH]; intros [| i] [| j] Hne;
    simpl; try reflexivity; try congruence.
  apply IH. congruence.
Qed.

(** Every bucket reads and advances its own counter only. *)
Lemma add_perm_from_exact (bin_sizes : list Z) (ppb : list (list nat)) :
  forall b cnts j,
    (b + length ppb <= length cnts)%nat -> (j < length ppb)%nat ->
    nth_error (fst (add_perm_from b ppb bin_sizes cnts)) j
    = Some (let a := assigned_slots (nth j ppb []) (nth (b + j) cnts 0)
                                    (nth (b + j) bin_sizes 0) in
            mkPerm (Z.of_nat (length a)) (flatten_tuples a)).
Proof.
  induction ppb as [| pos ppb IH]; intros b cnts j Hlen Hj;
    cbn [length] in *; [lia |].
  cbn [add_perm_from]. rewrite fill_bin_assigned by lia. cbn [fst snd].
  destruct j as [| j]; cbn [nth_error nth].
  - now rewrite Nat.add_0_r.
  - rewrite IH by (rewrite ?length_set_nth; lia).
    rewrite nth_set_nth_other by lia.
    now replace (S b + j)%nat with (b + S j)%nat by lia.
Qed.

Lemma length_add_perm_from (bin_sizes : list Z) (ppb : list (list nat)) :
  forall b cnts,
    length (fst (add_perm_from b ppb bin_sizes cnts)) = length ppb.
Proof.
  induction ppb as [| pos ppb IH]; intros b cnts; [reflexivity |].
  cbn [add_perm_from fst length]. now rewrite IH.
Qed.

Lemma where_from_increasing (mask : list bool) :
  forall k, increasing_from k (Py.where_from k mask)
            /\ Forall (fun p => (p < k + length mask)%nat)
                      (Py.where_from k mask).
Proof.
  induction mask as [| m mask IH]; intros k; cbn [Py.where_from length].
  - split; [exact I | constructor].
  - destruct (IH (S k)) as [Hinc Hall].
    assert (Hall' : Forall (fun p => (p < k + S (length mask))%nat)
                           (Py.where_from (S k) mask)).
    { eapply Forall_impl; [| exact Hall]. intros p Hp. simpl in Hp. lia. }
    destruct m.
    + split; [split; [lia | exact Hinc] |]. constructor; [lia | exact Hall'].
    + split; [| exact Hall'].
      clear - Hinc. destruct (Py.where_from (S k) mask) as [| p r];
        [exact I |]. destruct Hinc as [H1 H2]. split; [lia | exact H2].
Qed.

Lemma increasing_from_weaken (k k' : nat) (l : list nat) :
  (k' <= k)%nat -> increasing_from k l -> increasing_from k' l.
Proof.
  intros Hk. destruct l as [| p r]; [trivial |].
  intros [H1 H2]. split; [lia | exact H2].
Qed.

Lemma increasing_from_firstn (n : nat) (l : list nat) :
  forall k, increasing_from k l -> increasing_from k (firstn n l).
Proof.
  revert l. induction n as [| n IH]; intros [| p r] k H; try exact I.
  destruct H as [H1 H2]. split; [exact H1 | now apply IH].
Qed.

Lemma increasing_from_lower (l : list nat) :
  forall k, increasing_from k l -> Forall (fun p => (k <= p)%nat) l.
Proof.
  induction l as [| p r IH]; intros k H; constructor.
  - apply H.
  - destruct H as [H1 H2]. specialize (IH _ H2).
    eapply Forall_impl; [| exact IH]. intros q Hq. simpl in Hq. lia.
Qed.

Lemma increasing_from_NoDup (l : list nat) :
  forall k, increasing_from k l -> NoDup l.
Proof.
  induction l as [| p r IH]; intros k H; constructor.
  - destruct H as [_ H2]. intros Hin.
    pose proof (increasing_from_lower r (S p) H2) as Hl.
    rewrite Forall_forall in Hl. specialize (Hl p Hin). lia.
  - destruct H as [_ H2]. now apply (IH (S p)).
Qed.

(** Pairs whose positions increase are in lexicographic order. *)
Lemma combine_increasing (ps : list nat) :
  forall k (ss : list Z),
    increasing_from k ps ->
    indices_increasing (combine (map Z.of_nat ps) ss) = true.
Proof.
  induction ps as [| p r IH]; intros k ss H; [reflexivity |].
  destruct ss as [| c ss]; [reflexivity |].
  destruct H as [_ H2]. cbn [map combine].
  destruct r as [| p' r']; [reflexivity |].
  destruct ss as [| c' ss']; [reflexivity |].
  cbn [map combine indices_increasing].
  change (lex_lt (Z.of_nat p, c) (Z.of_nat p', c')
          && indices_increasing (combine (map Z.of_nat (p' :: r')) (c' :: ss'))
          = true).
  rewrite (IH (S p) (c' :: ss') H2), andb_true_r.
  unfold lex_lt. cbn [fst snd]. destruct H2 as [H2 _].
  replace (Z.of_nat p <? Z.of_nat p') with true
    by (symmetry; apply Z.ltb_lt; lia).
  reflexivity.
Qed.

Lemma at2_table {A} (g : nat -> nat -> A) (rows cols p c : nat) :
  (p < rows)%nat -> (c < cols)%nat ->
  at2 (map (fun p => map (fun c => g p c) (seq 0 cols)) (seq 0 rows)) p c
  = Some (g p c).
Proof.
  intros Hp Hc. unfold at2. rewrite nth_error_map, nth_error_seq.
  replace (p <? rows)%nat with true by (symmetry; now apply Nat.ltb_lt).
  cbn [option_map Nat.add]. rewrite nth_error_map, nth_error_seq.
  replace (c <? cols)%nat with true by (symmetry; now apply Nat.ltb_lt).
  reflexivity.
Qed.

Lemma existsb_index (l : list (Z * Z)) (p c : Z) :
  existsb (fun ix => (fst ix =? p) && (snd ix =? c)) l = true <-> In (p, c) l.
Proof.
  rewrite existsb_exists. split.
  - intros [[a b] [Hin H]]. cbn [fst snd] in H.
    apply andb_prop in H. destruct H as [H1 H2].
    apply Z.eqb_eq in H1, H2. now subst.
  - intros Hin. exists (p, c). split; [exact Hin |].
    cbn [fst snd]. now rewrite !Z.eqb_refl.
Qed.

Lemma NoDup_fst_functional {A B} (l : list (A * B)) (a : A) (b b' : B) :
  NoDup (map fst l) -> In (a, b) l -> In (a, b') l -> b = b'.
Proof.
  induction l as [| [x y] l IH]; intros Hnd H1 H2; [contradiction |].
  cbn [map fst] in Hnd. inversion Hnd as [| ? ? Hx Hnd']; subst.
  destruct H1 as [H1 | H1], H2 as [H2 | H2].
  - congruence.
  - injection H1 as -> ->. exfalso. apply Hx.
    now apply (in_map fst) in H2.
  - injection H2 as -> ->. exfalso. apply Hx.
    now apply (in_map fst) in H1.
  - now apply IH.
Qed.

Lemma NoDup_snd_functional {A B} (l : list (A * B)) (a a' : A) (b : B) :
  NoDup (map snd l) -> In (a, b) l -> In (a', b) l -> a = a'.
Proof.
  induction l as [| [x y] l IH]; intros Hnd H1 H2; [contradiction |].
  cbn [map snd] in Hnd. inversion Hnd as [| ? ? Hx Hnd']; subst.
  destruct H1 as [H1 | H1], H2 as [H2 | H2].
  - congruence.
  - injection H1 as -> ->. exfalso. apply Hx.
    now apply (in_map snd) in H2.
  - injection H2 as -> ->. exfalso. apply Hx.
    now apply (in_map snd) in H1.
  - now apply IH.
Qed.

Lemma In_firstn {A} (n : nat) (l : list A) (a : A) :
  In a (firstn n l) -> In a l.
Proof.
  revert l. induction n as [| n IH]; intros [| x l] H; try contradiction.
  destruct H as [H | H]; [now left | right; now apply IH].
Qed.

Lemma map_fst_combine_eq {A B} (a : list A) (b : list B) :
  length a = length b -> map fst (combine a b) = a.
Proof.
  revert b. induction a as [| x a IH]; intros [| y b] H; try discriminate;
    [reflexivity |].
  cbn [combine map fst]. f_equal. apply IH. now injection H.
Qed.

Lemma map_snd_combine_eq {A B} (a : list A) (b : list B) :
  length a = length b -> map snd (combine a b) = b.
Proof.
  revert b. induction a as [| x a IH]; intros [| y b] H; try discriminate;
    [reflexivity |].
  cbn [combine map snd]. f_equal. apply IH. now injection H.
Qed.

Lemma NoDup_map_injective {A B} (f : A -> B) (l : list A) :
  (forall x y, f x = f y -> x = y) -> NoDup l -> NoDup (map f l).
Proof.
  intros Hf. induction 1 as [| a l Ha _ IH]; cbn [map]; constructor;
    [| exact IH].
  intros Hin. apply in_map_iff in Hin. destruct Hin as [x [Hx Hin]].
  apply Hf in Hx. now subst.
Qed.

(** The assigned pairs of one bucket: positions in increasing order within
    the example, slots distinct, both without repeats. *)
Lemma assigned_slots_wf (left right : Z) (tokens : list Z) (cnt bs : Z) :
  let pos := Py.np_where (map (in_bucket left right) tokens) in
  let a := assigned_slots pos cnt bs in
  indices_increasing a = true
  /\ NoDup (map fst a) /\ NoDup (map snd a)
  /\ forall ps, In ps a ->
                0 <= fst ps < Z.of_nat (length tokens)
                /\ cnt <= snd ps < bs.
Proof.
  cbv zeta. set (pos := Py.np_where _).
  destruct (where_from_increasing (map (in_bucket left right) tokens) 0)
    as [Hinc Hall].
  fold (Py.np_where (map (in_bucket left right) tokens)) in Hinc, Hall.
  fold pos in Hinc, Hall. rewrite length_map in Hall. cbn [Nat.add] in Hall.
  unfold assigned_slots.
  set (n := Nat.min (length pos) (Z.to_nat (bs - cnt))).
  pose proof (increasing_from_firstn n pos 0 Hinc) as Hinc'.
  assert (Hl1 : length (map Z.of_nat (firstn n pos)) = n).
  { rewrite length_map, length_firstn. unfold n. lia. }
  assert (Hl2 : length (map (fun s => cnt + Z.of_nat s) (seq 0 n)) = n)
    by now rewrite length_map, length_seq.
  split; [now apply (combine_increasing _ 0%nat) |]. split; [| split].
  - rewrite map_fst_combine_eq by lia.
    apply NoDup_map_injective; [intros x y; lia |].
    now apply (increasing_from_NoDup _ 0%nat).
  - rewrite map_snd_combine_eq by lia.
    apply NoDup_map_injective; [intros x y; lia | apply seq_NoDup].
  - intros [p c] Hin. cbn [fst snd]. split.
    + apply in_combine_l in Hin. apply in_map_iff in Hin.
      destruct Hin as [q [<- Hq]]. apply In_firstn in Hq.
      rewrite Forall_forall in Hall. specialize (Hall q Hq). lia.
    + apply in_combine_r in Hin. apply in_map_iff in Hin.
      destruct Hin as [s [<- Hs]]. apply in_seq in Hs. unfold n in Hs. lia.
Qed.

End ParserFacts.

Lemma has_shape_table {A} (g : nat -> nat -> A) (rows cols : nat) :
  has_shape rows cols
            (map (fun p => map (fun c => g p c) (seq 0 cols)) (seq 0 rows)).
Proof.
  split; [now rewrite length_map, length_seq |].
  apply Forall_map, Forall_forall. intros p _.
  now rewrite length_map, length_seq.
Qed.

(** What the parser makes of one feature the encoder wrote. *)
Lemma decode_assigned (left right : Z) (tokens : list Z) (cnt bs : Z) :
  0 <= cnt <= bs ->
  let a := assigned_slots (Py.np_where (map (in_bucket left right) tokens))
                          cnt bs in
  match reshape_cnt_2 (Z.of_nat (length a)) (flatten_tuples a) with
  | None => None
  | Some tup => sparse_to_dense tup (length tokens) bs
  end
  = Some (map (fun p =>
                 map (fun c =>
                        if existsb (fun ix => (fst ix =? Z.of_nat p)
                                              && (snd ix =? Z.of_nat c)) a
                        then 1 else 0)
                     (seq 0 (Z.to_nat bs)))
              (seq 0 (length tokens))).
Proof.
  intros Hc. cbv zeta.
  destruct (assigned_slots_wf left right tokens cnt bs)
    as [Hinc [_ [_ Hin]]]. cbv zeta in Hinc, Hin.
  set (a := assigned_slots _ cnt bs) in *.
  unfold reshape_cnt_2.
  replace (Z.of_nat (length a) =? -1) with false
    by (symmetry; apply Z.eqb_neq; lia).
  replace (0 <=? Z.of_nat (length a)) with true
    by (symmetry; apply Z.leb_le; lia).
  rewrite length_flatten.
  replace (Z.of_nat (2 * length a) =? Z.of_nat (length a) * 2) with true
    by (symmetry; apply Z.eqb_eq; lia).
  cbn [andb]. rewrite pairs_flatten. unfold sparse_to_dense.
  replace (0 <=? bs) with true by (symmetry; apply Z.leb_le; lia).
  rewrite Hinc, andb_true_r. cbn [andb].
  replace (forallb _ a) with true; [reflexivity |].
  symmetry. apply forallb_forall. intros ps Hps.
  specialize (Hin ps Hps).
  apply andb_true_intro; split; [apply andb_true_intro; split;
    [apply andb_true_intro; split |] |];
    first [apply Z.leb_le | apply Z.ltb_lt]; lia.
Qed.

(** X14: the parser accepts every permutation feature the encoder writes
    for an example of [tgt_len] tokens, and turns the features of bucket
    [b] into a [tgt_len] by [bin_sizes[b]] matrix of zeros and ones that
    has a one exactly at the (position, slot) pairs assigned; a position
    holds at most one slot and a slot at most one position. *)
Theorem parser_decodes_encoder (cutoffs bin_sizes tokens cnts : list Z)
        (tgt_len : nat)
        (Hlen : Z.of_nat (length cutoffs) - Z.of_nat (length bin_sizes) = 2)
        (Hcnt : counters_valid bin_sizes cnts)
        (Htok : length tokens = tgt_len) :
  let ppb := pos_per_bin cutoffs tokens in
  let features := fst (_add_perm_feature ppb bin_sizes cnts) in
  exists perms,
    _process_perm_feature tgt_len bin_sizes features = Some perms
    /\ length perms = length bin_sizes
    /\ forall b,
        (b < length bin_sizes)%nat ->
        let perm := nth b perms [] in
        let assigned := assigned_slots (nth b ppb []) (nth b cnts 0)
                                       (nth b bin_sizes 0) in
        has_shape tgt_len (Z.to_nat (nth b bin_sizes 0)) perm
        /\ (forall p c,
               (p < tgt_len)%nat -> (c < Z.to_nat (nth b bin_sizes 0%Z))%nat ->
               (at2 perm p c = Some 1
                /\ In (Z.of_nat p, Z.of_nat c) assigned)
               \/ (at2 perm p c = Some 0
                   /\ ~ In (Z.of_nat p, Z.of_nat c) assigned))
        /\ (forall p c c',
               at2 perm p c = Some 1 -> at2 perm p c' = Some 1 -> c = c')
        /\ (forall p p' c,
               at2 perm p c = Some 1 -> at2 perm p' c = Some 1 -> p = p').
Proof.
  cbv zeta. subst tgt_len.
  set (ppb := pos_per_bin cutoffs tokens).
  assert (Hppb : length ppb = length bin_sizes).
  { unfold ppb, pos_per_bin. rewrite length_map, length_tail_buckets. lia. }
  pose proof (Forall2_length Hcnt) as Hcl.
  set (asg := fun b => assigned_slots (nth b ppb []) (nth b cnts 0)
                                      (nth b bin_sizes 0)).
  set (table := fun b =>
         map (fun p =>
                map (fun c =>
                       if existsb (fun ix => (fst ix =? Z.of_nat p)
                                             && (snd ix =? Z.of_nat c))
                                  (asg b)
                       then 1 else 0)
                    (seq 0 (Z.to_nat (nth b bin_sizes 0))))
             (seq 0 (length tokens))).
  assert (Hpos : forall b, (b < length bin_sizes)%nat ->
                           exists left right,
                             nth b ppb []
                             = Py.np_where (map (in_bucket left right) tokens)).
  { intros b Hb. unfold ppb, pos_per_bin.
    rewrite (nth_map_lt _ _ b (0, 0)) by (rewrite length_tail_buckets; lia).
    now do 2 eexists. }
  assert (Hdec : _process_perm_feature (length tokens) bin_sizes
                   (fst (_add_perm_feature ppb bin_sizes cnts))
                 = Some (map table (seq 0 (length bin_sizes)))).
  { unfold _process_perm_feature, Py.range. apply map_opt_some.
    apply Forall_forall. intros b Hb. apply in_seq in Hb.
    unfold _add_perm_feature.
    rewrite add_perm_from_exact by lia. cbv zeta. cbn [Nat.add n_tup tup].
    destruct (Hpos b ltac:(lia)) as [left [right Hp]].
    unfold table, asg. rewrite Hp.
    apply decode_assigned.
    apply (Forall2_nth_Z _ _ _ b Hcnt). lia. }
  exists (map table (seq 0 (length bin_sizes))).
  split; [exact Hdec |]. split; [now rewrite length_map, length_seq |].
  intros b Hb.
  rewrite (nth_map_lt _ _ b 0%nat) by (rewrite length_seq; lia).
  rewrite seq_nth by lia. cbn [Nat.add]. fold (asg b).
  destruct (Hpos b Hb) as [left [right Hp]].
  destruct (assigned_slots_wf left right tokens (nth b cnts 0)
                              (nth b bin_sizes 0))
    as [_ [Hnd1 [Hnd2 Hin]]]. cbv zeta in Hnd1, Hnd2, Hin.
  rewrite <- Hp in Hnd1, Hnd2, Hin. fold (asg b) in Hnd1, Hnd2, Hin.
  assert (Hone : forall p c, at2 (table b) p c = Some 1 ->
                             In (Z.of_nat p, Z.of_nat c) (asg b)).
  { intros p c H.
    destruct (Nat.lt_ge_cases p (length tokens)) as [Hp' | Hp'].
    - destruct (Nat.lt_ge_cases c (Z.to_nat (nth b bin_sizes 0)))
        as [Hc' | Hc'].
      + unfold table in H. rewrite at2_table in H by assumption.
        apply existsb_index.
        destruct (existsb _ (asg b)); [reflexivity | discriminate].
      + pose proof (has_shape_table
                      (fun p c =>
                         if existsb (fun ix => (fst ix =? Z.of_nat p)
                                               && (snd ix =? Z.of_nat c))
                                    (asg b)
                         then 1 else 0)
                      (length tokens) (Z.to_nat (nth b bin_sizes 0)))
          as [_ Hrows].
        fold (table b) in Hrows. unfold at2 in H.
        destruct (nth_error (table b) p) as [row |] eqn:E; [| discriminate].
        rewrite Forall_forall in Hrows.
        pose proof (Hrows row (nth_error_In _ _ E)) as Hr.
        assert (Hnone : nth_error row c = None)
          by (apply nth_error_None; lia).
        congruence.
    - unfold at2 in H.
      assert (Hnone : nth_error (table b) p = None).
      { apply nth_error_None. unfold table.
        rewrite length_map, length_seq. lia. }
      rewrite Hnone in H. discriminate. }
  split; [apply has_shape_table |]. split; [| split].
  - intros p c Hp' Hc'. unfold table. rewrite at2_table by assumption.
    destruct (existsb _ (asg b)) eqn:E.
    + left. split; [reflexivity |]. now apply existsb_index.
    + right. split; [reflexivity |]. intros Hin'.
      apply existsb_index in Hin'. congruence.
  - intros p c c' H1 H2. apply Hone in H1, H2.
    pose proof (NoDup_fst_functional _ _ _ _ Hnd1 H1 H2). lia.
  - intros p p' c H1 H2. apply Hone in H1, H2.
    pose proof (NoDup_snd_functional _ _ _ _ Hnd2 H1 H2). lia.
Qed.

Lemma parser_decodes_encoder_witness :
  exists perms,
    _process_perm_feature 4 [2]
      (fst (_add_perm_feature (pos_per_bin [0; 10; 50] [20; 3; 30; 40])
                              [2] [0]))
    = Some perms
    /\ length perms = 1%nat.
Proof.
  destruct (parser_decodes_encoder [0; 10; 50] [2] [20; 3; 30; 40] [0] 4
              eq_refl
              ltac:(repeat constructor; lia) eq_refl)
    as [perms [H1 [H2 _]]].
  exists perms. split; [exact H1 | exact H2].
Defined.

(** ** Slots across the examples of a core *)

Section ShardFacts.

Lemma add_perm_from_counters (bin_sizes : list Z) (ppb : list (list nat)) :
  forall b cnts i,
    (b + length ppb <= length cnts)%nat ->
    nth i (snd (add_perm_from b ppb bin_sizes cnts)) 0
    = if ((b <=? i) && (i <? b + length ppb))%nat
      then nth i cnts 0
           + Z.of_nat (length (assigned_slots (nth (i - b) ppb [])
                                              (nth i cnts 0)
                                              (nth i bin_sizes 0)))
      else nth i cnts 0.
Proof.
  induction ppb as [| pos ppb IH]; intros b cnts i Hlen; cbn [length] in *.
  - cbn [add_perm_from snd].
    destruct (Nat.leb_spec b i), (Nat.ltb_spec i (b + 0)); cbn [andb];
      try reflexivity; lia.
  - cbn [add_perm_from]. rewrite fill_bin_assigned by lia. cbn [fst snd].
    rewrite IH by (rewrite length_set_nth; lia).
    destruct (Nat.leb_spec (S b) i), (Nat.ltb_spec i (S b + length ppb)),
      (Nat.leb_spec b i), (Nat.ltb_spec i (b + S (length ppb)));
      cbn [andb]; try lia.
    + rewrite nth_set_nth_other by lia.
      replace (i - b)%nat with (S (i - S b)) by lia. reflexivity.
    + now rewrite nth_set_nth_other by lia.
    + replace i with b by lia. rewrite nth_set_nth_same by lia.
      now rewrite Nat.sub_diag.
    + now rewrite nth_set_nth_other by lia.
Qed.

Lemma map_of_nat_seq (n : nat) :
  forall a k, map Z.of_nat (seq (a + k) n)
              = map (fun s => Z.of_nat a + Z.of_nat s) (seq k n).
Proof.
  induction n as [| n IH]; intros a k; [reflexivity |].
  cbn [seq map]. f_equal; [lia |].
  replace (S (a + k)) with (a + S k)%nat by lia. apply IH.
Qed.

Lemma zrange_extend (c : Z) (n : nat) :
  0 <= c ->
  zrange c ++ map (fun s => c + Z.of_nat s) (seq 0 n)
  = zrange (c + Z.of_nat n).
Proof.
  intros Hc. unfold zrange.
  replace (Z.to_nat (c + Z.of_nat n)) with (Z.to_nat c + n)%nat by lia.
  rewrite seq_app, map_app. f_equal. cbn [Nat.add].
  rewrite <- (Nat.add_0_r (Z.to_nat c)) at 1.
  rewrite map_of_nat_seq. apply map_ext. intros s. lia.
Qed.

Lemma slots_of_assigned (pos : list nat) (cnt bs : Z) :
  slots_of (mkPerm (Z.of_nat (length (assigned_slots pos cnt bs)))
                   (flatten_tuples (assigned_slots pos cnt bs)))
  = map (fun s => cnt + Z.of_nat s)
        (seq 0 (length (assigned_slots pos cnt bs))).
Proof.
  unfold slots_of. cbn [tup]. rewrite pairs_flatten.
  rewrite length_assigned_slots. unfold assigned_slots.
  apply map_snd_combine_eq.
  rewrite !length_map, length_seq, length_firstn. lia.
Qed.

(** One side of one example: the slots of every bucket are consecutive
    from the bucket's counter on, and the counter ends after them. *)
Lemma add_perm_feature_slots (cutoffs bin_sizes tokens cnts : list Z) :
  counters_valid bin_sizes cnts ->
  Z.of_nat (length cutoffs) - Z.of_nat (length bin_sizes) = 2 ->
  let r := _add_perm_feature (pos_per_bin cutoffs tokens) bin_sizes cnts in
  counters_valid bin_sizes (snd r)
  /\ forall b,
      (b < length bin_sizes)%nat ->
      exists f n,
        nth_error (fst r) b = Some f
        /\ slots_of f = map (fun s => nth b cnts 0 + Z.of_nat s) (seq 0 n)
        /\ nth b (snd r) 0 = nth b cnts 0 + Z.of_nat n.
Proof.
  intros Hv Hlen. cbv zeta.
  split; [now apply add_perm_feature_ok |].
  intros b Hb. unfold _add_perm_feature.
  assert (Hppb : length (pos_per_bin cutoffs tokens) = length bin_sizes).
  { unfold pos_per_bin. rewrite length_map, length_tail_buckets. lia. }
  pose proof (Forall2_length Hv) as Hcl.
  rewrite add_perm_from_exact by lia. cbv zeta. cbn [Nat.add].
  do 2 eexists. split; [reflexivity |]. split; [apply slots_of_assigned |].
  rewrite add_perm_from_counters by lia.
  replace ((0 <=? b) && (b <? 0 + length (pos_per_bin cutoffs tokens)))%nat
    with true
    by (symmetry; apply andb_true_intro; split;
        [apply Nat.leb_le | apply Nat.ltb_lt]; lia).
  now rewrite Nat.sub_0_r.
Qed.

Lemma mod_pred (idx m : nat) :
  (idx mod m <> 0)%nat -> ((idx - 1) mod m = idx mod m - 1)%nat.
Proof.
  intros Hj. destruct (Nat.eq_dec m 0) as [-> | Hm]; [simpl in *; lia |].
  pose proof (Nat.div_mod_eq idx m) as Hdm.
  pose proof (Nat.mod_upper_bound idx m Hm) as Hub.
  symmetry. apply (Nat.mod_unique _ _ (idx / m)); lia.
Qed.

Lemma mod_offset (B idx bs : nat) :
  (B mod bs = 0)%nat -> (idx < bs)%nat -> ((B + idx) mod bs = idx)%nat.
Proof.
  intros HB Hidx.
  pose proof (Nat.div_mod_eq B bs) as Hdm. rewrite HB in Hdm.
  symmetry. apply (Nat.mod_unique _ _ (B / bs)); lia.
Qed.

Variables (batch_size per_core : nat).

Lemma shard_prefix_app (w x : list Example) (i : nat) :
  (i < length w)%nat ->
  shard_prefix batch_size per_core (w ++ x) i
  = shard_prefix batch_size per_core w i.
Proof.
  intros Hi. unfold shard_prefix, Py.slice.
  rewrite skipn_app, firstn_app, length_skipn.
  replace (i + 1 - (i - (i mod batch_size) mod per_core)
           - (length w - (i - (i mod batch_size) mod per_core)))%nat
    with 0%nat by lia.
  cbn [firstn]. now rewrite app_nil_r.
Qed.

(** The record appended joins the shard of the record before it, or
    starts a new one. *)
Lemma extend_shard (side : nat -> Example -> list Z) (w : list Example)
      (e : Example) (B idx b : nat) (c0 : Z) (n : nat) :
  (B mod batch_size = 0)%nat -> (idx < batch_size)%nat ->
  length w = (B + idx)%nat ->
  side b e = map (fun s => c0 + Z.of_nat s) (seq 0 n) ->
  ((idx mod per_core = 0)%nat -> c0 = 0) ->
  ((idx mod per_core <> 0)%nat ->
   0 <= c0
   /\ concat (map (side b) (shard_prefix batch_size per_core w (B + idx - 1)))
      = zrange c0) ->
  concat (map (side b) (shard_prefix batch_size per_core (w ++ [e]) (B + idx)))
  = zrange (c0 + Z.of_nat n).
Proof.
  intros HB Hidx Hlen Hside Hzero Hprev.
  unfold shard_prefix in *. rewrite (mod_offset B idx batch_size HB Hidx).
  unfold Py.slice in *.
  pose proof (Nat.Div0.mod_le idx per_core) as Hjle.
  rewrite skipn_app, firstn_app, length_skipn, Hlen.
  replace (B + idx - (idx mod per_core) - (B + idx))%nat with 0%nat by lia.
  cbn [skipn].
  rewrite (firstn_all2 (skipn (B + idx - idx mod per_core) w))
    by (rewrite length_skipn; lia).
  replace (B + idx + 1 - (B + idx - idx mod per_core)
           - (B + idx - (B + idx - idx mod per_core)))%nat
    with 1%nat by lia.
  cbn [firstn]. rewrite map_app, concat_app. cbn [map concat].
  rewrite app_nil_r, Hside.
  destruct (Nat.eq_dec (idx mod per_core) 0) as [Hj | Hj].
  - rewrite (Hzero Hj), Hj, Nat.sub_0_r.
    rewrite <- Hlen, skipn_all. cbn [map concat app].
    rewrite <- (zrange_extend 0 n) by lia. reflexivity.
  - destruct (Hprev Hj) as [Hc0 Hcat].
    rewrite <- zrange_extend by exact Hc0. f_equal.
    rewrite <- Hcat. f_equal. f_equal.
    assert (Hidx1 : (idx - 1 < batch_size)%nat) by lia.
    assert (Hpos : (0 < idx)%nat).
    { destruct idx; [| lia]. rewrite Nat.Div0.mod_0_l in Hj. congruence. }
    replace (B + idx - 1)%nat with (B + (idx - 1))%nat by lia.
    rewrite (mod_offset B (idx - 1) batch_size HB Hidx1).
    rewrite (mod_pred idx per_core Hj).
    replace (B + (idx - 1) - (idx mod per_core - 1))%nat
      with (B + idx - idx mod per_core)%nat by lia.
    symmetry. apply firstn_all2. rewrite length_skipn. lia.
Qed.

End ShardFacts.

Lemma counters_valid_zero (bin_sizes : list Z) :
  Forall (fun bs => 0 <= bs) bin_sizes ->
  counters_valid bin_sizes (repeat 0 (length bin_sizes)).
Proof.
  unfold counters_valid. induction 1 as [| bs l Hbs _ IH]; cbn [length repeat];
    constructor; [lia | exact IH].
Qed.

Section ShardRun.

Variables (batch_size tgt_len num_core_per_host : nat).
Variables (cutoffs bin_sizes : list Z).

Hypothesis cutoffs_given : cutoffs <> [].
Hypothesis checks_pass :
  tpu_checks batch_size num_core_per_host cutoffs bin_sizes = None.
Hypothesis bin_sizes_nonneg : Forall (fun bs => 0 <= bs) bin_sizes.

Let per_core : nat := (batch_size / num_core_per_host)%nat.
Let features := add_tpu_features batch_size num_core_per_host cutoffs bin_sizes.
Let encode :=
  encode_example batch_size num_core_per_host cutoffs bin_sizes true.
Let batches :=
  batches_loop batch_size tgt_len num_core_per_host cutoffs bin_sizes true.

(** The shard that ends with record [i] has handed out the slots
    [0 .. c-1] of every bucket, on either side. *)
Let slots_ok (w : list Example) (i : nat) : Prop :=
  forall b,
    (b < length bin_sizes)%nat ->
    (exists c, 0 <= c <= nth b bin_sizes 0
               /\ concat (map (inp_slots b)
                              (shard_prefix batch_size per_core w i))
                  = zrange c)
    /\ (exists c, 0 <= c <= nth b bin_sizes 0
                  /\ concat (map (tgt_slots b)
                                 (shard_prefix batch_size per_core w i))
                     = zrange c).

(** Before example [idx] of the batch that starts at record [B]: a new
    shard starts, or the counters count the slots of the current one. *)
Let counters_track (B idx : nat) (s : St) : Prop :=
  (idx mod per_core = 0)%nat
  \/ (counters_valid bin_sizes (inp_cnts s)
      /\ counters_valid bin_sizes (tgt_cnts s)
      /\ forall b,
          (b < length bin_sizes)%nat ->
          concat (map (inp_slots b)
                      (shard_prefix batch_size per_core (written s)
                                    (B + idx - 1)))
          = zrange (nth b (inp_cnts s) 0)
          /\ concat (map (tgt_slots b)
                         (shard_prefix batch_size per_core (written s)
                                       (B + idx - 1)))
             = zrange (nth b (tgt_cnts s) 0)).

Lemma checks_pass_lengths :
  Z.of_nat (length cutoffs) - Z.of_nat (length bin_sizes) = 2.
Proof.
  pose proof checks_pass as H. unfold tpu_checks in H.
  destruct (Z.eqb_spec (Z.of_nat (length cutoffs)
                        - Z.of_nat (length bin_sizes)) 2) as [E | E];
    [exact E | discriminate].
Qed.

Lemma add_tpu_features_exact (idx : nat) (inputs labels : list Z) (s : St) :
  features idx inputs labels s
  = let fresh := (idx mod per_core =? 0)%nat in
    let ic := if fresh then repeat 0 (length bin_sizes) else inp_cnts s in
    let tc := if fresh then repeat 0 (length bin_sizes) else tgt_cnts s in
    let ri := _add_perm_feature (pos_per_bin cutoffs inputs) bin_sizes ic in
    let rt := _add_perm_feature (pos_per_bin cutoffs labels) bin_sizes tc in
    (inr (mkPermFeatures
            (float_mask (nth 0 cutoffs 0) (nth 1 cutoffs 0) inputs)
            (float_mask (nth 0 cutoffs 0) (nth 1 cutoffs 0) labels)
            (make_head_labels cutoffs labels) (fst ri) (fst rt)),
     mkSt (written s) (snd ri) (snd rt)).
Proof.
  pose proof checks_pass as H.
  unfold tpu_checks in H.
  unfold features, add_tpu_features, bind, py_assert. fold per_core.
  destruct (Z.of_nat (length cutoffs) - Z.of_nat (length bin_sizes) =? 2);
    cbn [negb] in H; [| discriminate]. cbn [ret].
  destruct (num_core_per_host =? 0)%nat; cbn [orb] in H; [discriminate |].
  fold per_core in H.
  destruct (per_core =? 0)%nat; [discriminate |].
  cbv zeta. destruct (idx mod per_core =? 0)%nat; reflexivity.
Qed.

Lemma encode_example_slots (bd : list (list Z)) (t cur idx B : nat) (s : St) :
  (B mod batch_size = 0)%nat -> (idx < batch_size)%nat ->
  length (written s) = (B + idx)%nat ->
  counters_track B idx s ->
  exists e s',
    encode bd t cur idx s = (inr tt, s')
    /\ written s' = written s ++ [e]
    /\ slots_ok (written s') (B + idx)
    /\ counters_track B (S idx) s'.
Proof.
  intros HB Hidx Hlen Htrack.
  unfold encode, encode_example, bind.
  replace ((0 <? length cutoffs)%nat && true) with true
    by (destruct cutoffs; [contradiction | reflexivity]).
  fold features. rewrite add_tpu_features_exact. cbv zeta. cbn [ret].
  unfold write_record, bind, get, put.
  cbn [written inp_cnts tgt_cnts].
  set (inputs := Py.slice t (t + cur) (nth idx bd [])).
  set (labels := Py.slice (t + 1) (t + cur + 1) (nth idx bd [])).
  set (ic := if (idx mod per_core =? 0)%nat then _ else inp_cnts s).
  set (tc := if (idx mod per_core =? 0)%nat then _ else tgt_cnts s).
  assert (Hic : counters_valid bin_sizes ic
                /\ counters_valid bin_sizes tc).
  { unfold ic, tc. destruct (Nat.eqb_spec (idx mod per_core) 0) as [E | E].
    - split; now apply counters_valid_zero.
    - destruct Htrack as [H | [H1 [H2 _]]]; [contradiction | now split]. }
  destruct Hic as [Hic Htc].
  destruct (add_perm_feature_slots cutoffs bin_sizes inputs ic Hic
                                   checks_pass_lengths) as [Hvi Hsi].
  destruct (add_perm_feature_slots cutoffs bin_sizes labels tc Htc
                                   checks_pass_lengths) as [Hvt Hst].
  cbv zeta in Hvi, Hsi, Hvt, Hst.
  set (ri := _add_perm_feature (pos_per_bin cutoffs inputs) bin_sizes ic) in *.
  set (rt := _add_perm_feature (pos_per_bin cutoffs labels) bin_sizes tc) in *.
  set (e := mkExample inputs labels _).
  assert (Hnew : forall b,
             (b < length bin_sizes)%nat ->
             (0 <= nth b (snd ri) 0 <= nth b bin_sizes 0
              /\ concat (map (inp_slots b)
                             (shard_prefix batch_size per_core
                                           (written s ++ [e]) (B + idx)))
                 = zrange (nth b (snd ri) 0))
             /\ (0 <= nth b (snd rt) 0 <= nth b bin_sizes 0
                 /\ concat (map (tgt_slots b)
                                (shard_prefix batch_size per_core
                                              (written s ++ [e]) (B + idx)))
                    = zrange (nth b (snd rt) 0))).
  { intros b Hb.
    destruct (Hsi b Hb) as [fi [ni [Hfi [Hsli Hci]]]].
    destruct (Hst b Hb) as [ft [nt [Hft [Hslt Hct]]]].
    pose proof (Forall2_nth_Z _ _ _ b Hvi Hb) as Hbi.
    pose proof (Forall2_nth_Z _ _ _ b Hvt Hb) as Hbt.
    pose proof (Forall2_nth_Z _ _ _ b Hic Hb) as Hb0i.
    pose proof (Forall2_nth_Z _ _ _ b Htc Hb) as Hb0t.
    cbv beta in Hbi, Hbt, Hb0i, Hb0t.
    split; (split; [lia |]).
    - rewrite Hci.
      apply (extend_shard batch_size per_core inp_slots (written s) e B idx b
                          (nth b ic 0) ni HB Hidx Hlen).
      + unfold inp_slots, e. cbn [perm_features inp_perm].
        now rewrite Hfi.
      + intros E. unfold ic.
        replace (idx mod per_core =? 0)%nat with true
          by (symmetry; now apply Nat.eqb_eq).
        apply nth_repeat.
      + intros E. split; [lia |]. unfold ic.
        replace (idx mod per_core =? 0)%nat with false
          by (symmetry; now apply Nat.eqb_neq).
        destruct Htrack as [H | [_ [_ H]]]; [contradiction |].
        apply (H b Hb).
    - rewrite Hct.
      apply (extend_shard batch_size per_core tgt_slots (written s) e B idx b
                          (nth b tc 0) nt HB Hidx Hlen).
      + unfold tgt_slots, e. cbn [perm_features tgt_perm].
        now rewrite Hft.
      + intros E. unfold tc.
        replace (idx mod per_core =? 0)%nat with true
          by (symmetry; now apply Nat.eqb_eq).
        apply nth_repeat.
      + intros E. split; [lia |]. unfold tc.
        replace (idx mod per_core =? 0)%nat with false
          by (symmetry; now apply Nat.eqb_neq).
        destruct Htrack as [H | [_ [_ H]]]; [contradiction |].
        apply (H b Hb). }
  exists e. eexists. split; [reflexivity |]. cbn [written inp_cnts tgt_cnts].
  split; [reflexivity |]. split.
  - intros b Hb. destruct (Hnew b Hb) as [[H1 H2] [H3 H4]].
    split; [exists (nth b (snd ri) 0) | exists (nth b (snd rt) 0)];
      split; assumption.
  - right. split; [exact Hvi |]. split; [exact Hvt |].
    intros b Hb. destruct (Hnew b Hb) as [[_ H2] [_ H4]].
    replace (B + S idx - 1)%nat with (B + idx)%nat by lia.
    split; assumption.
Qed.

Lemma for_each_slots (bd : list (list Z)) (t cur B : nat) :
  (B mod batch_size = 0)%nat ->
  forall n idx s,
    (idx + n <= batch_size)%nat ->
    length (written s) = (B + idx)%nat ->
    (forall i, (i < length (written s))%nat -> slots_ok (written s) i) ->
    counters_track B idx s ->
    exists s',
      for_each (seq idx n) (encode bd t cur) s = (inr tt, s')
      /\ length (written s') = (B + idx + n)%nat
      /\ forall i, (i < length (written s'))%nat -> slots_ok (written s') i.
Proof.
  intros HB. induction n as [| n IH]; intros idx s Hn Hlen Hok Htrack;
    cbn [seq for_each].
  - exists s. split; [reflexivity |]. split; [lia | exact Hok].
  - unfold bind.
    destruct (encode_example_slots bd t cur idx B s HB ltac:(lia) Hlen Htrack)
      as [e [s1 [-> [Hw [Hnew Htrack1]]]]].
    destruct (IH (S idx) s1) as [s2 [Hrun [Hlen2 Hok2]]].
    + lia.
    + rewrite Hw, length_app, Hlen. simpl. lia.
    + intros i Hi. rewrite Hw, length_app in Hi. cbn [length] in Hi.
      destruct (Nat.eq_dec i (B + idx)) as [-> | Hne]; [exact Hnew |].
      intros b Hb. rewrite Hw.
      rewrite shard_prefix_app by lia. apply Hok; lia.
    + exact Htrack1.
    + exists s2. split; [exact Hrun |]. split; [lia | exact Hok2].
Qed.

Lemma batches_loop_slots (bd : list (list Z)) (ncols : nat) :
  forall ts nb s r s',
    (exists k, length (written s) = (k * batch_size)%nat) ->
    (forall i, (i < length (written s))%nat -> slots_ok (written s) i) ->
    batches bd ncols ts nb s = (r, s') ->
    forall i, (i < length (written s'))%nat -> slots_ok (written s') i.
Proof.
  induction ts as [| t ts IH]; intros nb s r s' [k Hk] Hok Hrun;
    cbn [batches batches_loop] in Hrun.
  - injection Hrun as _ <-. exact Hok.
  - destruct (true && _) in Hrun.
    + injection Hrun as _ <-. exact Hok.
    + unfold bind, Py.range in Hrun. fold encode in Hrun.
      destruct (for_each_slots bd t (Nat.min (ncols - 1 - t) tgt_len)
                               (k * batch_size)
                               (Nat.Div0.mod_mul k batch_size)
                               batch_size 0 s)
        as [s1 [Hf [Hlen1 Hok1]]].
      * lia.
      * lia.
      * exact Hok.
      * left. apply Nat.Div0.mod_0_l.
      * rewrite Hf in Hrun. fold batches in Hrun.
        apply (IH (S nb) s1 r s'); [| exact Hok1 | exact Hrun].
        exists (S k). rewrite Hlen1. simpl. lia.
Qed.

(** X15: with the permutation features on and the argument checks
    passing, the slots of a bucket are handed out in order within a core:
    for every record written, the slots of bucket [b] in the records of
    its batch and core up to it, laid end to end, are [0, 1, ..., c - 1]
    for some [c] within [bin_sizes[b]], on the input side and on the label
    side; so no slot is used twice on a core and none lies beyond the
    capacity. *)
Theorem shard_slots_are_consecutive
        (data : list Z) (num_passes : nat) (starts : list nat) (i b : nat) :
  let r := create_ordered_tfrecords batch_size tgt_len num_core_per_host
                                    cutoffs bin_sizes true data num_passes
                                    starts initial_state in
  (i < length (written (snd r)))%nat ->
  (b < length bin_sizes)%nat ->
  let shard := shard_prefix batch_size (batch_size / num_core_per_host)
                            (written (snd r)) i in
  (exists c, 0 <= c <= nth b bin_sizes 0
             /\ concat (map (inp_slots b) shard) = zrange c)
  /\ (exists c, 0 <= c <= nth b bin_sizes 0
                /\ concat (map (tgt_slots b) shard) = zrange c).
Proof.
  cbv zeta. unfold create_ordered_tfrecords.
  destruct (batchify batch_size data num_passes starts) as [e | bd];
    [cbn; lia |].
  destruct (tgt_len =? 0)%nat; [cbn; lia |].
  intros Hi Hb.
  set (run := batches_loop _ _ _ _ _ _ _ _ _ _ _) in *.
  destruct run as [res s'] eqn:Hrun. cbn [snd] in *.
  apply (batches_loop_slots bd (length (hd [] bd))
           (Py.range_step (length (hd [] bd) - 1) tgt_len) 0 initial_state
           res s'); try assumption.
  - exists 0%nat. reflexivity.
  - cbn. intros ? ?. lia.
Qed.

End ShardRun.

Lemma shard_slots_are_consecutive_witness :
  concat (map (tgt_slots 0)
              (shard_prefix 2 (2 / 1)
                 (written (snd (create_ordered_tfrecords
                                  2 2 1 [0; 10; 50] [4] true
                                  [20; 3; 30; 40; 12; 13] 1 []
                                  initial_state))) 1))
  = [0; 1; 2]
  /\ exists c,
      0 <= c <= 4
      /\ concat (map (tgt_slots 0)
                     (shard_prefix 2 (2 / 1)
                        (written (snd (create_ordered_tfrecords
                                         2 2 1 [0; 10; 50] [4] true
                                         [20; 3; 30; 40; 12; 13] 1 []
                                         initial_state))) 1))
         = zrange c.
Proof.
  split; [reflexivity |].
  exact (proj2 (shard_slots_are_consecutive
                  2 2 1 [0; 10; 50] [4]
                  ltac:(discriminate) eq_refl ltac:(repeat constructor; lia)
                  [20; 3; 30; 40; 12; 13] 1 [] 1 0
                  ltac:(cbn; lia) ltac:(cbn; lia))).
Defined.

(** ** The records of one host *)

Lemma concat_strides {A} (S : nat) (l : list A) :
  forall n,
    concat (map (fun h => firstn S (skipn (h * S) l)) (seq 0 n))
    = firstn (n * S) l.
Proof.
  induction n as [| n IH]; [reflexivity |].
  rewrite seq_S, map_app, concat_app, IH. cbn [Nat.add map concat].
  rewrite app_nil_r, <- firstn_plus. f_equal. lia.
Qed.

(** X16: when a training file of [num_batch] batches of
    [num_core_per_host * per_core_bsz] records is shared by several hosts,
    every host reads [num_batch // num_hosts] whole batches, the hosts'
    stretches follow one another from the start of the file without gap
    or overlap, and fewer than [num_hosts] batches at the end are read by
    no host. *)
Theorem hosts_share_the_file {A} (num_batch num_hosts num_core_per_host
                                  per_core_bsz : nat) (records : list A)
        (Hhosts : (1 < num_hosts)%nat)
        (Hlen : length records
                = (num_batch * (num_core_per_host * per_core_bsz))%nat) :
  let per_host := (num_batch / num_hosts * (num_core_per_host * per_core_bsz))%nat in
  (forall host_id,
      (host_id < num_hosts)%nat ->
      host_records num_batch num_hosts num_core_per_host per_core_bsz
                   host_id records
      = firstn per_host (skipn (host_id * per_host) records)
      /\ length (host_records num_batch num_hosts num_core_per_host
                              per_core_bsz host_id records)
         = per_host)
  /\ concat (map (fun host_id =>
                    host_records num_batch num_hosts num_core_per_host
                                 per_core_bsz host_id records)
                 (seq 0 num_hosts))
     = firstn (num_hosts * per_host) records
  /\ (num_batch - num_hosts * (num_batch / num_hosts) < num_hosts)%nat.
Proof.
  cbv zeta.
  set (bsz := (num_core_per_host * per_core_bsz)%nat) in *.
  set (q := (num_batch / num_hosts)%nat).
  pose proof (Nat.div_mod_eq num_batch num_hosts) as Hdm. fold q in Hdm.
  pose proof (Nat.mod_upper_bound num_batch num_hosts ltac:(lia)) as Hm.
  assert (Heq : forall host_id,
             host_records num_batch num_hosts num_core_per_host per_core_bsz
                          host_id records
             = firstn (q * bsz) (skipn (host_id * (q * bsz)) records)).
  { intros h. unfold host_records. fold q. f_equal; [unfold bsz; lia |].
    f_equal. unfold bsz. lia. }
  split; [| split].
  - intros h Hh. split; [apply Heq |].
    rewrite Heq, length_firstn, length_skipn, Hlen.
    assert ((h + 1) * (q * bsz) <= num_batch * bsz)%nat by nia. lia.
  - erewrite map_ext; [| intros h; apply Heq]. apply concat_strides.
  - lia.
Qed.

Lemma hosts_share_the_file_witness :
  concat (map (fun host_id => host_records 5 2 1 2 host_id
                                [0; 1; 2; 3; 4; 5; 6; 7; 8; 9])
              (seq 0 2))
  = [0; 1; 2; 3; 4; 5; 6; 7].
Proof.
  exact (proj1 (proj2 (hosts_share_the_file 5 2 1 2
                         [0; 1; 2; 3; 4; 5; 6; 7; 8; 9]
                         ltac:(lia) eq_refl))).
Defined.

(** ** Planning the bucket capacities *)

Section BinSizeFacts.

Local Open Scope R_scope.

Lemma Rdiv_nonneg (x y : R) : 0 <= x -> 0 < y -> 0 <= x / y.
Proof. intros Hx Hy. unfold Rdiv. now apply Rle_mult_inv_pos. Qed.

Lemma rsum_nonneg (l : list R) : Forall (fun v => 0 <= v) l -> 0 <= rsum l.
Proof.
  induction 1 as [| v l Hv _ IH]; cbn [rsum fold_right]; [lra |].
  fold (rsum l). lra.
Qed.

Lemma np_mean_nonneg (l : list R) :
  l <> [] -> Forall (fun v => 0 <= v) l -> 0 <= np_mean l.
Proof.
  intros Hne Hl. unfold np_mean. apply Rdiv_nonneg.
  - now apply rsum_nonneg.
  - apply lt_0_INR. destruct l; [contradiction | simpl; lia].
Qed.

Lemma percents_nonneg (data : list (list (list Z))) (num_batch : nat)
      (left right : Z) (tot : nat) :
  tot <> 0%nat ->
  Forall (fun v => 0 <= v) (percents data num_batch left right tot).
Proof.
  intros Htot. unfold percents. apply Forall_map, Forall_forall.
  intros k _. apply Rdiv_nonneg; [| apply lt_0_INR; lia].
  apply rsum_nonneg, Forall_map, Forall_forall. intros row _.
  apply rsum_nonneg, Forall_map, Forall_forall. intros x _.
  unfold to_float. destruct (in_bucket left right x); lra.
Qed.

Lemma math_ceil_nonneg (x : R) : 0 <= x -> (0 <= math_ceil x)%Z.
Proof.
  intros Hx. unfold math_ceil.
  destruct (base_Int_part (- x)) as [Hle _].
  assert (H : IZR (Int_part (- x)) <= IZR 0) by (simpl; lra).
  apply le_IZR in H. lia.
Qed.

Lemma nearest_to_eight_capacity (x : Z) :
  (0 <= x)%Z ->
  (8 <= _nearest_to_eight x)%Z /\ (_nearest_to_eight x mod 8 = 0)%Z.
Proof.
  intros Hx.
  assert (Hq : (0 <= x / 8)%Z) by (apply Z.div_pos; lia).
  destruct (nearest_to_eight_cases x) as [[_ ->] | [_ ->]].
  - split; [lia |].
    replace (8 * (x / 8) + 8)%Z with ((x / 8 + 1) * 8)%Z by lia.
    apply Z.mod_mul. lia.
  - destruct (Z.max_spec 8 (8 * (x / 8))) as [[? ->] | [? ->]].
    + split; [lia |]. rewrite Z.mul_comm. apply Z.mod_mul. lia.
    + split; [lia | reflexivity].
Qed.

Lemma bin_sizes_loop_spec (std_mult : list R) (data : list (list (list Z)))
      (batch_size tgt_len num_batch : nat) :
  Forall (fun m => 0 <= m) std_mult ->
  batch_size <> 0%nat -> tgt_len <> 0%nat ->
  forall buckets b,
    match bin_sizes_loop std_mult data batch_size tgt_len num_batch b
                         buckets with
    | inr sizes =>
        length sizes = length buckets
        /\ Forall (fun s => (8 <= s)%Z /\ (s mod 8 = 0)%Z) sizes
        /\ (buckets = []
            \/ (num_batch <> 0%nat
                /\ (b + length buckets <= length std_mult)%nat))
    | inl e =>
        buckets <> []
        /\ (num_batch = 0%nat
            \/ (length std_mult < b + length buckets)%nat)
    end.
Proof.
  intros Hmult Hbs Htl.
  induction buckets as [| lr rest IH]; intros b; cbn [bin_sizes_loop].
  - split; [reflexivity |]. split; [constructor | now left].
  - cbv zeta. destruct (nth_error std_mult b) as [mult |] eqn:Em.
    + assert (Hb : (b < length std_mult)%nat)
        by (apply nth_error_Some; congruence).
      destruct (Nat.eqb_spec num_batch 0) as [Hz | Hz].
      * split; [discriminate | now left].
      * specialize (IH (S b)).
        destruct (bin_sizes_loop std_mult data batch_size tgt_len num_batch
                                 (S b) rest) as [e | sizes].
        -- split; [discriminate |]. destruct IH as [_ [H | H]];
             [contradiction | right; cbn [length]; lia].
        -- destruct IH as [Hl [Hall Hsucc]].
           split; [cbn [length]; now rewrite Hl |]. split.
           ++ constructor; [| exact Hall].
              apply nearest_to_eight_capacity, math_ceil_nonneg.
              set (pc := percents data num_batch (fst lr) (snd lr)
                                  (batch_size * tgt_len)).
              assert (Hpc : Forall (fun v => 0 <= v) pc)
                by (apply percents_nonneg; nia).
              assert (Hne : pc <> []).
              { unfold pc, percents. destruct num_batch; [contradiction |].
                discriminate. }
              pose proof (np_mean_nonneg pc Hne Hpc) as Hmean.
              pose proof (sqrt_pos
                            (np_mean (map (fun v => (v - np_mean pc)
                                                    * (v - np_mean pc)) pc)))
                as Hstd.
              fold (np_std pc) in Hstd.
              assert (Hm : 0 <= mult).
              { rewrite Forall_forall in Hmult.
                apply Hmult. eapply nth_error_In; eassumption. }
              apply Rmult_le_pos.
              ** apply Rmult_le_pos; apply pos_INR.
              ** pose proof (Rmult_le_pos _ _ Hm Hstd). lra.
           ++ right. split; [exact Hz |]. cbn [length].
              destruct Hsucc as [-> | [_ H]]; [cbn [length] |]; lia.
    + apply nth_error_None in Em.
      split; [discriminate |]. right. cbn [length]. lia.
Qed.

(** X17: [get_bin_sizes] returns exactly when there are no cutoffs, or
    [batch_size] and [tgt_len] are not zero and, if there is a tail bucket,
    the data fill at least one batch and [std_mult] has a factor for every
    tail bucket; with factors that are not negative it then plans one
    capacity per tail bucket, each a multiple of 8 and at least 8 (so that,
    with two cutoffs or more, [cutoffs] is two longer than the result). *)
Theorem get_bin_sizes_plans_capacities (data : list Z)
        (batch_size tgt_len : nat) (cutoffs : list Z) (std_mult : list R)
        (Hmult : Forall (fun m => 0 <= m) std_mult) :
  (forall sizes,
      get_bin_sizes data batch_size tgt_len cutoffs std_mult = inr sizes ->
      length sizes = (length cutoffs - 2)%nat
      /\ Forall (fun s => (8 <= s)%Z /\ (s mod 8 = 0)%Z) sizes)
  /\ ((exists sizes,
          get_bin_sizes data batch_size tgt_len cutoffs std_mult = inr sizes)
      <-> cutoffs = []
          \/ (batch_size <> 0%nat /\ tgt_len <> 0%nat
              /\ ((length cutoffs <= 2)%nat
                  \/ ((batch_size * tgt_len <= length data)%nat
                      /\ (length cutoffs - 2 <= length std_mult)%nat)))).
Proof.
  unfold get_bin_sizes.
  destruct cutoffs as [| c0 cs] eqn:Ec.
  { split.
    - intros sizes H. injection H as <-. split; [reflexivity | constructor].
    - split; [now left | now eexists]. }
  rewrite <- Ec. 
  assert (Hnil : cutoffs <> []) by (rewrite Ec; discriminate).
  destruct (Nat.eqb_spec batch_size 0) as [Hb | Hb]; cbn [orb].
  { split; [discriminate |]. split.
    - intros [sizes H]. discriminate.
    - intros [H | [H _]]; contradiction. }
  destruct (Nat.eqb_spec tgt_len 0) as [Ht | Ht].
  { split; [discriminate |]. split.
    - intros [sizes H]. discriminate.
    - intros [H | [_ [H _]]]; contradiction. }
  cbv zeta.
  set (num_batch := (length data / batch_size / tgt_len)%nat).
  assert (Hnb : num_batch <> 0%nat <-> (batch_size * tgt_len <= length data)%nat).
  { unfold num_batch. rewrite Nat.Div0.div_div.
    pose proof (Nat.div_mod_eq (length data) (batch_size * tgt_len)) as Hdm.
    pose proof (Nat.mod_upper_bound (length data) (batch_size * tgt_len)
                                    ltac:(nia)) as Hm.
    split; intros H; nia. }
  pose proof (bin_sizes_loop_spec std_mult
                (reshape3 batch_size num_batch tgt_len
                          (Py.slice_to (batch_size * num_batch * tgt_len) data))
                batch_size tgt_len num_batch Hmult Hb Ht
                (tail_buckets cutoffs) 0) as H.
  pose proof (length_tail_buckets cutoffs) as Hlt.
  destruct (bin_sizes_loop _ _ _ _ _ _ _) as [e | sizes].
  - destruct H as [Hne Hwhy]. split; [discriminate |]. split.
    + intros [sizes H]. discriminate.
    + intros [H | [_ [_ [H | [H1 H2]]]]]; [contradiction | |]; exfalso.
      * apply Hne. apply length_zero_iff_nil. lia.
      * destruct Hwhy as [Hz | Hlong]; [apply Hnb in H1; contradiction |].
        cbn [Nat.add] in Hlong. lia.
  - destruct H as [Hl [Hall Hsucc]]. split.
    + intros sizes' H. injection H as <-. split; [lia | exact Hall].
    + split; [| now eexists]. intros _. right.
      split; [exact Hb |]. split; [exact Ht |].
      destruct Hsucc as [Hnone | [Hz Hfit]].
      * left. apply (f_equal (@length _)) in Hnone. cbn [length] in Hnone. lia.
      * right. split; [now apply Hnb |]. cbn [Nat.add] in Hfit. lia.
Qed.

End BinSizeFacts.

Lemma get_bin_sizes_plans_capacities_witness :
  Forall (fun m => 0 <= m)%R [2.5; 2.5; 2.5]%R
  /\ exists sizes,
      get_bin_sizes [1; 20; 3; 30; 40; 12] 1 3 [0; 10; 50] [2.5; 2.5; 2.5]%R
      = inr sizes.
Proof.
  assert (H : Forall (fun m => 0 <= m)%R [2.5; 2.5; 2.5]%R)
    by (repeat constructor; lra).
  split; [exact H |].
  apply (proj2 (get_bin_sizes_plans_capacities
                  [1; 20; 3; 30; 40; 12] 1 3 [0; 10; 50] [2.5; 2.5; 2.5]%R H)).
  right. split; [discriminate |]. split; [discriminate |].
  right. split; simpl; lia.
Defined.

(** ** The masked loss, token by token *)

Section MaskedTokens.

Local Open Scope R_scope.

Lemma sorted_head_le_nth (l : list Z) :
  forall a, is_sorted (a :: l) = true ->
            forall j, (j < length l)%nat -> (a <= nth j l 0%Z)%Z.
Proof.
  induction l as [| b l IH]; intros a Hs j Hj; [simpl in Hj; lia |].
  pose proof (sorted_head_le a b l Hs) as Hab.
  destruct j as [| j]; [simpl; lia |].
  change (nth (S j) (b :: l) 0%Z) with (nth j l 0%Z).
  pose proof (IH b (sorted_tail a (b :: l) Hs) j ltac:(simpl in Hj; lia)).
  lia.
Qed.

Lemma sorted_nth_mono (l : list Z) :
  is_sorted l = true ->
  forall i j, (i <= j)%nat -> (j < length l)%nat ->
              (nth i l 0%Z <= nth j l 0%Z)%Z.
Proof.
  induction l as [| a l IH]; intros Hs i j Hij Hj; [simpl in Hj; lia |].
  destruct i as [| i], j as [| j]; try lia.
  - change (nth 0 (a :: l) 0%Z) with a.
    change (nth (S j) (a :: l) 0%Z) with (nth j l 0%Z).
    apply (sorted_head_le_nth l a Hs). simpl in Hj. lia.
  - change (nth (S i) (a :: l) 0%Z) with (nth i l 0%Z).
    change (nth (S j) (a :: l) 0%Z) with (nth j l 0%Z).
    apply (IH (sorted_tail a l Hs)); simpl in Hj; lia.
Qed.

(** Of terms guarded by conditions that exclude one another, the sum is
    the term of the first condition that holds. *)
Lemma rsum_exclusive (b : nat -> bool) (t : nat -> R) (l : list nat) :
  (forall i j, In i l -> In j l -> b i = true -> b j = true -> i = j) ->
  NoDup l ->
  rsum (map (fun i => if b i then t i else 0) l)
  = match find b l with
    | Some i => t i
    | None => 0
    end.
Proof.
  induction l as [| a l IH]; intros Hex Hnd; [reflexivity |].
  inversion Hnd as [| ? ? Ha Hnd']; subst.
  cbn [map rsum fold_right find].
  fold (rsum (map (fun i => if b i then t i else 0) l)).
  destruct (b a) eqn:Eb.
  - assert (Hz : rsum (map (fun i => if b i then t i else 0) l) = 0).
    { rewrite (map_ext_in _ (fun _ => 0)); [apply rsum_zero |].
      intros i Hi. destruct (b i) eqn:Ei; [| reflexivity].
      exfalso. apply Ha.
      rewrite (Hex a i (or_introl eq_refl) (or_intror Hi) Eb Ei). exact Hi. }
    rewrite Hz. lra.
  - rewrite IH; [lra | | exact Hnd'].
    intros i j Hi Hj. apply Hex; now right.
Qed.

Variables (n_token d_embed d_proj div_val : Z).
Variable cutoffs : list Z.
Variable params : Params.
Variable tie_projs : list bool.
Variable proj_same_dim : bool.
Variable vars : VarScope.

Local Notation "'hl0'" :=
  (head_logit_vec n_token d_embed d_proj div_val cutoffs params tie_projs
                  proj_same_dim vars).
Local Notation "'tlv'" :=
  (tail_logit_vec n_token d_embed d_proj div_val cutoffs params tie_projs
                  proj_same_dim vars).
Local Notation "'ends'" := (cutoff_ends n_token cutoffs).
Local Notation "'xent'" := sparse_softmax_cross_entropy_with_logits.
Local Notation "'bucket'" :=
  (fun (y : Z) (i : nat) =>
     in_bucket (nth i ends 0%Z) (nth (i + 1) ends 0%Z) y).

Lemma length_ends : length ends = (length cutoffs + 2)%nat.
Proof. unfold cutoff_ends. cbn [app length]. rewrite length_app. simpl. lia. Qed.

Lemma last_end : nth (length cutoffs + 1) ends 0%Z = n_token.
Proof.
  unfold cutoff_ends. cbn [app].
  replace (length cutoffs + 1)%nat with (S (length cutoffs)) by lia.
  cbn [nth]. rewrite app_nth2 by lia. now rewrite Nat.sub_diag.
Qed.

Lemma buckets_exclusive (y : Z) (i j : nat) :
  is_sorted ends = true ->
  (i <= length cutoffs)%nat -> (j <= length cutoffs)%nat ->
  bucket y i = true -> bucket y j = true -> i = j.
Proof.
  intros Hs Hi Hj Bi Bj. unfold in_bucket in Bi, Bj.
  apply andb_prop in Bi, Bj. destruct Bi as [Bi1 Bi2], Bj as [Bj1 Bj2].
  apply Z.leb_le in Bi1, Bj1. apply Z.ltb_lt in Bi2, Bj2.
  pose proof length_ends as Hl.
  destruct (Nat.lt_trichotomy i j) as [Hlt | [Heq | Hgt]]; [| exact Heq |].
  - pose proof (sorted_nth_mono ends Hs (i + 1) j ltac:(lia) ltac:(lia)). lia.
  - pose proof (sorted_nth_mono ends Hs (j + 1) i ltac:(lia) ltac:(lia)). lia.
Qed.

Lemma buckets_within_vocabulary (y : Z) (i : nat) :
  is_sorted ends = true -> (i <= length cutoffs)%nat ->
  bucket y i = true -> (0 <= y < n_token)%Z.
Proof.
  intros Hs Hi Bi. unfold in_bucket in Bi. apply andb_prop in Bi.
  destruct Bi as [B1 B2]. apply Z.leb_le in B1. apply Z.ltb_lt in B2.
  pose proof length_ends as Hl.
  pose proof (sorted_nth_mono ends Hs 0 i ltac:(lia) ltac:(lia)) as H0.
  pose proof (sorted_nth_mono ends Hs (i + 1) (length cutoffs + 1)
                              ltac:(lia) ltac:(lia)) as H1.
  rewrite last_end in H1. change (nth 0 ends 0%Z) with 0%Z in H0. lia.
Qed.

(** The tensor [nll] before the mean, read token by token. *)
Lemma mask_nll_tokens (hidden : T2 (list R)) (target : T2 Z) :
  cutoffs <> [] ->
  shape hidden = shape target ->
  let nll := mask_adaptive_nll n_token d_embed d_proj div_val cutoffs params
                               tie_projs proj_same_dim vars hidden target in
  shape nll = shape target
  /\ concat nll
     = map (fun n =>
              let y := nth n (concat target) 0%Z in
              let h := nth n (concat hidden) [] in
              (if bucket y 0%nat then xent (y - nth 0 ends 0%Z)%Z (hl0 h)
               else 0)
              + rsum (map (fun i =>
                             if bucket y i
                             then xent (Z.of_nat (Z.to_nat (nth 1 ends 0%Z)
                                                  + i - 1)) (hl0 h)
                                  + xent (y - nth i ends 0%Z)%Z (tlv i h)
                             else 0)
                          (seq 1 (length cutoffs))))
           (seq 0 (length (concat target))).
Proof.
  intros Hne Hsh. cbv zeta. unfold mask_adaptive_nll.
  replace (length cutoffs =? 0)%nat with false
    by (destruct cutoffs; [contradiction | reflexivity]).
  apply (concat_fold_tadd target
           (mask_tail_term n_token d_embed d_proj div_val cutoffs params
                           tie_projs proj_same_dim vars hidden target)
           (fun i n =>
              let y := nth n (concat target) 0%Z in
              if bucket y i
              then xent (Z.of_nat (Z.to_nat (nth 1 ends 0%Z) + i - 1))
                        (hl0 (nth n (concat hidden) []))
                   + xent (y - nth i ends 0%Z)%Z
                          (tlv i (nth n (concat hidden) []))
              else 0)
           (seq 1 (length cutoffs))
           (fun i _ =>
              conj (shape_mask_tail_term n_token d_embed d_proj div_val
                      cutoffs params tie_projs proj_same_dim vars
                      hidden target i)
                   (concat_mask_tail_term n_token d_embed d_proj div_val
                      cutoffs params tie_projs proj_same_dim vars
                      hidden target i Hsh))
           (tadd (map (map (fun _ : Z => 0)) target)
                 (mask_head_term n_token d_embed d_proj div_val cutoffs
                                 params tie_projs proj_same_dim vars
                                 hidden target))
           (fun n =>
              let y := nth n (concat target) 0%Z in
              if bucket y 0%nat
              then xent (y - nth 0 ends 0%Z)%Z (hl0 (nth n (concat hidden) []))
              else 0)).
  - unfold tadd. rewrite shape_map2; [apply shape_map |].
    now rewrite shape_map, shape_mask_head_term.
  - unfold tadd.
    rewrite concat_map2 by (now rewrite shape_map, shape_mask_head_term).
    rewrite concat_map_map, concat_mask_head_term by exact Hsh.
    rewrite (map_nth_seq (concat target) 0%Z) at 1.
    rewrite map_map, map2_tab. apply map_ext. intros n. cbv zeta.
    destruct (in_bucket _ _ _); lra.
Qed.

(** X18: with [return_mean=False] semantics, the masked-mode loss tensor
    has the shape of [target], and over sorted cutoffs every token gets
    the terms of one bucket at most: a head token its cross-entropy in the
    head softmax, a token of tail bucket [i] the cross-entropy of the
    bucket's cluster entry in the head softmax plus its cross-entropy in
    the tail softmax, and a target outside [0, n_token) silently gets the
    loss zero. *)
Theorem masked_nll_token_by_token (hidden : T2 (list R)) (target : T2 Z)
        (Hne : cutoffs <> []) (Hsh : shape hidden = shape target)
        (Hs : is_sorted ends = true) :
  let nll := mask_adaptive_nll n_token d_embed d_proj div_val cutoffs params
                               tie_projs proj_same_dim vars hidden target in
  shape nll = shape target
  /\ forall n,
      (n < length (concat target))%nat ->
      let y := nth n (concat target) 0%Z in
      let h := nth n (concat hidden) [] in
      nth n (concat nll) 0
      = (if in_bucket (nth 0 ends 0%Z) (nth 1 ends 0%Z) y then xent y (hl0 h)
         else match find (bucket y) (seq 1 (length cutoffs)) with
              | Some i =>
                  xent (Z.of_nat (Z.to_nat (nth 1 ends 0%Z) + i - 1)) (hl0 h)
                  + xent (y - nth i ends 0%Z)%Z (tlv i h)
              | None => 0
              end)
      /\ (~ (0 <= y < n_token)%Z -> nth n (concat nll) 0 = 0).
Proof.
  destruct (mask_nll_tokens hidden target Hne Hsh) as [Hshape Hc].
  cbv zeta in *. cbn [Nat.add] in Hc. split; [exact Hshape |]. intros n Hn.
  set (y := nth n (concat target) 0%Z). set (h := nth n (concat hidden) []).
  assert (Hval :
            nth n (concat (mask_adaptive_nll n_token d_embed d_proj div_val
                             cutoffs params tie_projs proj_same_dim vars
                             hidden target)) 0
            = (if in_bucket (nth 0 ends 0%Z) (nth 1 ends 0%Z) y
               then xent y (hl0 h)
               else match find (bucket y) (seq 1 (length cutoffs)) with
                    | Some i =>
                        xent (Z.of_nat (Z.to_nat (nth 1 ends 0%Z) + i - 1))
                             (hl0 h)
                        + xent (y - nth i ends 0%Z)%Z (tlv i h)
                    | None => 0
                    end)).
  { rewrite Hc.
    rewrite (nth_map_lt _ _ n 0%nat) by (rewrite length_seq; exact Hn).
    rewrite seq_nth by exact Hn. cbn [Nat.add]. fold y h.
    rewrite (rsum_exclusive (bucket y)
               (fun i => xent (Z.of_nat (Z.to_nat (nth 1 ends 0%Z) + i - 1))
                              (hl0 h)
                         + xent (y - nth i ends 0%Z)%Z (tlv i h))).
    - destruct (in_bucket (nth 0 ends 0%Z) (nth 1 ends 0%Z) y) eqn:E0.
      + change (nth 0 ends 0%Z) with 0%Z. rewrite Z.sub_0_r.
        destruct (find (bucket y) (seq 1 (length cutoffs))) as [i |] eqn:Ef;
          [| lra].
        apply find_some in Ef. destruct Ef as [Hi Bi]. apply in_seq in Hi.
        pose proof (buckets_exclusive y 0 i Hs ltac:(lia) ltac:(lia) E0 Bi).
        lia.
      + rewrite Rplus_0_l. reflexivity.
    - intros i j Hi Hj Bi Bj. apply in_seq in Hi, Hj.
      apply (buckets_exclusive y i j Hs); (lia || assumption).
    - apply seq_NoDup. }
  split; [exact Hval |].
  intros Hout. rewrite Hval.
  destruct (in_bucket (nth 0 ends 0%Z) (nth 1 ends 0%Z) y) eqn:E0.
  - exfalso. apply Hout.
    apply (buckets_within_vocabulary y 0 Hs ltac:(lia) E0).
  - destruct (find (bucket y) (seq 1 (length cutoffs))) as [i |] eqn:Ef;
      [| reflexivity].
    apply find_some in Ef. destruct Ef as [Hi Bi]. apply in_seq in Hi.
    exfalso. apply Hout.
    apply (buckets_within_vocabulary y i Hs ltac:(lia) Bi).
Qed.

End MaskedTokens.

(** A batch of three targets: one of the head bucket, one of the tail
    bucket and one beyond the vocabulary [[0, 20)], which gets the loss
    zero. *)
Lemma masked_nll_token_by_token_witness :
  let W := SharedTable (repeat [1%R; 0%R] 20) None in
  let vs := mkVars [] (fun _ => repeat 0%R 10) (fun _ => []) [[0%R; 0%R]] [0%R] in
  let hidden := [[[1%R; 0%R]]; [[0%R; 1%R]]; [[1%R; 1%R]]] in
  let target := [[3]; [12]; [25]] in
  is_sorted (cutoff_ends 20 [10]) = true
  /\ nth 2 (concat (mask_adaptive_nll 20 2 2 1 [10] W [true; true] true vs
                                      hidden target)) 0%R
     = 0%R.
Proof.
  intros W vs hidden target.
  split; [reflexivity |].
  exact (proj2 (proj2 (masked_nll_token_by_token
                         20 2 2 1 [10] W [true; true] true vs hidden target
                         ltac:(discriminate) eq_refl eq_refl)
                      2%nat ltac:(simpl; lia))
               ltac:(simpl; lia)).
Defined.

(** ** The corpus the repository converts *)

Section PlainRuns.

Variables (batch_size tgt_len num_core_per_host : nat).
Variables (cutoffs bin_sizes : list Z).
Variable use_tpu : bool.

Hypothesis gate_off : (0 <? length cutoffs)%nat && use_tpu = false.

Let plain (s : St) : Prop :=
  Forall (fun e => perm_features e = None) (written s).

Lemma encode_example_plain (bd : list (list Z)) (t cur idx : nat) (s : St) :
  plain s ->
  plain (snd (encode_example batch_size num_core_per_host cutoffs bin_sizes
                             use_tpu bd t cur idx s)).
Proof.
  intros Hp. unfold encode_example, bind. rewrite gate_off. cbn [ret].
  unfold write_record, bind, get, put. cbn [snd]. unfold plain.
  cbn [written]. apply Forall_app. split; [exact Hp |].
  constructor; [reflexivity | constructor].
Qed.

Lemma for_each_plain (bd : list (list Z)) (t cur : nat) :
  forall l s,
    plain s ->
    plain (snd (for_each l
                  (encode_example batch_size num_core_per_host cutoffs
                                  bin_sizes use_tpu bd t cur) s)).
Proof.
  induction l as [| idx l IH]; intros s Hp; cbn [for_each]; [exact Hp |].
  unfold bind.
  pose proof (encode_example_plain bd t cur idx s Hp) as H1.
  destruct (encode_example _ _ _ _ _ _ _ _ _ s) as [[e | u] s1];
    cbn [snd] in *; [exact H1 |].
  now apply IH.
Qed.

Lemma batches_loop_plain (bd : list (list Z)) (ncols : nat) :
  forall ts nb s,
    plain s ->
    plain (snd (batches_loop batch_size tgt_len num_core_per_host cutoffs
                             bin_sizes use_tpu bd ncols ts nb s)).
Proof.
  induction ts as [| t ts IH]; intros nb s Hp; cbn [batches_loop];
    [exact Hp |].
  destruct (use_tpu && _); [exact Hp |].
  unfold bind.
  pose proof (for_each_plain bd t (Nat.min (ncols - 1 - t) tgt_len)
                             (Py.range batch_size) s Hp) as H1.
  destruct (for_each _ _ s) as [[e | u] s1]; cbn [snd] in *; [exact H1 |].
  now apply IH.
Qed.

Lemma create_ordered_tfrecords_plain (data : list Z) (num_passes : nat)
      (starts : list nat) :
  plain (snd (create_ordered_tfrecords batch_size tgt_len num_core_per_host
                                       cutoffs bin_sizes use_tpu data
                                       num_passes starts initial_state)).
Proof.
  unfold create_ordered_tfrecords.
  destruct (batchify batch_size data num_passes starts) as [e | bd];
    [constructor |].
  destruct (tgt_len =? 0)%nat; [constructor |].
  apply batches_loop_plain. constructor.
Qed.

End PlainRuns.

(** X19: a corpus as [Corpus.__init__] builds it has no cutoffs, and its
    test split is the training file.  Converting a split of it plans no
    bucket, writes records without permutation features (whatever
    [FLAGS.use_tpu] is), and records [bin_sizes = []] in the record info;
    it fails up front with ZeroDivisionError when [num_core_per_host] is
    zero, and for the datasets [lm1b] and [text8], which the conversion
    does not list, with an unassigned [bin_sizes] after writing nothing. *)
Theorem corpus_conversion_is_plain (dataset : Dataset)
        (train_txt valid_txt : list Z) (split : Split)
        (bsz tgt_len num_core_per_host : nat) (FLAGS : Flags)
        (starts : list nat) :
  let self := Corpus_init dataset train_txt valid_txt in
  let r := convert_to_tfrecords self split bsz tgt_len num_core_per_host
                                FLAGS starts in
  corpus_split self Test = corpus_split self Train
  /\ Forall (fun e => perm_features e = None) (written (snd r))
  /\ (forall info, fst r = inr info -> info_bin_sizes info = [])
  /\ (dataset_listed dataset = false ->
      r = (inl ConvertUnboundLocalError, initial_state))
  /\ (dataset_listed dataset = true -> num_core_per_host = 0%nat ->
      r = (inl ConvertZeroDivisionError, initial_state))
  /\ (dataset_listed dataset = true -> num_core_per_host <> 0%nat ->
      forall e, fst r <> inl (FromGetBinSizes e)).
Proof.
  cbv zeta. unfold convert_to_tfrecords, Corpus_init.
  cbn [corpus_dataset corpus_cutoffs corpus_split corpus_train corpus_test].
  split; [reflexivity |].
  destruct (dataset_listed dataset).
  2:{ cbn. repeat split; try constructor; intros; try discriminate. }
  destruct (Nat.eqb_spec num_core_per_host 0) as [Hz | Hz].
  { cbn. repeat split; try constructor; intros;
      try discriminate; try contradiction. }
  cbn [get_bin_sizes].
  match goal with
  | |- context [create_ordered_tfrecords ?a ?b ?c [] [] ?f ?g ?h ?i
                                         initial_state] =>
      pose proof (create_ordered_tfrecords_plain a b c [] [] f eq_refl g h i)
        as Hplain;
      destruct (create_ordered_tfrecords a b c [] [] f g h i initial_state)
        as [[e | nb] s]
  end.
  - cbn [fst snd] in *. split; [exact Hplain |].
    repeat split; intros; try discriminate; try contradiction.
  - cbn [fst snd] in *. split; [exact Hplain |]. split.
    + intros info H. injection H as <-. reflexivity.
    + repeat split; intros; try discriminate; try contradiction.
Qed.

(** ** Adaptive embedding: masked and permutation mode *)

Section AdaptiveEmbeddingFacts.

Local Open Scope R_scope.

Lemma map2_map_map {A B C D} (f : B -> C -> D) (a : A -> B) (b : A -> C)
      (l : list A) :
  Py.map2 f (map a l) (map b l) = map (fun x => f (a x) (b x)) l.
Proof. induction l as [| x l IH]; simpl; [reflexivity | now rewrite IH]. Qed.

Lemma shape_concat_inj {A} (a b : T2 A) :
  shape a = shape b -> concat a = concat b -> a = b.
Proof.
  unfold shape. revert b.
  induction a as [| r a IH]; intros [| q b] Hs Hc; simpl in *;
    try discriminate; [reflexivity |].
  injection Hs as Hr Hs.
  assert (E : r = q).
  { apply (f_equal (firstn (length r))) in Hc.
    rewrite firstn_app, Nat.sub_diag, firstn_all in Hc.
    rewrite Hr, firstn_app, Nat.sub_diag, firstn_all in Hc.
    cbn [firstn] in Hc. now rewrite !app_nil_r in Hc. }
  subst q. apply app_inv_head in Hc. f_equal. now apply IH.
Qed.

(** Equal shape and equal entries token by token. *)
Lemma tokens_ext {A B C} (f : A -> C) (g : B -> C) (p : T2 A) (x : T2 B)
      (da : A) (db : B) :
  shape p = shape x ->
  (forall n, (n < length (concat x))%nat ->
             f (nth n (concat p) da) = g (nth n (concat x) db)) ->
  map (map f) p = map (map g) x.
Proof.
  intros Hs H. apply shape_concat_inj.
  - now rewrite !shape_map.
  - rewrite !concat_map_map.
    pose proof (shape_length_concat p x Hs) as Hl.
    apply (nth_ext _ _ (f da) (g db)); [now rewrite !length_map |].
    intros n Hn. rewrite length_map in Hn.
    rewrite (nth_map_lt f _ n da) by exact Hn.
    rewrite (nth_map_lt g _ n db) by lia.
    apply H. lia.
Qed.

Lemma scatter_rows_keep {A} (zero : list R) (b : A -> bool) (h : A -> list R)
      (X : list A) :
  zero = repeat 0 (length zero) ->
  forall d_proj,
    Z.to_nat d_proj = length zero ->
    scatter_rows d_proj (map b X) (map h (keep (map b X) X))
    = map (fun a => if b a then h a else zero) X.
Proof.
  intros Hz d_proj Hd.
  induction X as [| a X IH]; [reflexivity |].
  cbn [map keep scatter_rows]. destruct (b a); cbn [map hd tl scatter_rows].
  - now rewrite IH.
  - rewrite IH. f_equal. unfold zero_row. now rewrite Hd.
Qed.

Lemma unflatten_rows_concat {A} (g : A -> list R) (x : T2 A) :
  unflatten_rows (map (@length bool) (map (map (fun _ => true)) x))
                 (map g (concat x))
  = map (map g) x.
Proof.
  induction x as [| r x IH]; [reflexivity |].
  cbn [map concat unflatten_rows]. rewrite length_map, map_app.
  rewrite firstn_app, skipn_app, length_map, Nat.sub_diag.
  rewrite firstn_all2 by (rewrite length_map; lia).
  rewrite skipn_all2 by (rewrite length_map; lia).
  cbn [firstn skipn app]. rewrite app_nil_r. f_equal. exact IH.
Qed.

Lemma repeat_map_seq {A} (a : A) (n : nat) :
  map (fun _ => a) (seq 0 n) = repeat a n.
Proof.
  generalize 0%nat. induction n as [| n IH]; intros k; [reflexivity |].
  cbn [seq map repeat]. now rewrite IH.
Qed.

Lemma map2_plus_zero (v : list R) (n : nat) :
  length v = n -> Py.map2 Rplus v (repeat 0 n) = v.
Proof.
  revert n. induction v as [| a v IH]; intros [| n] H; simpl in *;
    try discriminate; [reflexivity |].
  rewrite IH by lia. f_equal. lra.
Qed.

Lemma map2_zero_plus (v : list R) (n : nat) :
  length v = n -> Py.map2 Rplus (repeat 0 n) v = v.
Proof.
  revert n. induction v as [| a v IH]; intros [| n] H; simpl in *;
    try discriminate; [reflexivity |].
  rewrite IH by lia. f_equal. lra.
Qed.

Lemma map_times_one (v : list R) : map (fun a => a * to_float true) v = v.
Proof.
  induction v as [| a v IH]; [reflexivity |].
  cbn [map]. rewrite IH. f_equal. simpl. lra.
Qed.

Lemma map_times_zero (v : list R) :
  map (fun a => a * to_float false) v = repeat 0 (length v).
Proof.
  induction v as [| a v IH]; [reflexivity |].
  cbn [map length repeat]. rewrite IH. f_equal. simpl. lra.
Qed.

(** A token holding exactly one slot: the sum over the slots reads it. *)
Lemma single_slot_sum (v : list bool) :
  count_true v = 1%nat ->
  exists k0, (k0 < length v)%nat /\ nth k0 v false = true
             /\ forall f, tsum (length v)
                               (fun k => f k * to_float (nth k v false))
                          = f k0.
Proof.
  induction v as [| b v IH]; intros Hc; [discriminate |].
  destruct b.
  - exists 0%nat. split; [simpl; lia |]. split; [reflexivity |]. intros f.
    cbn [length]. rewrite tsum_shift. cbn [nth].
    rewrite (zero_slot_sum v) by (unfold count_true in *; simpl in Hc; lia).
    simpl. lra.
  - destruct (IH Hc) as [k0 [Hk0 [Hv Hs]]].
    exists (S k0). split; [simpl; lia |]. split; [exact Hv |]. intros f.
    cbn [length]. rewrite tsum_shift. cbn [nth].
    rewrite (Hs (fun k => f (S k))). simpl. lra.
Qed.

(** A slot held by one token at most, and by token [n]: the sum over the
    tokens reads token [n]. *)
Lemma held_slot_sum (bs : list bool) (n : nat) :
  (count_true bs <= 1)%nat -> nth n bs false = true ->
  forall f, tsum (length bs) (fun m => f m * to_float (nth m bs false)) = f n.
Proof.
  revert n. induction bs as [| b bs IH]; intros n Hc Hn f;
    [destruct n; discriminate |].
  cbn [length]. rewrite tsum_shift. cbn [nth].
  destruct n as [| n].
  - cbn [nth] in Hn. subst b.
    rewrite (zero_slot_sum bs) by (unfold count_true in *; simpl in Hc; lia).
    simpl. lra.
  - cbn [nth] in Hn. destruct b.
    + exfalso. unfold count_true in Hc. simpl in Hc.
      assert (Hz : count_true bs = 0%nat) by (unfold count_true; lia).
      clear IH Hc. revert n Hn. induction bs as [| c bs IHb]; intros n Hn;
        [destruct n; discriminate |].
      destruct c; [discriminate |]. destruct n as [| n]; [discriminate |].
      apply (IHb Hz n Hn).
    + rewrite (IH n Hc Hn (fun m => f (S m))). simpl. lra.
Qed.

Variables (n_token d_embed d_proj div_val : Z).
Variable cutoffs : list Z.
Variable proj_same_dim : bool.
Variable evars : EmbedVars.

Local Notation "'ends'" := (cutoff_ends n_token cutoffs).
Local Notation "'bucket'" :=
  (fun (i : nat) (id : Z) =>
     in_bucket (nth i ends 0%Z) (nth (i + 1) ends 0%Z) id).
Local Notation "'shaped'" :=
  (embed_vars_shaped n_token d_embed d_proj div_val cutoffs proj_same_dim
                     evars).
Local Notation "'proj_of'" :=
  (bucket_proj d_embed d_proj div_val proj_same_dim evars).

Local Notation "'row_of'" :=
  (embed_row n_token d_embed d_proj div_val cutoffs proj_same_dim evars).
Local Notation "'term_of'" :=
  (embed_term n_token d_embed d_proj div_val cutoffs proj_same_dim evars).

Lemma length_project (W : matrix) (y : list R) :
  length (project d_proj W y) = Z.to_nat d_proj.
Proof. unfold project. now rewrite length_map, length_seq. Qed.

Lemma length_row_of (i : nat) (id : Z) :
  shaped -> (i < length ends - 1)%nat -> bucket i id = true ->
  length (row_of i id) = Z.to_nat d_proj.
Proof.
  intros Hsh Hi Hb. destruct (Hsh i Hi) as [Hlt [[Hlen Hrows] _]].
  unfold embed_row, bucket_proj, apply_proj.
  destruct ((d_proj =? cur_d_embed d_embed div_val i)%Z && negb proj_same_dim)
    eqn:E; [| apply length_project].
  apply andb_prop in E. destruct E as [E _]. apply Z.eqb_eq in E.
  rewrite E. rewrite Forall_forall in Hrows. apply Hrows, nth_In.
  unfold in_bucket in Hb. apply andb_prop in Hb. destruct Hb as [B1 B2].
  apply Z.leb_le in B1. apply Z.ltb_lt in B2. lia.
Qed.

Lemma length_term_of (i : nat) (id : Z) :
  shaped -> (i < length ends - 1)%nat ->
  length (term_of i id) = Z.to_nat d_proj.
Proof.
  intros Hsh Hi. unfold embed_term.
  destruct (in_bucket (nth i ends 0%Z) (nth (i + 1) ends 0%Z) id) eqn:Hb.
  - now apply length_row_of.
  - unfold zero_row. apply repeat_length.
Qed.

(** *** Masked mode, bucket by bucket *)

Lemma mask_embed_term_tokens (x : T2 Z) (i : nat) :
  shaped -> (i < length ends - 1)%nat ->
  mask_embed_term n_token d_embed d_proj div_val cutoffs proj_same_dim evars
                  x i
  = Some (map (map (term_of i)) x).
Proof.
  intros Hsh Hi. destruct (Hsh i Hi) as [Hlt [[Hlen Hrows] _]].
  unfold mask_embed_term. cbv zeta.
  set (l_idx := nth i ends 0%Z). set (r_idx := nth (i + 1) ends 0%Z).
  fold l_idx r_idx in Hlt, Hlen.
  rewrite (map_opt_some _ (fun z => nth (Z.to_nat z) (ev_tables evars i) [])).
  - f_equal. unfold scatter_nd_rows, boolean_mask, bucket_mask.
    rewrite concat_map_map, !map_map.
    rewrite (scatter_rows_keep (zero_row d_proj) (in_bucket l_idx r_idx)
               (row_of i));
      [| unfold zero_row; now rewrite repeat_length
       | unfold zero_row; now rewrite repeat_length].
    rewrite <- (unflatten_rows_concat (term_of i) x).
    f_equal. rewrite !map_map. apply map_ext. intros r. now rewrite !length_map.
  - apply Forall_forall. intros z Hz. apply in_map_iff in Hz.
    destruct Hz as [id [<- Hid]].
    unfold boolean_mask, bucket_mask in Hid. rewrite concat_map_map in Hid.
    assert (Hb : in_bucket l_idx r_idx id = true).
    { clear - Hid. revert Hid. generalize (concat x). intros X.
      induction X as [| a X IH]; [contradiction |].
      cbn [map keep]. destruct (in_bucket l_idx r_idx a) eqn:E.
      - intros [<- | H]; [exact E | now apply IH].
      - exact IH. }
    unfold in_bucket in Hb. apply andb_prop in Hb. destruct Hb as [B1 B2].
    apply Z.leb_le in B1. apply Z.ltb_lt in B2.
    unfold gather. rewrite Hlen.
    replace ((0 <=? id - l_idx) && (id - l_idx <? Z.of_nat (Z.to_nat (r_idx - l_idx))))%Z
      with true
      by (symmetry; apply andb_true_intro; split;
          [apply Z.leb_le | apply Z.ltb_lt]; lia).
    apply nth_error_nth'. lia.
Qed.


(** *** Permutation mode, bucket by bucket *)

Lemma first_end : nth 0 ends 0%Z = 0%Z.
Proof. reflexivity. Qed.

Lemma mul_embed_head_tokens (x : T2 Z) :
  shaped ->
  mul_embed_head n_token d_embed d_proj div_val cutoffs proj_same_dim evars x
                 (map (map to_float)
                      (bucket_mask (nth 0 ends 0%Z) (nth 1 ends 0%Z) x))
  = map (map (term_of 0)) x.
Proof.
  intros Hsh.
  assert (H0 : (0 < length ends - 1)%nat) by (rewrite length_ends; lia).
  destruct (Hsh 0%nat H0) as [Hlt [Hs _]]. pose proof Hs as [Hlen Hrows].
  cbn [Nat.add] in Hlt, Hs, Hlen. rewrite first_end, Z.sub_0_r in Hs, Hlen.
  rewrite first_end in Hlt.
  unfold mul_embed_head, bucket_mask. cbv zeta.
  rewrite !map_map.
  rewrite map2_map_map. apply map_ext. intros row.
  rewrite !map_map. rewrite map2_map_map. apply map_ext. intros id.
  rewrite Hlen.
  rewrite (one_hot_selects _ _ _ _ Hs) by lia.
  unfold embed_term. cbn [Nat.add]. rewrite first_end.
  destruct (in_bucket 0 (nth 1 ends 0%Z) id) eqn:Hb.
  - unfold in_bucket in Hb. apply andb_prop in Hb. destruct Hb as [B1 B2].
    apply Z.leb_le in B1. apply Z.ltb_lt in B2.
    rewrite Z.min_l by lia.
    replace ((0 <=? id) && (id <? Z.of_nat (Z.to_nat (nth 1 ends 0%Z))))%Z
      with true
      by (symmetry; apply andb_true_intro; split;
          [apply Z.leb_le | apply Z.ltb_lt]; lia).
    rewrite map_times_one. unfold embed_row. rewrite first_end.
    now rewrite Z.sub_0_r.
  - rewrite map_times_zero. unfold zero_row. f_equal.
    unfold bucket_proj, apply_proj.
    destruct ((d_proj =? cur_d_embed d_embed div_val 0)%Z
              && negb proj_same_dim) eqn:E; [| apply length_project].
    apply andb_prop in E. destruct E as [E _]. apply Z.eqb_eq in E.
    rewrite E.
    destruct ((0 <=? Z.min id (nth 1 ends 0%Z - 1))
              && (Z.min id (nth 1 ends 0%Z - 1)
                  <? Z.of_nat (Z.to_nat (nth 1 ends 0%Z))))%Z.
    + rewrite Forall_forall in Hrows. apply Hrows, nth_In. lia.
    + apply repeat_length.
Qed.

Lemma mul_embed_tail_tokens (x : T2 Z) (i : nat) (r : T2 (list bool)) :
  shaped -> (i < length ends - 1)%nat ->
  route_wfb x r = true ->
  map count_true (concat r)
  = map (fun id => if in_bucket (nth i ends 0%Z) (nth (i + 1) ends 0%Z) id
                   then 1%nat else 0%nat) (concat x) ->
  (nth (i + 1) ends 0 - nth i ends 0 <= 2 ^ 24 + 1)%Z ->
  mul_embed_tail n_token d_embed d_proj div_val cutoffs proj_same_dim evars
                 x i (map (map (map to_float)) r)
  = map (map (term_of i)) x.
Proof.
  intros Hsh Hi Hwf Hcnt Hfit.
  destruct (Hsh i Hi) as [Hlt [Hs _]]. pose proof Hs as [Hlen Hrows].
  pose proof (route_wfb_shape x r Hwf) as Hshape.
  pose proof (shape_length_concat r x Hshape) as HN.
  unfold mul_embed_tail, einsum_kd_ibk. cbv zeta.
  set (l_idx := nth i ends 0%Z) in *. set (r_idx := nth (i + 1) ends 0%Z) in *.
  set (table := ev_tables evars i) in *.
  set (cur_x := map to_int32 _).
  set (cur_y := map (apply_proj d_proj (proj_of i)) _).
  assert (Hcx : forall k, (k < dim3 r)%nat ->
                  nth k cur_x 0%Z
                  = to_int32
                      (tsum (length (concat x))
                            (fun m => to_float32 (nth m (concat x) 0%Z - l_idx)
                                      * to_float (nth k (nth m (concat r) [])
                                                      false)))).
  { intros k Hk. unfold cur_x.
    rewrite (einsum_ib_ibk_tokens _ r (length (concat x)));
      [| now rewrite shape_map
       | now rewrite concat_map_map, length_map].
    rewrite (nth_map_lt to_int32 _ k 0 0%Z)
      by (now rewrite length_map, length_seq).
    rewrite (nth_map_lt _ (seq 0 (dim3 r)) k 0%nat 0)
      by (now rewrite length_seq).
    rewrite seq_nth by exact Hk. cbn [Nat.add].
    f_equal. apply tsum_ext. intros m Hm.
    rewrite concat_map_map.
    now rewrite (nth_map_lt _ (concat x) m 0%Z 0) by exact Hm. }
  assert (Hcy : forall k, (k < dim3 r)%nat ->
                  nth k cur_y []
                  = apply_proj d_proj (proj_of i)
                      (einsum_nd_n table (one_hot (nth k cur_x 0%Z)
                                                  (length table)))).
  { intros k Hk. unfold cur_y.
    assert (Hlx : length cur_x = dim3 r).
    { unfold cur_x, einsum_ib_ibk.
      now rewrite !length_map, length_seq, dim3_to_float. }
    rewrite (nth_map_lt _ _ k [] []) by (now rewrite length_map, Hlx).
    now rewrite (nth_map_lt _ cur_x k 0%Z []) by (now rewrite Hlx). }
  assert (Hly : length cur_y = dim3 r).
  { unfold cur_y, cur_x, einsum_ib_ibk.
    now rewrite !length_map, length_seq, dim3_to_float. }
  clearbody cur_y cur_x.
  rewrite map_map.
  erewrite (map_ext (fun row => map _ (map (map to_float) row)));
    [| intros row; apply map_map].
  apply (tokens_ext _ _ r x [] 0%Z Hshape).
  intros n Hn.
  set (v := nth n (concat r) []). set (id := nth n (concat x) 0%Z).
  assert (Hv : length v = dim3 r)
    by (apply (route_wfb_width x); [exact Hwf | lia]).
  assert (Hc : count_true v
               = if in_bucket l_idx r_idx id then 1%nat else 0%nat).
  { apply (f_equal (fun l => nth n l 0%nat)) in Hcnt.
    rewrite (nth_map_lt count_true _ n [] 0%nat) in Hcnt by lia.
    now rewrite (nth_map_lt _ (concat x) n 0%Z 0%nat) in Hcnt by exact Hn. }
  assert (Hsum : forall d,
             rsum (Py.map2 (fun (y : list R) pk => nth d y 0 * pk) cur_y
                           (map to_float v))
             = tsum (length v)
                    (fun k => nth d (nth k cur_y []) 0
                              * to_float (nth k v false))).
  { intros d. rewrite (rsum_map2_tsum _ _ _ [] 0 (length v));
      [| now rewrite Hly, Hv | now rewrite length_map].
    apply tsum_ext. intros k Hk.
    now rewrite (nth_map_lt to_float v k false 0) by exact Hk. }
  erewrite map_ext; [| intros d; apply Hsum].
  unfold embed_term. fold l_idx r_idx.
  destruct (in_bucket l_idx r_idx id) eqn:Hb.
  - destruct (single_slot_sum v Hc) as [k0 [Hk0 [Hheld Hs1]]].
    erewrite map_ext;
      [| intros d; apply (Hs1 (fun k => nth d (nth k cur_y []) 0))].
    rewrite Hv in Hk0.
    rewrite Hcy, Hcx by exact Hk0.
    assert (Hcol : forall m,
               nth k0 (nth m (concat r) []) false
               = nth m (map (fun w => nth k0 w false) (concat r)) false)
      by (intros m; symmetry; apply nth_column).
    erewrite tsum_ext; [| intros m _; rewrite Hcol; reflexivity].
    rewrite <- HN.
    rewrite <- (length_map (fun w => nth k0 w false) (concat r)).
    rewrite (held_slot_sum _ n
               (route_wfb_slot x r k0 Hwf Hk0)
               ltac:(rewrite nth_column; exact Hheld)
               (fun m => to_float32 (nth m (concat x) 0%Z - l_idx))).
    fold id.
    unfold in_bucket in Hb. apply andb_prop in Hb. destruct Hb as [B1 B2].
    apply Z.leb_le in B1. apply Z.ltb_lt in B2.
    rewrite to_int32_to_float32 by lia.
    rewrite Hlen.
    rewrite (one_hot_selects _ _ _ _ Hs) by lia.
    replace ((0 <=? id - l_idx)
             && (id - l_idx <? Z.of_nat (Z.to_nat (r_idx - l_idx))))%Z
      with true
      by (symmetry; apply andb_true_intro; split;
          [apply Z.leb_le | apply Z.ltb_lt]; lia).
    apply map_nth_all.
    apply (length_row_of i id Hsh Hi).
    unfold in_bucket. fold l_idx r_idx.
    apply andb_true_intro; split; [apply Z.leb_le | apply Z.ltb_lt]; lia.
  - erewrite map_ext;
      [| intros d;
         apply (zero_slot_sum v Hc (fun k => nth d (nth k cur_y []) 0))].
    apply repeat_map_seq.
Qed.


(** *** The sum over the buckets *)

Lemma vadd3_tokens (a b : Z -> list R) (x : T2 Z) :
  vadd3 (map (map a) x) (map (map b) x)
  = map (map (fun id => Py.map2 Rplus (a id) (b id))) x.
Proof.
  unfold vadd3. rewrite map2_map_map. apply map_ext. intros row.
  apply map2_map_map.
Qed.

Lemma mask_fold_tokens (x : T2 Z) (s : list nat) :
  shaped -> (forall i, In i s -> (i < length ends - 1)%nat) ->
  forall a : Z -> list R,
    fold_left (fun acc i =>
                 match acc,
                       mask_embed_term n_token d_embed d_proj div_val cutoffs
                                       proj_same_dim evars x i with
                 | Some y, Some cur => Some (vadd3 y cur)
                 | _, _ => None
                 end) s (Some (map (map a) x))
    = Some (map (map (fun id =>
                        fold_left (fun v i => Py.map2 Rplus v (term_of i id))
                                  s (a id))) x).
Proof.
  intros Hsh. induction s as [| i s IH]; intros Hin a; [reflexivity |].
  cbn [fold_left].
  rewrite mask_embed_term_tokens by (try exact Hsh; apply Hin; now left).
  rewrite vadd3_tokens.
  apply (IH (fun j Hj => Hin j (or_intror Hj))).
Qed.

Lemma mul_fold_tokens (x : T2 Z) (ps : list (T2 (list R))) (s : list nat) :
  (forall i, In i s ->
             mul_embed_tail n_token d_embed d_proj div_val cutoffs
                            proj_same_dim evars x i (nth (i - 1) ps [])
             = map (map (term_of i)) x) ->
  forall a : Z -> list R,
    fold_left (fun acc i =>
                 vadd3 acc
                       (mul_embed_tail n_token d_embed d_proj div_val cutoffs
                                       proj_same_dim evars x i
                                       (nth (i - 1) ps [])))
              s (map (map a) x)
    = map (map (fun id =>
                  fold_left (fun v i => Py.map2 Rplus v (term_of i id))
                            s (a id))) x.
Proof.
  induction s as [| i s IH]; intros Hin a; [reflexivity |].
  cbn [fold_left]. rewrite (Hin i) by now left.
  rewrite vadd3_tokens.
  apply (IH (fun j Hj => Hin j (or_intror Hj))).
Qed.

Lemma ends_increase (i j : nat) :
  shaped -> (i <= j)%nat -> (j < length ends)%nat ->
  (nth i ends 0 <= nth j ends 0)%Z.
Proof.
  intros Hsh Hij Hj. induction j as [| j IH]; [replace i with 0%nat by lia; lia |].
  destruct (Nat.eq_dec i (S j)) as [-> | Hne]; [lia |].
  assert (H1 : (nth i ends 0 <= nth j ends 0)%Z) by (apply IH; lia).
  destruct (Hsh j ltac:(lia)) as [Hlt _].
  replace (j + 1)%nat with (S j) in Hlt by lia. lia.
Qed.

Lemma embed_buckets_exclusive (id : Z) (i j : nat) :
  shaped -> (i < length ends - 1)%nat -> (j < length ends - 1)%nat ->
  in_bucket (nth i ends 0%Z) (nth (i + 1) ends 0%Z) id = true ->
  in_bucket (nth j ends 0%Z) (nth (j + 1) ends 0%Z) id = true ->
  i = j.
Proof.
  intros Hsh Hi Hj Bi Bj. unfold in_bucket in Bi, Bj.
  apply andb_prop in Bi, Bj. destruct Bi as [Bi1 Bi2], Bj as [Bj1 Bj2].
  apply Z.leb_le in Bi1, Bj1. apply Z.ltb_lt in Bi2, Bj2.
  destruct (Nat.lt_trichotomy i j) as [Hlt | [Heq | Hgt]]; [| exact Heq |].
  - pose proof (ends_increase (i + 1) j Hsh ltac:(lia) ltac:(lia)). lia.
  - pose proof (ends_increase (j + 1) i Hsh ltac:(lia) ltac:(lia)). lia.
Qed.

(** Of the terms of the buckets, one at most is not zero. *)
Lemma token_sum (id : Z) (s : list nat) :
  shaped -> NoDup s -> (forall i, In i s -> (i < length ends - 1)%nat) ->
  forall acc : list R,
    length acc = Z.to_nat d_proj ->
    fold_left (fun v i => Py.map2 Rplus v (term_of i id)) s acc
    = Py.map2 Rplus acc
              (match find (fun i => in_bucket (nth i ends 0%Z)
                                              (nth (i + 1) ends 0%Z) id) s with
               | Some i => row_of i id
               | None => zero_row d_proj
               end).
Proof.
  intros Hsh. induction s as [| i s IH]; intros Hnd Hin acc Hacc.
  - cbn [fold_left find]. unfold zero_row. symmetry.
    now apply map2_plus_zero.
  - inversion Hnd as [| ? ? Hni Hnd']; subst.
    cbn [fold_left find].
    assert (Hi : (i < length ends - 1)%nat) by (apply Hin; now left).
    rewrite (IH Hnd' (fun j Hj => Hin j (or_intror Hj)))
      by (rewrite length_map2, Hacc, (length_term_of i id Hsh Hi); lia).
    unfold embed_term.
    destruct (in_bucket (nth i ends 0%Z) (nth (i + 1) ends 0%Z) id) eqn:Hb.
    + destruct (find _ s) as [j |] eqn:Hf.
      * exfalso. apply find_some in Hf. destruct Hf as [Hj Bj].
        apply Hni.
        rewrite (embed_buckets_exclusive id i j Hsh Hi
                   (Hin j (or_intror Hj)) Hb Bj).
        exact Hj.
      * unfold zero_row. apply map2_plus_zero.
        rewrite length_map2, Hacc, (length_row_of i id Hsh Hi Hb). lia.
    + unfold zero_row at 1. now rewrite (map2_plus_zero acc) by exact Hacc.
Qed.

Lemma token_sum_all (id : Z) :
  shaped ->
  fold_left (fun v i => Py.map2 Rplus v (term_of i id))
            (seq 0 (length ends - 1)) (zero_row d_proj)
  = embed_token n_token d_embed d_proj div_val cutoffs proj_same_dim evars id.
Proof.
  intros Hsh.
  rewrite (token_sum id _ Hsh (seq_NoDup _ _));
    [| intros i Hi; apply in_seq in Hi; lia
     | unfold zero_row; apply repeat_length].
  unfold embed_token.
  destruct (find _ (seq 0 (length ends - 1))) as [i |] eqn:Hf.
  - apply find_some in Hf. destruct Hf as [Hi Hb]. apply in_seq in Hi.
    unfold zero_row. apply map2_zero_plus.
    apply (length_row_of i id Hsh); [lia | exact Hb].
  - unfold zero_row. apply map2_zero_plus. apply repeat_length.
Qed.

(** The masked lookup, token by token. *)
Lemma mask_lookup_tokens (x : T2 Z) :
  div_val <> 1%Z -> shaped ->
  mask_adaptive_embedding_lookup n_token d_embed d_proj div_val cutoffs
                                 proj_same_dim evars x
  = Some (scale_all d_proj
            (map (map (embed_token n_token d_embed d_proj div_val cutoffs
                                   proj_same_dim evars)) x)).
Proof.
  intros Hdiv Hsh. unfold mask_adaptive_embedding_lookup.
  replace (div_val =? 1)%Z with false by (symmetry; now apply Z.eqb_neq).
  unfold zeros3.
  rewrite (mask_fold_tokens x _ Hsh)
    by (intros i Hi; apply in_seq in Hi; lia).
  cbn [option_map]. do 2 f_equal.
  apply map_ext. intros row. apply map_ext. intros id.
  now apply token_sum_all.
Qed.

(** *** Without permutation tensors: the concatenated table *)

Lemma map_opt_forallb {A B} (f : A -> option B) (p : A -> bool) (l : list A) :
  (forall a, p a = false -> f a = None) ->
  forallb p l = false -> map_opt f l = None.
Proof.
  intros Hp. induction l as [| a l IH]; intros H; [discriminate |].
  cbn [forallb] in H. cbn [map_opt].
  destruct (p a) eqn:Ea.
  - cbn [andb] in H. rewrite (IH H). now destruct (f a).
  - now rewrite (Hp a Ea).
Qed.

Lemma length_concat_blocks {A} (B : nat -> list A) (off : nat -> nat)
      (nb : nat) :
  (forall i, (i < nb)%nat -> off (S i) = (off i + length (B i))%nat) ->
  (off 0%nat + length (concat (map B (seq 0 nb))))%nat = off nb.
Proof.
  induction nb as [| nb IH]; intros H; [simpl; lia |].
  rewrite seq_S, map_app, concat_app, length_app. cbn [Nat.add map concat].
  rewrite app_nil_r. rewrite (H nb) by lia.
  rewrite <- IH by (intros i Hi; apply H; lia). lia.
Qed.

(** Row [k] of block [i] in the concatenation of the blocks. *)
Lemma nth_concat_blocks {A} (B : nat -> list A) (off : nat -> nat)
      (nb : nat) (d : A) :
  (forall i, (i < nb)%nat -> off (S i) = (off i + length (B i))%nat) ->
  forall i k, (i < nb)%nat -> (k < length (B i))%nat ->
              nth (off i - off 0%nat + k) (concat (map B (seq 0 nb))) d
              = nth k (B i) d.
Proof.
  induction nb as [| nb IH]; intros H i k Hi Hk; [lia |].
  rewrite seq_S, map_app, concat_app. cbn [Nat.add map concat].
  rewrite app_nil_r.
  assert (H' : forall j, (j < nb)%nat
                         -> off (S j) = (off j + length (B j))%nat)
    by (intros j Hj; apply H; lia).
  pose proof (length_concat_blocks B off nb H') as Hl.
  destruct (Nat.eq_dec i nb) as [-> | Hne].
  - rewrite app_nth2 by lia. f_equal. lia.
  - assert (Hi' : (i < nb)%nat) by lia.
    pose proof (length_concat_blocks B off i
                  (fun j Hj => H j ltac:(lia))) as Hli.
    pose proof (H i Hi) as Hoi.
    assert (Hmono : (off (S i) <= off nb)%nat).
    { clear - H' Hi'. induction nb as [| nb IHn]; [lia |].
      destruct (Nat.eq_dec i nb) as [-> | Hne]; [lia |].
      assert (off (S i) <= off nb)%nat
        by (apply IHn; [intros j Hj; apply H'; lia | lia]).
      rewrite (H' nb) by lia. lia. }
    rewrite app_nth1 by lia. now apply IH.
Qed.

Lemma last_end_embed : nth (length ends - 1) ends 0%Z = n_token.
Proof.
  rewrite length_ends.
  replace (length cutoffs + 2 - 1)%nat with (length cutoffs + 1)%nat by lia.
  apply last_end.
Qed.

Lemma bucket_exists (id : Z) :
  shaped -> (0 <= id < n_token)%Z ->
  exists i, (i < length ends - 1)%nat
            /\ in_bucket (nth i ends 0%Z) (nth (i + 1) ends 0%Z) id = true.
Proof.
  intros Hsh Hid.
  assert (H : forall j, (j <= length ends - 1)%nat ->
                        (id < nth j ends 0)%Z ->
                        exists i, (i < j)%nat
                                  /\ in_bucket (nth i ends 0%Z)
                                               (nth (i + 1) ends 0%Z) id
                                     = true).
  { induction j as [| j IH]; intros Hj Hlt; [rewrite first_end in Hlt; lia |].
    destruct (Z_lt_dec id (nth j ends 0%Z)) as [Hl | Hl].
    - destruct (IH ltac:(lia) Hl) as [i [Hi Hb]]. exists i. split; [lia | exact Hb].
    - exists j. split; [lia |]. unfold in_bucket.
      replace (j + 1)%nat with (S j) by lia.
      apply andb_true_intro; split; [apply Z.leb_le | apply Z.ltb_lt]; lia. }
  destruct (H (length ends - 1)%nat ltac:(lia)
              ltac:(rewrite last_end_embed; lia)) as [i [Hi Hb]].
  exists i. split; [exact Hi | exact Hb].
Qed.

Lemma bucket_within (id : Z) (i : nat) :
  shaped -> (i < length ends - 1)%nat ->
  in_bucket (nth i ends 0%Z) (nth (i + 1) ends 0%Z) id = true ->
  (0 <= nth i ends 0 /\ nth i ends 0 <= id < nth (i + 1) ends 0
   /\ nth (i + 1) ends 0 <= n_token)%Z.
Proof.
  intros Hsh Hi Hb. unfold in_bucket in Hb. apply andb_prop in Hb.
  destruct Hb as [B1 B2]. apply Z.leb_le in B1. apply Z.ltb_lt in B2.
  pose proof (ends_increase 0 i Hsh ltac:(lia) ltac:(lia)) as H0.
  pose proof (ends_increase (i + 1) (length ends - 1) Hsh ltac:(lia)
                            ltac:(lia)) as H1.
  rewrite first_end in H0. rewrite last_end_embed in H1. lia.
Qed.

(** The concatenated table holds, for every token of the vocabulary, the
    projected row of its bucket. *)
Lemma cat_lookup_rows :
  shaped ->
  let cat := concat (map (fun i => map (project d_proj (ev_projs evars i))
                                       (ev_tables evars i))
                         (seq 0 (length ends - 1))) in
  has_shape (Z.to_nat n_token) (Z.to_nat d_proj) cat
  /\ forall i id,
      (i < length ends - 1)%nat ->
      in_bucket (nth i ends 0%Z) (nth (i + 1) ends 0%Z) id = true ->
      nth (Z.to_nat id) cat []
      = project d_proj (ev_projs evars i)
                (nth (Z.to_nat (id - nth i ends 0%Z)) (ev_tables evars i) []).
Proof.
  intros Hsh cat.
  set (B := fun i => map (project d_proj (ev_projs evars i))
                         (ev_tables evars i)).
  set (off := fun i => Z.to_nat (nth i ends 0%Z)).
  assert (Hoff : forall i, (i < length ends - 1)%nat ->
                           off (S i) = (off i + length (B i))%nat).
  { intros i Hi. unfold off, B. rewrite length_map.
    destruct (Hsh i Hi) as [Hlt [[Hlen _] _]].
    pose proof (ends_increase 0 i Hsh ltac:(lia) ltac:(lia)) as H0.
    rewrite first_end in H0. rewrite Hlen.
    replace (i + 1)%nat with (S i) in * by lia. lia. }
  assert (Hoff0 : off 0%nat = 0%nat) by reflexivity.
  split.
  - split.
    + pose proof (length_concat_blocks B off _ Hoff) as Hl.
      rewrite Hoff0 in Hl. cbn [Nat.add] in Hl. unfold cat. fold B.
      rewrite Hl. unfold off. now rewrite last_end_embed.
    + apply Forall_forall. intros row Hrow. unfold cat in Hrow.
      apply in_concat in Hrow. destruct Hrow as [blk [Hblk Hrow]].
      apply in_map_iff in Hblk. destruct Hblk as [i [<- _]].
      apply in_map_iff in Hrow. destruct Hrow as [y [<- _]].
      apply length_project.
  - intros i id Hi Hb.
    destruct (bucket_within id i Hsh Hi Hb) as [H0 [[H1 H2] H3]].
    destruct (Hsh i Hi) as [Hlt [[Hlen _] _]].
    pose proof (nth_concat_blocks B off _ [] Hoff i
                  (Z.to_nat (id - nth i ends 0%Z)) Hi) as Hn.
    rewrite Hoff0, Nat.sub_0_r in Hn.
    replace (off i + Z.to_nat (id - nth i ends 0%Z))%nat with (Z.to_nat id)
      in Hn by (unfold off; lia).
    unfold cat. fold B. rewrite Hn by (unfold B; rewrite length_map, Hlen; lia).
    unfold B.
    apply (nth_map_lt (project d_proj (ev_projs evars i))). rewrite Hlen. lia.
Qed.

(** X20: with [div_val != 1], variables of the declared shapes, the
    permutation tensors that route the batch and no tail bucket of more
    than [2^24 + 1] token ids, so that the index of an id in its bucket
    passes through [float32] unchanged, the masked and the
    permutation-based adaptive embedding return the same tensor: for every
    token the row of its bucket's table, projected, times [emb_scale]. *)
Theorem adaptive_embedding_modes_agree (x : T2 Z) (route0 : T2 bool)
        (routes : list (T2 (list bool)))
        (Hdiv : div_val <> 1%Z)
        (Hsh : shaped)
        (Hroutes : input_routes n_token cutoffs x route0 routes)
        (Hfit : buckets_fit_float32 n_token cutoffs = true) :
  mask_adaptive_embedding_lookup n_token d_embed d_proj div_val cutoffs
                                 proj_same_dim evars x
  = Some (scale_all d_proj
            (map (map (embed_token n_token d_embed d_proj div_val cutoffs
                                   proj_same_dim evars)) x))
  /\ mul_adaptive_embedding_lookup n_token d_embed d_proj div_val cutoffs
                                   proj_same_dim evars x
                                   (Some (perms_of route0 routes))
     = mask_adaptive_embedding_lookup n_token d_embed d_proj div_val cutoffs
                                      proj_same_dim evars x.
Proof.
  pose proof (mask_lookup_tokens x Hdiv Hsh) as Hmask.
  split; [exact Hmask |]. rewrite Hmask.
  destruct Hroutes as [H0 Htail].
  unfold mul_adaptive_embedding_lookup.
  replace (div_val =? 1)%Z with false by (symmetry; now apply Z.eqb_neq).
  cbn [option_map]. do 2 f_equal.
  unfold perms_of. cbn [fst snd]. rewrite H0.
  rewrite (mul_embed_head_tokens x Hsh). unfold zeros3.
  rewrite vadd3_tokens.
  rewrite (mul_fold_tokens x).
  - apply map_ext. intros row. apply map_ext. intros id.
    rewrite <- (token_sum_all id Hsh).
    replace (length ends - 1)%nat with (S (length ends - 2))
      by (rewrite length_ends; lia).
    reflexivity.
  - intros i Hi. destruct (Htail i Hi) as [Hwf Hcnt].
    apply in_seq in Hi.
    change (@nil (list (list R)))
      with (map (map (map to_float)) (@nil (list (list bool)))).
    rewrite map_nth.
    apply mul_embed_tail_tokens; try assumption; [lia |].
    unfold buckets_fit_float32 in Hfit. rewrite forallb_forall in Hfit.
    apply Z.leb_le. apply Hfit. apply in_seq.
    pose proof (length_ends n_token cutoffs). lia.
Qed.


(** X21: without permutation tensors the permutation-based lookup
    multiplies every table by its projection, concatenates the products
    and looks the ids up in the result; it returns what the masked lookup
    returns when every bucket has a projection, and fails when one has
    none. *)
Theorem adaptive_embedding_without_perms (x : T2 Z)
        (Hdiv : div_val <> 1%Z)
        (Hsh : shaped) :
  mul_adaptive_embedding_lookup n_token d_embed d_proj div_val cutoffs
                                proj_same_dim evars x None
  = if forallb (fun i => negb ((d_proj =? cur_d_embed d_embed div_val i)%Z
                               && negb proj_same_dim))
               (seq 0 (length ends - 1))
    then mask_adaptive_embedding_lookup n_token d_embed d_proj div_val cutoffs
                                        proj_same_dim evars x
    else None.
Proof.
  unfold mul_adaptive_embedding_lookup.
  replace (div_val =? 1)%Z with false by (symmetry; now apply Z.eqb_neq).
  unfold mul_embed_cat.
  destruct (forallb _ (seq 0 (length ends - 1))) eqn:E.
  - rewrite forallb_forall in E.
    assert (Hproj : forall i, In i (seq 0 (length ends - 1)) ->
                              proj_of i = Some (ev_projs evars i)).
    { intros i Hi. unfold bucket_proj.
      specialize (E i Hi). apply negb_true_iff in E. now rewrite E. }
    rewrite (map_opt_some _ (fun i => map (project d_proj (ev_projs evars i))
                                          (ev_tables evars i)))
      by (apply Forall_forall; intros i Hi; now rewrite (Hproj i Hi)).
    rewrite (mask_lookup_tokens x Hdiv Hsh).
    destruct (cat_lookup_rows Hsh) as [Hcat Hrow].
    set (cat := concat _) in *.
    assert (Hpos : (0 < Z.to_nat n_token)%nat).
    { assert (H0 : (0 < length ends - 1)%nat) by (rewrite length_ends; lia).
      destruct (Hsh 0%nat H0) as [Hlt _]. rewrite first_end in Hlt.
      pose proof (ends_increase (0 + 1) (length ends - 1) Hsh ltac:(lia)
                                ltac:(lia)) as H1.
      rewrite last_end_embed in H1. lia. }
    unfold embedding_lookup. cbn [option_map]. do 2 f_equal.
    apply map_ext. intros row. apply map_ext. intros id.
    rewrite (proj1 Hcat). rewrite (one_hot_selects _ _ _ _ Hcat Hpos).
    unfold embed_token.
    destruct (find _ (seq 0 (length ends - 1))) as [i |] eqn:Hf.
    + apply find_some in Hf. destruct Hf as [Hi Hb].
      pose proof Hi as Hi'. apply in_seq in Hi'.
      destruct (bucket_within id i Hsh ltac:(lia) Hb) as [H0 [[H1 H2] H3]].
      replace ((0 <=? id) && (id <? Z.of_nat (Z.to_nat n_token)))%Z with true
        by (symmetry; apply andb_true_intro; split;
            [apply Z.leb_le | apply Z.ltb_lt]; lia).
      unfold embed_row. rewrite (Hproj i Hi). cbn [apply_proj].
      apply Hrow; [lia | exact Hb].
    + destruct ((0 <=? id) && (id <? Z.of_nat (Z.to_nat n_token)))%Z eqn:R;
        [| reflexivity].
      exfalso. apply andb_prop in R. destruct R as [R1 R2].
      apply Z.leb_le in R1. apply Z.ltb_lt in R2.
      destruct (bucket_exists id Hsh ltac:(lia)) as [i [Hi Hb]].
      pose proof (find_none _ _ Hf i ltac:(apply in_seq; lia)) as Hn.
      cbv beta in Hn. congruence.
  - erewrite map_opt_forallb; [reflexivity | | exact E].
    intros i Hi. cbv beta in Hi. unfold bucket_proj.
    apply negb_false_iff in Hi. now rewrite Hi.
Qed.

End AdaptiveEmbeddingFacts.

(** A vocabulary of four tokens in two buckets, [div_val = 2]: the head
    table is projected from width 4, the tail table has the width
    [d_proj] and no projection. *)
Lemma adaptive_embedding_modes_agree_witness :
  let ev := mkEmbedVars [] []
              (fun i => match i with
                        | O => [[1; 2; 3; 4]; [5; 6; 7; 8]]
                        | _ => [[9; 10]; [11; 12]]
                        end)%R
              (fun _ => [[1; 0]; [0; 1]; [0; 0]; [0; 0]])%R in
  let x := [[0; 3]; [2; 1]] in
  let route0 := [[true; false]; [false; true]] in
  let routes := [[[[false; false]; [true; false]];
                  [[false; true]; [false; false]]]] in
  2 <> 1
  /\ embed_vars_shaped 4 4 2 2 [2] false ev
  /\ input_routes 4 [2] x route0 routes
  /\ buckets_fit_float32 4 [2] = true
  /\ mul_adaptive_embedding_lookup 4 4 2 2 [2] false ev x
                                   (Some (perms_of route0 routes))
     = mask_adaptive_embedding_lookup 4 4 2 2 [2] false ev x.
Proof.
  intros ev x route0 routes.
  assert (Hdiv : 2 <> 1) by lia.
  assert (Hsh : embed_vars_shaped 4 4 2 2 [2] false ev).
  { intros i Hi. simpl in Hi.
    destruct i as [| [| i]]; [| | lia]; (split; [reflexivity |]); split;
      try (split; [reflexivity | repeat constructor]).
    - intros W HW. injection HW as <-.
      split; [reflexivity | repeat constructor].
    - intros W HW. discriminate HW. }
  assert (Hr : input_routes 4 [2] x route0 routes).
  { split; [reflexivity |]. intros i Hi. simpl in Hi.
    destruct Hi as [<- | []]. split; reflexivity. }
  split; [exact Hdiv |]. split; [exact Hsh |]. split; [exact Hr |].
  split; [reflexivity |].
  exact (proj2 (adaptive_embedding_modes_agree 4 4 2 2 [2] false ev x route0
                  routes Hdiv Hsh Hr eq_refl)).
Defined.

(** The same vocabulary with [proj_same_dim] set, so that both buckets have
    a projection: the lookup without permutation tensors succeeds. *)
Lemma adaptive_embedding_without_perms_witness :
  let ev := mkEmbedVars [] []
              (fun i => match i with
                        | O => [[1; 2; 3; 4]; [5; 6; 7; 8]]
                        | _ => [[9; 10]; [11; 12]]
                        end)%R
              (fun i => match i with
                        | O => [[1; 0]; [0; 1]; [0; 0]; [0; 0]]
                        | _ => [[0; 1]; [1; 0]]
                        end)%R in
  let x := [[0; 3]; [2; 1]] in
  2 <> 1
  /\ embed_vars_shaped 4 4 2 2 [2] true ev
  /\ mul_adaptive_embedding_lookup 4 4 2 2 [2] true ev x None
     = mask_adaptive_embedding_lookup 4 4 2 2 [2] true ev x.
Proof.
  intros ev x.
  assert (Hdiv : 2 <> 1) by lia.
  assert (Hsh : embed_vars_shaped 4 4 2 2 [2] true ev).
  { intros i Hi. simpl in Hi.
    destruct i as [| [| i]]; [| | lia]; (split; [reflexivity |]); split;
      try (split; [reflexivity | repeat constructor]);
      intros W HW; injection HW as <-;
      (split; [reflexivity | repeat constructor]). }
  split; [exact Hdiv |]. split; [exact Hsh |].
  pose proof (adaptive_embedding_without_perms 4 4 2 2 [2] true ev x Hdiv Hsh)
    as H.
  assert (E : forallb (fun i => negb ((2 =? cur_d_embed 4 2 i)%Z && negb true))
                      (seq 0 (length (cutoff_ends 4 [2]) - 1))
              = true) by reflexivity.
  rewrite E in H. exact H.
Defined.

(** ** The record info file: the name written is the name read *)

Section FileNameFacts.

Import Ascii String DecimalString.

Local Open Scope string_scope.

Lemma all_digits_uint (d : Decimal.uint) :
  all_digits (NilEmpty.string_of_uint d) = true.
Proof. induction d; simpl; auto. Qed.

Lemma to_uint_nonnil (n : nat) : Nat.to_uint n <> Decimal.Nil.
Proof.
  rewrite <- (DecimalNat.Unsigned.of_to n) at 1.
  rewrite DecimalNat.Unsigned.to_of. apply DecimalFacts.unorm_nonnil.
Qed.

Lemma format_int_digits (n : nat) :
  format_int n = NilEmpty.string_of_uint (Nat.to_uint n).
Proof.
  unfold format_int, NilZero.string_of_uint.
  pose proof (to_uint_nonnil n) as Hn.
  destruct (Nat.to_uint n); congruence.
Qed.

Lemma all_digits_format_int (n : nat) : all_digits (format_int n) = true.
Proof. rewrite format_int_digits. apply all_digits_uint. Qed.

Lemma format_int_inj (n m : nat) : format_int n = format_int m -> n = m.
Proof.
  intros H. rewrite !format_int_digits in H.
  apply (f_equal NilEmpty.uint_of_string) in H. rewrite !NilEmpty.usu in H.
  injection H as H. now apply DecimalNat.Unsigned.to_uint_inj.
Qed.

(** A numeral ends where the dot after it stands. *)
Lemma digits_then_dot (u v r s : string) :
  all_digits u = true -> all_digits v = true ->
  u ++ String "."%char r = v ++ String "."%char s -> u = v /\ r = s.
Proof.
  revert v. induction u as [| c u IH]; intros [| e v] Hu Hv H; simpl in *.
  - injection H as H. now split.
  - injection H as Hc _. subst e. discriminate Hv.
  - injection H as Hc _. subst c. discriminate Hu.
  - injection H as Hc H. subst e.
    apply andb_prop in Hu, Hv.
    destruct (IH v (proj2 Hu) (proj2 Hv) H) as [-> ->]. now split.
Qed.

Lemma format_int_then_dot (n m : nat) (r s : string) :
  format_int n ++ String "."%char r = format_int m ++ String "."%char s ->
  n = m /\ r = s.
Proof.
  intros H.
  destruct (digits_then_dot _ _ _ _ (all_digits_format_int n)
                            (all_digits_format_int m) H) as [Hd Hr].
  split; [now apply format_int_inj | exact Hr].
Qed.

Lemma format_split_then (a b : Split) (r s : string) :
  format_split a ++ String "."%char r = format_split b ++ String "."%char s ->
  a = b /\ r = s.
Proof.
  destruct a, b; simpl; intros H; try discriminate H;
    injection H as H; now split.
Qed.

Lemma append_assoc (a b c : string) : (a ++ b) ++ c = a ++ (b ++ c).
Proof. induction a as [| x a IH]; simpl; [reflexivity | now rewrite IH]. Qed.

(** X22: [load_record_info] opens the file a conversion has written exactly
    when it is called for the same split, batch size and target length in
    the mode the conversion ran in, and on TPU for the same number of
    cores; the conversion of the test split for one core per host runs in
    the plain mode whatever [FLAGS.use_tpu] is. *)
Theorem record_info_name_identifies (split split' : Split)
        (bsz bsz' tgt_len tgt_len' cores cores' : nat) (use_tpu : bool)
        (FLAGS : Flags) :
  load_record_name split bsz tgt_len cores use_tpu
  = convert_record_name split' bsz' tgt_len' cores' FLAGS
  <-> (use_tpu
       = flag_use_tpu FLAGS
         && negb ((match split' with Test => true | _ => false end)
                  && (cores' =? 1)%nat)
       /\ split = split' /\ bsz = bsz' /\ tgt_len = tgt_len'
       /\ (use_tpu = true -> cores = cores')).
Proof.
  unfold load_record_name, convert_record_name. cbv zeta.
  set (mode := flag_use_tpu FLAGS && _).
  split.
  - intros H.
    assert (Hhead : forall a b t (rest rest' : string) a' b' t',
               "record_info-" ++ format_split a ++ ".bsz-" ++ format_int b
               ++ ".tlen-" ++ format_int t ++ String "."%char rest
               = "record_info-" ++ format_split a' ++ ".bsz-" ++ format_int b'
                 ++ ".tlen-" ++ format_int t' ++ String "."%char rest' ->
               a = a' /\ b = b' /\ t = t' /\ rest = rest').
    { intros a b t rest rest' a' b' t' E.
      cbn [append] in E. injection E as E.
      apply format_split_then in E. destruct E as [-> E].
      injection E as E.
      apply format_int_then_dot in E. destruct E as [-> E].
      injection E as E.
      apply format_int_then_dot in E. destruct E as [-> E].
      now repeat split. }
    destruct use_tpu, mode.
    + apply Hhead in H. destruct H as [-> [-> [-> H]]].
      cbn [append] in H. injection H as H.
      apply format_int_then_dot in H. destruct H as [-> _].
      now repeat split.
    + apply Hhead in H. destruct H as [_ [_ [_ H]]]. discriminate H.
    + apply Hhead in H. destruct H as [_ [_ [_ H]]]. discriminate H.
    + apply Hhead in H. destruct H as [-> [-> [-> _]]].
      repeat split. discriminate.
  - intros [-> [-> [-> [-> Hc]]]].
    destruct mode; [rewrite (Hc eq_refl) |]; reflexivity.
Qed.

End FileNameFacts.
